(** * Text2SQL RAG pipeline and evaluator: a shallow embedding

    The Python sources modelled here are
    - [Text2SQLRAGSystem.py]  (knowledge ingestion, retrieval, generation,
      output cleaning),
    - [Text2SQLEvaluator.py]  (the five per-example scores),
    - [RAGASAssessment.py]    (the RAGAS bridge and its fallback),
    - [lightweight_text2sql_evaluator.py] (the LLM-as-judge variant).

    Conventions.
    - A Python [str] is a list of Unicode code points ([pystr]).
    - A Python [float] is idealised as an exact rational ([Q]); nothing
      below depends on rounding.
    - A call that may raise returns an [outcome]; code that also touches
      the outside world (vector store, database, stdout) runs in the
      state-and-exception monad [M] over a [World].
    - Everything the repository delegates to a third party (Unicode case
      tables, the embedding model, the vector index, the SQL engine, the
      language model, scikit-learn, RAGAS) is a field of the class [Env]. *)

From Stdlib Require Import String Ascii.
From Stdlib Require Import List NArith ZArith QArith Bool Lia Lqa.
Import ListNotations.

Set Implicit Arguments.
Close Scope Q_scope.
Open Scope nat_scope.

(* ================================================================== *)
(** * Python strings *)
(* ================================================================== *)

Module PyStr.

(** A [str] is a sequence of code points. *)
Definition pystr := list N.

Definition pystr_eq_dec : forall a b : pystr, {a = b} + {a <> b} :=
  list_eq_dec N.eq_dec.

Definition eqb (a b : pystr) : bool :=
  if pystr_eq_dec a b then true else false.

(** ** Literals: a Rocq string literal holds UTF-8 bytes *)

Fixpoint bytes_of_string (s : string) : list N :=
  match s with
  | EmptyString => []
  | String a t => N_of_ascii a :: bytes_of_string t
  end.

(** [need] continuation bytes are still expected, [acc] holds the bits
    read so far. *)
Fixpoint utf8_decode (need : nat) (acc : N) (bs : list N) : pystr :=
  match bs with
  | [] => []
  | b :: t =>
      if (b <? 128)%N then b :: utf8_decode 0 0%N t
      else if (b <? 192)%N then
        let acc' := (acc * 64 + (b - 128))%N in
        match need with
        | 0%nat => utf8_decode 0 0%N t
        | 1%nat => acc' :: utf8_decode 0 0%N t
        | S k => utf8_decode k acc' t
        end
      else if (b <? 224)%N then utf8_decode 1 (b - 192)%N t
      else if (b <? 240)%N then utf8_decode 2 (b - 224)%N t
      else utf8_decode 3 (b - 240)%N t
  end.

Definition py (s : string) : pystr := utf8_decode 0 0%N (bytes_of_string s).

(** A few code points that cannot be written inside a literal. *)
Definition NL : N := 10%N.
Definition SPACE : N := 32%N.
Definition DQUOTE : N := 34%N.
Definition SQUOTE : N := 39%N.
Definition BACKTICK : N := 96%N.
Definition LPAREN : N := 40%N.
Definition RPAREN : N := 41%N.
Definition STAR : N := 42%N.
Definition SLASH : N := 47%N.

(** ** Whitespace: [str.isspace], which is also what [\s] matches in a
    [str] pattern and what [str.strip()] removes *)

Definition whitespace : list N :=
  [9; 10; 11; 12; 13; 28; 29; 30; 31; 32; 133; 160; 5760;
   8192; 8193; 8194; 8195; 8196; 8197; 8198; 8199; 8200; 8201; 8202;
   8232; 8233; 8239; 8287; 12288]%N.

Definition isspace (c : N) : bool := existsb (N.eqb c) whitespace.

Fixpoint lstrip (s : pystr) : pystr :=
  match s with
  | [] => []
  | c :: t => if isspace c then lstrip t else s
  end.

Fixpoint rstrip (s : pystr) : pystr :=
  match s with
  | [] => []
  | c :: t =>
      match rstrip t with
      | [] => if isspace c then [] else [c]
      | r => c :: r
      end
  end.

(** [s.strip()] *)
Definition strip (s : pystr) : pystr := rstrip (lstrip s).

(** ** The ASCII rows of the case tables *)

Definition ascii_upper (c : N) : N :=
  if ((97 <=? c) && (c <=? 122))%N then (c - 32)%N else c.

Definition ascii_lower (c : N) : N :=
  if ((65 <=? c) && (c <=? 90))%N then (c + 32)%N else c.

(** ** Searching *)

(** [s.startswith(p)] *)
Fixpoint startswith (p s : pystr) : bool :=
  match p, s with
  | [], _ => true
  | _ :: _, [] => false
  | a :: p', b :: s' => (a =? b)%N && startswith p' s'
  end.

(** [p in s] *)
Fixpoint contains (p s : pystr) : bool :=
  startswith p s ||
  match s with
  | [] => false
  | _ :: t => contains p t
  end.

(** [s.find(p)]: index of the first occurrence, [-1] when there is none. *)
Fixpoint find (p s : pystr) : Z :=
  if startswith p s then 0%Z
  else match s with
       | [] => (-1)%Z
       | _ :: t => let r := find p t in
                   if (r <? 0)%Z then (-1)%Z else (r + 1)%Z
       end.

(** [s.count(c)] for a one-character [c]. *)
Fixpoint count (c : N) (s : pystr) : nat :=
  match s with
  | [] => 0
  | x :: t => (if (x =? c)%N then 1 else 0) + count c t
  end.

(** ** Formatting *)

Fixpoint digits (u : Decimal.uint) : pystr :=
  match u with
  | Decimal.Nil => []
  | Decimal.D0 u => 48%N :: digits u
  | Decimal.D1 u => 49%N :: digits u
  | Decimal.D2 u => 50%N :: digits u
  | Decimal.D3 u => 51%N :: digits u
  | Decimal.D4 u => 52%N :: digits u
  | Decimal.D5 u => 53%N :: digits u
  | Decimal.D6 u => 54%N :: digits u
  | Decimal.D7 u => 55%N :: digits u
  | Decimal.D8 u => 56%N :: digits u
  | Decimal.D9 u => 57%N :: digits u
  end.

(** [str(n)] for a non-negative [int]. *)
Definition str_of_nat (n : nat) : pystr := digits (Nat.to_uint n).

(** [sep.join(parts)] *)
Fixpoint join (sep : pystr) (parts : list pystr) : pystr :=
  match parts with
  | [] => []
  | [p] => p
  | p :: rest => p ++ sep ++ join sep rest
  end.

(** [s.split(sep)] for a non-empty [sep].  [skip] counts the characters
    of a separator that is being stepped over, [cur] is the current
    piece in reverse. *)
Fixpoint split_from (sep : pystr) (skip : nat) (cur : pystr) (s : pystr)
  : list pystr :=
  match s with
  | [] => [rev cur]
  | c :: t =>
      match skip with
      | S k => split_from sep k cur t
      | O =>
          if startswith sep s then
            rev cur :: split_from sep (length sep - 1) [] t
          else split_from sep 0 (c :: cur) t
      end
  end.

Definition split (sep s : pystr) : list pystr := split_from sep 0 [] s.

(** ** [re.sub] for the patterns of this repository

    A [matcher] answers, for the text that starts at the current
    position, the length of the match the pattern finds there (greedy and
    lazy quantifiers already resolved), or [None].  None of the patterns
    used here can match the empty string. *)

Definition matcher := pystr -> option nat.

(** [re.sub(pattern, repl, s)]: leftmost, non-overlapping matches are
    replaced, scanning left to right; [skip] counts the characters of the
    current match that are still to be dropped. *)
Fixpoint re_sub_from (m : matcher) (repl : pystr) (skip : nat) (s : pystr)
  : pystr :=
  match s with
  | [] => []
  | c :: t =>
      match skip with
      | S k => re_sub_from m repl k t
      | O =>
          match m s with
          | Some (S k) => repl ++ re_sub_from m repl k t
          | _ => c :: re_sub_from m repl 0 t
          end
      end
  end.

Definition re_sub (m : matcher) (repl s : pystr) : pystr :=
  re_sub_from m repl 0 s.

(** Length of the longest whitespace prefix. *)
Fixpoint span_space (s : pystr) : nat :=
  match s with
  | [] => 0
  | c :: t => if isspace c then S (span_space t) else 0
  end.

(** [\s+] *)
Definition re_spaces : matcher := fun s =>
  match span_space s with
  | O => None
  | n => Some n
  end.

Definition is_quote (c : N) : bool :=
  (c =? DQUOTE)%N || (c =? SQUOTE)%N || (c =? BACKTICK)%N.

(** The character class of double quote, single quote and backtick. *)
Definition re_quote : matcher := fun s =>
  match s with
  | c :: _ => if is_quote c then Some 1 else None
  | [] => None
  end.

(** Number of characters [.*?] has to take before [\*/] matches; [.]
    does not match a newline. *)
Fixpoint lazy_until_close (s : pystr) : option nat :=
  match s with
  | [] => None
  | c :: t =>
      if startswith [STAR; SLASH] s then Some 0
      else if (c =? NL)%N then None
      else option_map S (lazy_until_close t)
  end.

(** [/\*.*?\*/] *)
Definition re_block_comment : matcher := fun s =>
  if startswith [SLASH; STAR] s then
    option_map (fun k => k + 4) (lazy_until_close (skipn 2 s))
  else None.

Definition FENCE : pystr := [BACKTICK; BACKTICK; BACKTICK].
Definition FENCE_SQL : pystr := FENCE ++ [115; 113; 108]%N.

(** [```sql\s*] *)
Definition re_fence_sql : matcher := fun s =>
  if startswith FENCE_SQL s then Some (6 + span_space (skipn 6 s))
  else None.

(** [\s*```]: the greedy [\s*] takes the whole whitespace run; giving
    characters back cannot help, since a whitespace character is not a
    backtick. *)
Definition re_space_fence : matcher := fun s =>
  let n := span_space s in
  if startswith FENCE (skipn n s) then Some (n + 3) else None.

End PyStr.

Import PyStr.

(* ================================================================== *)
(** * Exceptions, the outside world, and the monad the code runs in *)
(* ================================================================== *)

(** Instances of Python's [Exception].  [ZeroDivisionError] is kept
    apart because the code guards its divisions against it; every other
    exception is identified by its message [str(e)]. *)
Inductive exn : Type :=
| ZeroDivisionError
| Exception (msg : pystr).

Definition str_of_exn (e : exn) : pystr :=
  match e with
  | ZeroDivisionError => py "division by zero"
  | Exception msg => msg
  end.

Inductive outcome (A : Type) : Type :=
| Ok (a : A)
| Raise (e : exn).
Arguments Ok {A} a.
Arguments Raise {A} e.

(** Python's [a / b] on numbers. *)
Definition truediv (a b : Q) : outcome Q :=
  if Qeq_bool b 0 then Raise ZeroDivisionError else Ok (a / b)%Q.

(** [sum(xs)] *)
Definition sum (xs : list Q) : Q := fold_left Qplus xs 0%Q.

(** [len(xs)], as a number to divide by *)
Definition len (A : Type) (xs : list A) : Q := inject_Z (Z.of_nat (length xs)).

(** ** The Unicode tables of the interpreter *)

Class Unicode : Type := {
  (** [str.upper] of a single code point (full case mapping: one code
      point may become several). *)
  upper_cp : N -> list N;
  (** [str.lower] of a whole string (the mapping of capital sigma
      depends on its neighbours). *)
  lower : pystr -> pystr
}.

(** [s.upper()] *)
Definition upper {U : Unicode} (s : pystr) : pystr := flat_map upper_cp s.

(** ** Third-party services *)

(** One entry of the vector store: what [collection.add] receives, as
    four parallel lists. *)
Record Metadata : Type := mkMetadata {
  md_type : pystr;
  md_source : pystr
}.

Record AddArgs (Embedding : Type) : Type := mkAddArgs {
  add_embeddings : list Embedding;
  add_documents : list pystr;
  add_metadatas : list Metadata;
  add_ids : list pystr
}.

(** The part of [collection.query]'s result that the code reads: one
    inner list per query embedding; a key may hold [None]. *)
Record QueryResult : Type := mkQueryResult {
  qr_documents : option (list (list pystr));
  qr_distances : option (list (list Q))
}.

(** The dataset handed to RAGAS: five parallel columns. *)
Record RagasDataset : Type := mkRagasDataset {
  ds_question : list pystr;
  ds_answer : list pystr;
  ds_contexts : list (list pystr);
  ds_ground_truths : list (list pystr);
  ds_references : list pystr
}.

Class Env : Type := {
  Embedding : Type;
  Collection : Type;
  DbState : Type;
  Row : Type;
  (** [==] on the dictionaries built from result rows *)
  row_eqb : Row -> Row -> bool;
  (** [open(path, 'r', encoding='utf-8')] followed by iteration: the
      lines of the file, each with its line terminator *)
  read_lines : pystr -> outcome (list pystr);
  (** the embedding function *)
  embed_documents : list pystr -> outcome (list Embedding);
  embed_query : pystr -> outcome Embedding;
  (** the chromadb collection *)
  collection_add : Collection -> AddArgs Embedding -> outcome Collection;
  collection_query : Collection -> list Embedding -> nat -> outcome QueryResult;
  (** [import ollama] and [ollama.generate(...)['response']], as a
      function of the model name and the prompt (the decoding options
      are constants) *)
  import_ollama : outcome unit;
  ollama_generate : pystr -> pystr -> outcome pystr;
  (** sqlalchemy: [create_engine(url)], [engine.connect()], and
      [conn.execute(text(sql)).fetchall()] with each row turned into a
      dictionary *)
  create_engine : pystr -> outcome unit;
  engine_connect : pystr -> DbState -> outcome unit * DbState;
  conn_execute : pystr -> pystr -> DbState -> outcome (list Row) * DbState;
  (** [re.findall] for the three patterns of [extract_sql_elements] *)
  findall_from : pystr -> list pystr;
  findall_select : pystr -> list pystr;
  findall_where : pystr -> list pystr;
  (** scikit-learn: the import, and TF-IDF over the two documents
      followed by the cosine of the two rows *)
  import_sklearn : outcome unit;
  tfidf_cosine : pystr -> pystr -> outcome Q;
  (** RAGAS and datasets *)
  import_ragas : outcome unit;
  import_datasets : outcome unit;
  dataset_from_dict : RagasDataset -> outcome RagasDataset;
  ragas_evaluate : RagasDataset -> outcome (list (pystr * Q));
  (** the transformers text-generation pipeline:
      [pipeline(prompt, ...)[0]['generated_text']] *)
  text_generation : pystr -> outcome pystr
}.

(** ** The world *)

Section World.
Context {env : Env}.

(** What the program does to the outside, in order. *)
Inductive event : Type :=
| Printed (line : pystr)
| Executed (url sql : pystr)
| Added (args : AddArgs Embedding).

Record World : Type := mkWorld {
  w_collection : Collection;
  w_db : DbState;
  w_trace : list event
}.

(** State and exceptions: a raised exception keeps the effects made
    before it. *)
Definition M (A : Type) : Type := World -> outcome A * World.

Definition ret {A} (a : A) : M A := fun w => (Ok a, w).

Definition bind {A B} (c : M A) (k : A -> M B) : M B := fun w =>
  match c w with
  | (Ok a, w') => k a w'
  | (Raise e, w') => (Raise e, w')
  end.

(** A pure call that may raise. *)
Definition lift {A} (r : outcome A) : M A := fun w => (r, w).

(** [try: c  except Exception as e: h e] *)
Definition try_except {A} (c : M A) (h : exn -> M A) : M A := fun w =>
  match c w with
  | (Ok a, w') => (Ok a, w')
  | (Raise e, w') => h e w'
  end.

Definition emit (ev : event) : M unit := fun w =>
  (Ok tt, mkWorld (w_collection w) (w_db w) (w_trace w ++ [ev])).

(** [print(line)] *)
Definition print (line : pystr) : M unit := emit (Printed line).

End World.

Notation "x <- c1 ;; c2" := (bind c1 (fun x => c2))
  (at level 61, c1 at next level, right associativity).
Notation "' pat <- c1 ;; c2" :=
  (bind c1 (fun x => match x with pat => c2 end))
  (at level 61, pat pattern, c1 at next level, right associativity).
Notation "c1 ;;; c2" := (bind c1 (fun _ => c2))
  (at level 61, right associativity).

(* ================================================================== *)
(** * Text2SQLRAGSystem.py *)
(* ================================================================== *)

Module RAG.
Section RAG.
Context {env : Env}.

(** The object's own configuration; its collection lives in the
    [World], its embedding function in [Env]. *)
Record Text2SQLRAGSystem : Type := mkRAG {
  model_name : pystr
}.

(** ** [train_rag_model] *)

(** The three lists the method fills while it reads the files. *)
Record Pending : Type := mkPending {
  all_documents : list pystr;
  metadatas : list Metadata;
  ids : list pystr
}.

Definition no_pending : Pending := mkPending [] [] [].

(** The body of the three file loops, which differ only in the type
    label written to the metadata and in the prefix of the id:
    [for i, line in enumerate(f): if line.strip(): ...]. *)
Fixpoint ingest_lines (type_label id_prefix file : pystr) (i : nat)
    (lines : list pystr) (acc : Pending) : Pending :=
  match lines with
  | [] => acc
  | line :: rest =>
      let acc' :=
        match strip line with
        | [] => acc
        | text =>
            mkPending
              (all_documents acc ++ [text])
              (metadatas acc ++ [mkMetadata type_label file])
              (ids acc ++ [id_prefix ++ py "_" ++ file ++ py "_" ++ str_of_nat i])
        end in
      ingest_lines type_label id_prefix file (S i) rest acc'
  end.

Fixpoint ingest_files (type_label id_prefix : pystr) (files : list pystr)
    (acc : Pending) : M Pending :=
  match files with
  | [] => ret acc
  | file :: rest =>
      lines <- lift (read_lines file) ;;
      ingest_files type_label id_prefix rest
        (ingest_lines type_label id_prefix file 0 lines acc)
  end.

Definition batch_size : nat := 100.

(** [range(0, n, batch_size)] *)
Definition batch_starts (n : nat) : list nat :=
  map (fun k => k * batch_size) (seq 0 ((n + (batch_size - 1)) / batch_size)).

(** [xs[i:i+batch_size]] *)
Definition batch_slice {A} (i : nat) (xs : list A) : list A :=
  firstn batch_size (skipn i xs).

Definition add_to_collection (args : AddArgs Embedding) : M unit := fun w =>
  match collection_add (w_collection w) args with
  | Ok c' => (Ok tt, mkWorld c' (w_db w) (w_trace w ++ [Added args]))
  | Raise e => (Raise e, w)
  end.

Fixpoint add_batches (p : Pending) (starts : list nat) : M unit :=
  match starts with
  | [] => ret tt
  | i :: rest =>
      let batch_docs := batch_slice i (all_documents p) in
      let batch_metas := batch_slice i (metadatas p) in
      let batch_ids := batch_slice i (ids p) in
      embeddings <- lift (embed_documents batch_docs) ;;
      add_to_collection (mkAddArgs embeddings batch_docs batch_metas batch_ids) ;;;
      add_batches p rest
  end.

(** Everything the method collects before it writes to the store. *)
Definition collect (ddl_files doc_files example_files : list pystr) : M Pending :=
  p1 <- ingest_files (py "ddl") (py "ddl") ddl_files no_pending ;;
  p2 <- ingest_files (py "documentation") (py "doc") doc_files p1 ;;
  ingest_files (py "example") (py "ex") example_files p2.

Definition train_rag_model (self : Text2SQLRAGSystem)
    (ddl_files doc_files example_files : list pystr) : M unit :=
  p <- collect ddl_files doc_files example_files ;;
  add_batches p (batch_starts (length (all_documents p))) ;;;
  print (py "成功导入 " ++ str_of_nat (length (all_documents p))
         ++ py " 条知识条目").

(** ** [retrieve_context] *)

Definition score_of_distance (distance : Q) : Q := (1 - distance / 10)%Q.

Definition query_collection (embs : list Embedding) (n_results : nat)
  : M QueryResult := fun w =>
  (collection_query (w_collection w) embs n_results, w).

Definition retrieve_context (self : Text2SQLRAGSystem) (question : pystr)
    (n_results : nat) : M (list pystr * list Q) :=
  question_embedding <- lift (embed_query question) ;;
  results <- query_collection [question_embedding] n_results ;;
  let contexts :=
    match qr_documents results with
    | Some (first :: _) => first
    | _ => []
    end in
  let scores :=
    match qr_distances results with
    | Some (first :: _) => map score_of_distance first
    | _ => []
    end in
  ret (contexts, scores).

(** The default of [n_results]. *)
Definition default_n_results : nat := 5.

(** ** [_build_prompt] *)

Definition _build_prompt (question : pystr) (contexts : list pystr) : pystr :=
  let context_str := join [NL] (map (fun ctx => py "- " ++ ctx) contexts) in
  join [NL]
    [ py "你是一名专业的SQL专家。请根据以下数据库上下文信息，将自然语言问题转换为准确且可执行的SQL查询。";
      [];
      py "数据库上下文信息：";
      context_str;
      [];
      py "自然语言问题：" ++ question;
      [];
      py "请遵循以下要求：";
      py "1. 只返回SQL查询语句，不要任何解释";
      py "2. 确保SQL语法正确且符合数据库规范";
      py "3. 使用合适的JOIN条件和WHERE子句";
      py "4. 如果问题涉及聚合，使用正确的聚合函数";
      py "5. 如果上下文信息不足，基于常见SQL模式进行合理推断";
      [];
      py "SQL查询：" ].

(** ** [_clean_sql_output] *)

Definition _clean_sql_output (sql : pystr) : pystr :=
  let sql := re_sub re_fence_sql [] sql in
  let sql := re_sub re_space_fence [] sql in
  strip (re_sub re_spaces [SPACE] sql).

(** ** [generate_sql] *)

Definition generate_sql (self : Text2SQLRAGSystem) (question : pystr)
    (contexts : option (list pystr)) : M pystr :=
  lift import_ollama ;;;
  contexts <- match contexts with
              | None =>
                  '(contexts, _) <- retrieve_context self question default_n_results ;;
                  ret contexts
              | Some contexts => ret contexts
              end ;;
  let prompt := _build_prompt question contexts in
  try_except
    (response <- lift (ollama_generate (model_name self) prompt) ;;
     let sql := strip response in
     ret (_clean_sql_output sql))
    (fun e => print (py "SQL生成错误: " ++ str_of_exn e) ;;; ret []).

End RAG.
End RAG.

(* ================================================================== *)
(** * Text2SQLEvaluator.py *)
(* ================================================================== *)

Module Evaluator.
Import RAG.

Definition SELECT : pystr := py "SELECT".
Definition FROM : pystr := py "FROM".

Section Syntax.
Context {U : Unicode}.

(** ** [_evaluate_syntax] *)

Definition _evaluate_syntax (sql : pystr) : Q :=
  if eqb sql [] || eqb (strip sql) [] then 0%Q
  else
    let sql_upper := upper sql in
    let has_select_from := contains SELECT sql_upper && contains FROM sql_upper in
    if negb has_select_from then 0%Q
    else if negb (count LPAREN sql_upper =? count RPAREN sql_upper) then (1 # 2)%Q
    else
      let select_pos := find SELECT sql_upper in
      let from_pos := find FROM sql_upper in
      if (select_pos >? from_pos)%Z then (3 # 10)%Q
      else 1%Q.

(** ** [_evaluate_exact_match] *)

Definition normalize_sql (sql : pystr) : pystr :=
  let sql := strip (upper (re_sub re_spaces [SPACE] sql)) in
  let sql := re_sub re_quote [] sql in
  re_sub re_block_comment [] sql.

Definition _evaluate_exact_match (generated_sql ground_truth_sql : pystr) : Q :=
  let norm_gen := normalize_sql generated_sql in
  let norm_gt := normalize_sql ground_truth_sql in
  if eqb norm_gen norm_gt then 1%Q else 0%Q.

End Syntax.

Section Evaluator.
Context {U : Unicode} {env : Env}.

(** ** [_evaluate_execution_accuracy] *)

Definition connect (url : pystr) : M unit := fun w =>
  let '(r, db') := engine_connect url (w_db w) in
  (r, mkWorld (w_collection w) db' (w_trace w)).

(** [conn.execute(text(sql)).fetchall()] and the conversion of the rows;
    the statement is logged whether or not it succeeds. *)
Definition execute (url sql : pystr) : M (list Row) := fun w =>
  let '(r, db') := conn_execute url sql (w_db w) in
  (r, mkWorld (w_collection w) db' (w_trace w ++ [Executed url sql])).

(** The loop [for gen_row, gt_row in zip(...): if gen_row != gt_row]. *)
Definition some_row_differs (gen_result gt_result : list Row) : bool :=
  existsb (fun '(gen_row, gt_row) => negb (row_eqb gen_row gt_row))
          (combine gen_result gt_result).

(** The two inner [try] blocks return early from their handlers; here
    each hands [None] to the code that follows it. *)
Definition _evaluate_execution_accuracy
    (generated_sql ground_truth_sql db_connection : pystr) : M Q :=
  try_except
    (lift (create_engine db_connection) ;;;
     connect db_connection ;;;
     gen_result <- try_except
                     (rows <- execute db_connection generated_sql ;; ret (Some rows))
                     (fun _ => ret None) ;;
     match gen_result with
     | None => ret 0%Q
     | Some gen_result =>
         connect db_connection ;;;
         gt_result <- try_except
                        (rows <- execute db_connection ground_truth_sql ;; ret (Some rows))
                        (fun _ => ret None) ;;
         match gt_result with
         | None => ret 0%Q
         | Some gt_result =>
             if negb (length gen_result =? length gt_result) then ret 0%Q
             else if some_row_differs gen_result gt_result then ret (1 # 2)%Q
             else ret 1%Q
         end
     end)
    (fun e => print (py "执行评估错误: " ++ str_of_exn e) ;;; ret 0%Q).

(** ** [_evaluate_semantic_similarity] *)

Definition extract_sql_elements (sql : pystr) : pystr :=
  let tables := findall_from (upper sql) in
  let columns := findall_select (upper sql) in
  let conditions := findall_where (upper sql) in
  let elements := tables in
  let elements :=
    match columns with
    | [] => elements
    | first :: _ => elements ++ map strip (split (py ",") first)
    end in
  let elements :=
    match conditions with
    | [] => elements
    | first :: _ => elements ++ map strip (split (py "AND") first)
    end in
  join [SPACE] elements.

Definition _evaluate_semantic_similarity
    (generated_sql ground_truth_sql : pystr) : M Q :=
  lift import_sklearn ;;;
  let gen_elements := extract_sql_elements generated_sql in
  let gt_elements := extract_sql_elements ground_truth_sql in
  if eqb gen_elements [] || eqb gt_elements [] then ret 0%Q
  else
    try_except
      (lift (tfidf_cosine gen_elements gt_elements))
      (fun _ => ret 0%Q).

(** ** [_evaluate_retrieval_quality] *)

Definition _evaluate_retrieval_quality (rag : Text2SQLRAGSystem)
    (question generated_sql : pystr) : M Q :=
  '(contexts, scores) <- retrieve_context rag question default_n_results ;;
  match scores with
  | [] => ret 0%Q
  | _ => lift (truediv (sum scores) (len scores))
  end.

(** ** [evaluate_single_example] *)

Record EvaluationRecord : Type := mkRecord {
  question : pystr;
  generated_sql : pystr;
  ground_truth_sql : pystr;
  syntax_accuracy : Q;
  execution_accuracy : Q;
  exact_match : Q;
  semantic_similarity : Q;
  retrieval_quality : Q
}.

(** Truth value of the optional connection string: [None] and the empty
    string are false. *)
Definition truthy (db_connection : option pystr) : bool :=
  match db_connection with
  | None | Some [] => false
  | Some _ => true
  end.

Definition evaluate_single_example (rag : Text2SQLRAGSystem)
    (question ground_truth_sql : pystr) (db_connection : option pystr)
  : M EvaluationRecord :=
  generated_sql <- generate_sql rag question None ;;
  let syntax_score := _evaluate_syntax generated_sql in
  exec_score <-
    match db_connection with
    | Some url =>
        if truthy db_connection && negb (Qle_bool syntax_score 0)
        then _evaluate_execution_accuracy generated_sql ground_truth_sql url
        else ret 0%Q
    | None => ret 0%Q
    end ;;
  let exact_match := _evaluate_exact_match generated_sql ground_truth_sql in
  semantic_similarity <- _evaluate_semantic_similarity generated_sql ground_truth_sql ;;
  retrieval_quality <- _evaluate_retrieval_quality rag question generated_sql ;;
  ret (mkRecord question generated_sql ground_truth_sql
         syntax_score exec_score exact_match semantic_similarity retrieval_quality).

End Evaluator.
End Evaluator.

(** A test case: the dictionary with the keys [question] and [sql]. *)
Record TestCase : Type := mkTestCase {
  tc_question : pystr;
  tc_sql : pystr
}.

(* ================================================================== *)
(** * RAGASAssessment.py *)
(* ================================================================== *)

Module RAGAS.
Import RAG.
Section RAGAS.
Context {env : Env}.

(** The loop of [prepare_ragas_dataset], appending one row per case to
    the five columns. *)
Fixpoint prepare_rows (rag : Text2SQLRAGSystem) (test_cases : list TestCase)
    (acc : RagasDataset) : M RagasDataset :=
  match test_cases with
  | [] => ret acc
  | case :: rest =>
      let question := tc_question case in
      '(contexts, _) <- retrieve_context rag question default_n_results ;;
      generated_sql <- generate_sql rag question (Some contexts) ;;
      prepare_rows rag rest
        (mkRagasDataset
           (ds_question acc ++ [question])
           (ds_answer acc ++ [generated_sql])
           (ds_contexts acc ++ [contexts])
           (ds_ground_truths acc ++ [[tc_sql case]])
           (ds_references acc ++ [tc_sql case]))
  end.

Definition prepare_ragas_dataset (rag : Text2SQLRAGSystem)
    (test_cases : list TestCase) : M RagasDataset :=
  lift import_datasets ;;;
  dataset_dict <- prepare_rows rag test_cases (mkRagasDataset [] [] [] [] []) ;;
  lift (dataset_from_dict dataset_dict).

Definition _fallback_evaluation (test_cases : list TestCase) : list (pystr * Q) :=
  [ (py "faithfulness", 0.7%Q);
    (py "answer_relevancy", 0.6%Q);
    (py "context_recall", 0.8%Q);
    (py "context_precision", 0.75%Q) ].

(** The body of the [try] block. *)
Definition ragas_attempt (rag : Text2SQLRAGSystem) (test_cases : list TestCase)
  : M (list (pystr * Q)) :=
  lift import_ragas ;;;
  dataset <- prepare_ragas_dataset rag test_cases ;;
  lift (ragas_evaluate dataset).

Definition evaluate_with_ragas (rag : Text2SQLRAGSystem)
    (test_cases : list TestCase) : M (list (pystr * Q)) :=
  try_except
    (ragas_attempt rag test_cases)
    (fun e =>
       print (py "RAGAS评估失败: " ++ str_of_exn e) ;;;
       ret (_fallback_evaluation test_cases)).

End RAGAS.
End RAGAS.

(* ================================================================== *)
(** * lightweight_text2sql_evaluator.py *)
(* ================================================================== *)

Module Lightweight.
Section Lightweight.
Context {U : Unicode} {env : Env}.

Definition quoted (s : pystr) : pystr := [DQUOTE] ++ s ++ [DQUOTE].

Definition CORRECT : pystr := py "正确".
Definition WRONG : pystr := py "错误".
Definition EQUIVALENT : pystr := py "等价".
Definition NOT_EQUIVALENT : pystr := py "不等价".

(** [self.grammar_prompt.format(sql=sql)] *)
Definition grammar_prompt (sql : pystr) : pystr :=
  join [NL]
    [ py "判断以下SQL语句是否语法正确。只需回答" ++ quoted CORRECT ++ py "或"
        ++ quoted WRONG ++ py "。";
      py "SQL: " ++ sql;
      py "答案:" ].

Definition equivalence_prompt (question sql1 sql2 : pystr) : pystr :=
  join [NL]
    [ py "判断两个SQL语句在语义上是否等价，即是否会返回相同结果。";
      py "问题: " ++ question;
      py "SQL1: " ++ sql1;
      py "SQL2: " ++ sql2;
      py "只需回答" ++ quoted EQUIVALENT ++ py "或" ++ quoted NOT_EQUIVALENT ++ py "。";
      py "答案:" ].

Definition correctness_prompt (question schema sql : pystr) : pystr :=
  join [NL]
    [ py "判断SQL语句是否能正确回答问题。只需回答" ++ quoted CORRECT ++ py "或"
        ++ quoted WRONG ++ py "。";
      py "问题: " ++ question;
      py "数据库结构: " ++ schema;
      py "SQL语句: " ++ sql;
      py "答案:" ].

Definition _clean_response (response : pystr) : pystr :=
  let response := lower (strip response) in
  if contains CORRECT response then CORRECT
  else if contains WRONG response then WRONG
  else if contains EQUIVALENT response then EQUIVALENT
  else if contains NOT_EQUIVALENT response then NOT_EQUIVALENT
  else [].

(** [self.pipeline(prompt, ...)[0]['generated_text'][len(prompt):]],
    cleaned. *)
Definition judge (prompt : pystr) : M pystr :=
  generated_text <- lift (text_generation prompt) ;;
  ret (_clean_response (skipn (length prompt) generated_text)).

Definition evaluate_grammar (sql : pystr) : M bool :=
  result <- judge (grammar_prompt sql) ;;
  ret (eqb result CORRECT).

Definition evaluate_equivalence (question sql1 sql2 : pystr) : M bool :=
  result <- judge (equivalence_prompt question sql1 sql2) ;;
  ret (eqb result EQUIVALENT).

Definition evaluate_correctness (question sql schema : pystr) : M bool :=
  result <- judge (correctness_prompt question schema sql) ;;
  ret (eqb result CORRECT).

Record CaseResult : Type := mkCaseResult {
  grammar_correct : bool;
  equivalent_to_reference : option bool;
  answers_correctly : bool;
  is_valid : bool
}.

Definition evaluate_single_case (question generated_sql schema reference_sql : pystr)
  : M CaseResult :=
  grammar_ok <- evaluate_grammar generated_sql ;;
  equivalent <- match reference_sql with
                | [] => ret None
                | _ => r <- evaluate_equivalence question generated_sql reference_sql ;;
                       ret (Some r)
                end ;;
  correct <- evaluate_correctness question generated_sql schema ;;
  let is_valid := grammar_ok && correct in
  ret (mkCaseResult grammar_ok equivalent correct is_valid).

(** A case of the batch: [reference_sql] is optional
    ([case.get("reference_sql", "")]). *)
Record BatchCase : Type := mkBatchCase {
  bc_question : pystr;
  bc_generated_sql : pystr;
  bc_schema : pystr;
  bc_reference_sql : option pystr
}.

(** The loop of [evaluate_batch], with its two accumulators. *)
Fixpoint batch_loop (test_cases : list BatchCase)
    (results : list (BatchCase * CaseResult)) (valid_count : nat)
  : M (list (BatchCase * CaseResult) * nat) :=
  match test_cases with
  | [] => ret (results, valid_count)
  | case :: rest =>
      eval_result <- evaluate_single_case
                       (bc_question case) (bc_generated_sql case) (bc_schema case)
                       (match bc_reference_sql case with Some r => r | None => [] end) ;;
      batch_loop rest (results ++ [(case, eval_result)])
        (if is_valid eval_result then valid_count + 1 else valid_count)
  end.

Definition evaluate_batch (test_cases : list BatchCase)
  : M (Q * list (BatchCase * CaseResult)) :=
  '(results, valid_count) <- batch_loop test_cases [] 0 ;;
  accuracy <- match test_cases with
              | [] => ret 0%Q
              | _ => lift (truediv (inject_Z (Z.of_nat valid_count)) (len test_cases))
              end ;;
  ret (accuracy, results).

End Lightweight.
End Lightweight.

(* ================================================================== *)
(** * Concrete instances used to run the model *)
(* ================================================================== *)

Module Concrete.

(** Case tables that know ASCII only; other code points are left as
    they are.  They agree with the interpreter on ASCII text. *)
Definition ascii_unicode : Unicode :=
  {| upper_cp := fun c => [ascii_upper c];
     lower := map ascii_lower |}.

(** Two small files. *)
Definition stub_files (path : pystr) : outcome (list pystr) :=
  if eqb path (py "schema.sql") then
    Ok [ py "CREATE TABLE orders(id INT, user_id INT, amount DECIMAL)" ++ [NL];
         [NL];
         py "CREATE TABLE users(id INT)" ++ [NL] ]
  else if eqb path (py "notes.txt") then
    Ok [ py "orders holds one row per purchase" ++ [NL] ]
  else Raise (Exception (py "No such file or directory")).

(** A database that knows two statements. *)
Definition stub_rows (sql : pystr) : outcome (list (list N)) :=
  if eqb sql (py "SELECT id FROM users") then Ok [[1%N]; [2%N]]
  else if eqb sql (py "SELECT * FROM inventory_logs") then Ok [[1%N]; [3%N]]
  else Raise (Exception (py "no such table")).

(** An in-memory stand-in for the services: the two files, an index
    that answers every query with [answer], a language model that
    replies [reply], the small database, a cosine that tells equal texts
    from different ones, no RAGAS installed, and a judge model that
    always answers that the SQL is right. *)
Definition stub_env (answer : QueryResult) (reply : outcome pystr) : Env :=
  {| Embedding := unit;
     Collection := list (AddArgs unit);
     DbState := unit;
     Row := list N;
     row_eqb := fun a b => if list_eq_dec N.eq_dec a b then true else false;
     read_lines := stub_files;
     embed_documents := fun docs => Ok (map (fun _ => tt) docs);
     embed_query := fun _ => Ok tt;
     collection_add := fun c args => Ok (c ++ [args]);
     collection_query := fun _ _ _ => Ok answer;
     import_ollama := Ok tt;
     ollama_generate := fun _ _ => reply;
     create_engine := fun _ => Ok tt;
     engine_connect := fun _ d => (Ok tt, d);
     conn_execute := fun _ sql d => (stub_rows sql, d);
     findall_from := fun _ => [];
     findall_select := fun _ => [];
     findall_where := fun _ => [];
     import_sklearn := Ok tt;
     tfidf_cosine := fun a b => Ok (if eqb a b then 1%Q else 0%Q);
     import_ragas := Raise (Exception (py "No module named 'ragas'"));
     import_datasets := Ok tt;
     dataset_from_dict := fun d => Ok d;
     ragas_evaluate := fun _ => Raise (Exception (py "no LLM configured"));
     text_generation := fun prompt => Ok (prompt ++ py " 正确") |}.

(** The reply of the stub generation endpoint in the end-to-end
    scenario. *)
Definition fenced_reply : pystr :=
  FENCE_SQL ++ [NL] ++ py "SELECT * FROM inventory_logs" ++ [NL] ++ FENCE.

Definition near : QueryResult :=
  mkQueryResult
    (Some [[py "CREATE TABLE orders(id INT, user_id INT, amount DECIMAL)";
            py "orders holds one row per purchase"]])
    (Some [[(2 # 1)%Q; (5 # 1)%Q]]).

Definition far : QueryResult :=
  mkQueryResult
    (Some [[py "orders holds one row per purchase"]])
    (Some [[(25 # 1)%Q]]).

Definition empty_index : QueryResult := mkQueryResult (Some [[]]) (Some [[]]).

Definition rag : RAG.Text2SQLRAGSystem := RAG.mkRAG (py "qwen2.5:3b").

(** An index with two near hits, and one whose only hit is far away. *)
Definition demo_env : Env := stub_env near (Ok fenced_reply).
Definition far_env : Env := stub_env far (Ok fenced_reply).

(** Nothing ingested, nothing printed or executed yet. *)
Definition demo_world : @World demo_env := @mkWorld demo_env [] tt [].
Definition far_world : @World far_env := @mkWorld far_env [] tt [].

Definition QUESTION : pystr := py "显示最近一周的库存变动".

End Concrete.

(* ================================================================== *)
(** * Vocabulary of the specification *)
(* ================================================================== *)

Module Spec.
Import RAG Evaluator.

(** ** What is assumed of the interpreter's upper-case table *)

(** ASCII letters are mapped to their capitals, other ASCII characters
    to themselves. *)
Definition upper_ascii_law (U : Unicode) : Prop :=
  forall c, (c < 128)%N -> upper_cp c = [ascii_upper c].

(** Whitespace has no case. *)
Definition upper_space_law (U : Unicode) : Prop :=
  forall c, isspace c = true -> upper_cp c = [c].

(** A character that is not whitespace is mapped to at least one
    character, none of them whitespace. *)
Definition upper_nonspace_law (U : Unicode) : Prop :=
  forall c, isspace c = false ->
    upper_cp c <> [] /\ forallb (fun x => negb (isspace x)) (upper_cp c) = true.

(** Upper-casing twice is upper-casing once. *)
Definition upper_idem_law (U : Unicode) : Prop :=
  forall c, upper (upper_cp c) = upper_cp c.

Definition ascii_letter (c : N) : bool :=
  (((65 <=? c) && (c <=? 90)) || ((97 <=? c) && (c <=? 122)))%N.

(** An ASCII character that is not a letter (a quote, a slash, a star)
    is produced from itself only. *)
Definition upper_symbols_law (U : Unicode) : Prop :=
  forall c x, In x (upper_cp c) -> (x < 128)%N -> ascii_letter x = false -> c = x.

(** ** Occurrences of a pattern in a text *)

Definition occurs_at (p s : pystr) (i : nat) : Prop :=
  exists pre post, s = pre ++ p ++ post /\ length pre = i.

Definition occurs (p s : pystr) : Prop := exists i, occurs_at p s i.

Definition first_at (p s : pystr) (i : nat) : Prop :=
  occurs_at p s i /\ forall j, occurs_at p s j -> i <= j.

(** ** The conditions of the syntax scorer, on the upper-cased text *)

Definition has_select_from (u : pystr) : Prop :=
  occurs SELECT u /\ occurs FROM u.

Definition balanced (u : pystr) : Prop :=
  count LPAREN u = count RPAREN u.

Definition select_after_from (u : pystr) : Prop :=
  exists i j, first_at SELECT u i /\ first_at FROM u j /\ j < i.

(** ** Whitespace *)

Definition all_space (s : pystr) : Prop := Forall (fun c => isspace c = true) s.

Definition nospace (s : pystr) : bool := forallb (fun c => negb (isspace c)) s.

(** The substitution both cleaners start or end with: every run of
    whitespace becomes one space. *)
Definition collapse (s : pystr) : pystr := re_sub re_spaces [SPACE] s.

Definition starts_nonspace (s : pystr) : bool :=
  match s with
  | [] => true
  | c :: _ => negb (isspace c)
  end.

(** Every whitespace character is a single space followed by something
    that is not whitespace, or by the end of the text. *)
Fixpoint squeezed (s : pystr) : bool :=
  match s with
  | [] => true
  | c :: t =>
      (negb (isspace c) || ((c =? SPACE)%N && starts_nonspace t)) && squeezed t
  end.

(** [s.split()]: the maximal runs of characters that are not
    whitespace; [cur] is the word being read. *)
Fixpoint words_from (cur : pystr) (s : pystr) : list pystr :=
  match s with
  | [] => match cur with [] => [] | _ => [cur] end
  | c :: t =>
      if isspace c then
        match cur with
        | [] => words_from [] t
        | _ => cur :: words_from [] t
        end
      else words_from (cur ++ [c]) t
  end.

Definition words (s : pystr) : list pystr := words_from [] s.

Definition is_word (w : pystr) : Prop := w <> [] /\ nospace w = true.

(** ** Code fences *)

Definition no_backtick (s : pystr) : bool :=
  forallb (fun c => negb (c =? BACKTICK)%N) s.

Definition starts_with_backtick (s : pystr) : bool :=
  match s with
  | c :: _ => (c =? BACKTICK)%N
  | [] => false
  end.

(** No triple backtick starts inside [body] when the closing fence
    follows it, not even one that runs into that fence. *)
Fixpoint no_fence_inside (body : pystr) : bool :=
  match body with
  | [] => true
  | c :: t => negb (startswith FENCE (c :: t ++ FENCE)) && no_fence_inside t
  end.



(** ** Sums and means *)

Definition total (xs : list Q) : Q := fold_right Qplus 0%Q xs.

(** The arithmetic mean of a non-empty list. *)
Definition mean (xs : list Q) : Q :=
  (total xs / inject_Z (Z.of_nat (length xs)))%Q.

(** ** Retrieval *)

(** The hits for the only query embedding; none when the key holds
    [None] or an empty list. *)
Definition hits {A} (column : option (list (list A))) : list A :=
  match column with
  | Some (first :: _) => first
  | _ => []
  end.

(** ** Ingestion *)

Inductive SnippetType : Type := ddl | documentation | example.

(** The label written to the metadata. *)
Definition type_label (k : SnippetType) : pystr :=
  match k with
  | ddl => py "ddl"
  | documentation => py "documentation"
  | example => py "example"
  end.

(** The prefix of the id. *)
Definition id_prefix (k : SnippetType) : pystr :=
  match k with
  | ddl => py "ddl"
  | documentation => py "doc"
  | example => py "ex"
  end.

Definition snippet_id (k : SnippetType) (file : pystr) (i : nat) : pystr :=
  id_prefix k ++ py "_" ++ file ++ py "_" ++ str_of_nat i.

(** A stored snippet: text, metadata, id. *)
Definition Snippet : Type := (pystr * Metadata * pystr)%type.

Definition snippets (p : Pending) : list Snippet :=
  combine (combine (all_documents p) (metadatas p)) (ids p).

Definition aligned (p : Pending) : Prop :=
  length (metadatas p) = length (all_documents p) /\
  length (ids p) = length (all_documents p).

(** The snippet made from line [i] of [file]. *)
Definition snippet_of (k : SnippetType) (file : pystr) (i : nat) (line : pystr)
  : Snippet :=
  (strip line, mkMetadata (type_label k) file, snippet_id k file i).

(** The input files of each type. *)
Definition files_of (ddl_files doc_files example_files : list pystr)
    (k : SnippetType) : list pystr :=
  match k with
  | ddl => ddl_files
  | documentation => doc_files
  | example => example_files
  end.

(** ** The RAGAS fallback *)

(** The four constant scores. *)
Definition fallback_scores : list (pystr * Q) :=
  [ (py "faithfulness", 0.7%Q);
    (py "answer_relevancy", 0.6%Q);
    (py "context_recall", 0.8%Q);
    (py "context_precision", 0.75%Q) ].

Section WithEnv.
Context {env : Env}.

(** Line [i] of one of [files] is [line], and it is not blank. *)
Definition nonblank_line (files : list pystr) (file : pystr) (i : nat)
    (line : pystr) : Prop :=
  In file files /\
  exists lines, read_lines file = Ok lines /\
                nth_error lines i = Some line /\ strip line <> [].

(** ** Effects *)

(** The statements sent to the database so far. *)
Definition sql_run (trace : list event) : list (pystr * pystr) :=
  flat_map (fun ev => match ev with
                      | Executed url sql => [(url, sql)]
                      | _ => []
                      end) trace.

(** [c] never changes the observation [f] of the world. *)
Definition preserves {X A} (f : World -> X) (c : M A) : Prop :=
  forall w, f (snd (c w)) = f w.

(** ** Execution *)

(** Some pair of corresponding rows is different. *)
Definition rows_differ (gen_result gt_result : list Row) : Prop :=
  exists i a b, nth_error gen_result i = Some a /\
                nth_error gt_result i = Some b /\
                row_eqb a b = false.

(** How far the two statements got: the generated SQL ran with outcome
    [rg]; when it succeeded, the reference SQL ran with outcome [rt]. *)
Inductive executed (url gen gt : pystr) (w : World)
  : outcome (list Row) -> option (outcome (list Row)) -> Prop :=
| generated_failed e d1 d2 :
    create_engine url = Ok tt ->
    engine_connect url (w_db w) = (Ok tt, d1) ->
    conn_execute url gen d1 = (Raise e, d2) ->
    executed url gen gt w (Raise e) None
| both_ran g rt d1 d2 d3 d4 :
    create_engine url = Ok tt ->
    engine_connect url (w_db w) = (Ok tt, d1) ->
    conn_execute url gen d1 = (Ok g, d2) ->
    engine_connect url d2 = (Ok tt, d3) ->
    conn_execute url gt d3 = (rt, d4) ->
    executed url gen gt w (Ok g) (Some rt).

End WithEnv.

End Spec.

From Stdlib Require Import Qround DecimalNat.

(* ================================================================== *)
(** * Text2SQLRAGSystem.py: the embedding function *)
(* ================================================================== *)

Module EmbeddingFunction.

(** [math.sqrt] *)
Class Math : Type := {
  sqrt : Q -> Q
}.

(** A list comprehension whose element expression may raise: the first
    exception ends it. *)
Fixpoint traverse {A B} (f : A -> outcome B) (xs : list A) : outcome (list B) :=
  match xs with
  | [] => Ok []
  | x :: rest =>
      match f x with
      | Raise e => Raise e
      | Ok y =>
          match traverse f rest with
          | Raise e => Raise e
          | Ok ys => Ok (y :: ys)
          end
      end
  end.

(** ** [_simple_embedding] *)

(** [word_count[word] += 1] on a [defaultdict(int)]; a dictionary keeps
    its keys in the order in which they were first inserted. *)
Fixpoint increment (word : pystr) (word_count : list (pystr * nat))
  : list (pystr * nat) :=
  match word_count with
  | [] => [(word, 1)]
  | (k, n) :: rest =>
      if eqb k word then (k, n + 1) :: rest
      else (k, n) :: increment word rest
  end.

(** [for word in words: word_count[word] += 1] *)
Definition count_words (words : list pystr) : list (pystr * nat) :=
  fold_left (fun word_count word => increment word word_count) words [].

Definition DIMENSION : nat := 512.

Section Simple.
Context {U : Unicode} {math : Math}.

(** The body of the loop over [texts]. *)
Definition embed_text (text : pystr) : outcome (list Q) :=
  let words := Spec.words (lower text) in
  let word_count := count_words words in
  match word_count with
  | [] => Ok (repeat 0%Q DIMENSION)
  | _ =>
      let vector := map (fun kv => inject_Z (Z.of_nat (snd kv))) word_count in
      let norm := sqrt (sum (map (fun x => (x * x)%Q) vector)) in
      match traverse (fun x => truediv x norm) vector with
      | Raise e => Raise e
      | Ok normalized_vector =>
          if length normalized_vector <? DIMENSION then
            Ok (normalized_vector
                  ++ repeat 0%Q (DIMENSION - length normalized_vector))
          else Ok (firstn DIMENSION normalized_vector)
      end
  end.

Definition _simple_embedding (texts : list pystr) : outcome (list (list Q)) :=
  traverse embed_text texts.

End Simple.

(** ** [_get_embedding_function] *)

(** What [self.embedding_function] can hold: the langchain object, whose
    methods [embed_documents] and [embed_query] are those of [Env], or
    the bound method [self._simple_embedding]. *)
Inductive embedding_function : Type :=
| HuggingFaceEmbeddings
| simple_embedding_method.

(** [load] is the outcome of the import and of the constructor call
    inside the [try]; the bare [except] catches whatever they raise. *)
Definition _get_embedding_function (load : outcome unit) : embedding_function :=
  match load with
  | Ok _ => HuggingFaceEmbeddings
  | Raise _ => simple_embedding_method
  end.

(** The [AttributeError] of an attribute looked up on a bound method,
    which hands the lookup to its function. *)
Definition no_attribute (name : pystr) : exn :=
  Exception (py "'function' object has no attribute '" ++ name ++ py "'").

(** The services as the object sees them once [__init__] has stored
    [f] in [self.embedding_function]: [train_rag_model] calls
    [self.embedding_function.embed_documents], [retrieve_context] calls
    [self.embedding_function.embed_query]. *)
Definition with_embedding_function (f : embedding_function) (env : Env) : Env :=
  {| Embedding := @Embedding env;
     Collection := @Collection env;
     DbState := @DbState env;
     Row := @Row env;
     row_eqb := @row_eqb env;
     read_lines := @read_lines env;
     embed_documents := fun docs =>
       match f with
       | HuggingFaceEmbeddings => @embed_documents env docs
       | simple_embedding_method => Raise (no_attribute (py "embed_documents"))
       end;
     embed_query := fun question =>
       match f with
       | HuggingFaceEmbeddings => @embed_query env question
       | simple_embedding_method => Raise (no_attribute (py "embed_query"))
       end;
     collection_add := @collection_add env;
     collection_query := @collection_query env;
     import_ollama := @import_ollama env;
     ollama_generate := @ollama_generate env;
     create_engine := @create_engine env;
     engine_connect := @engine_connect env;
     conn_execute := @conn_execute env;
     findall_from := @findall_from env;
     findall_select := @findall_select env;
     findall_where := @findall_where env;
     import_sklearn := @import_sklearn env;
     tfidf_cosine := @tfidf_cosine env;
     import_ragas := @import_ragas env;
     import_datasets := @import_datasets env;
     dataset_from_dict := @dataset_from_dict env;
     ragas_evaluate := @ragas_evaluate env;
     text_generation := @text_generation env |}.

End EmbeddingFunction.

(* ================================================================== *)
(** * Text2SQLEvaluator.py: [comprehensive_evaluation] *)
(* ================================================================== *)

Module Comprehensive.
Import RAG Evaluator.

(** [total_metrics]: one list per score. *)
Record TotalMetrics : Type := mkTotals {
  t_syntax_accuracy : list Q;
  t_execution_accuracy : list Q;
  t_exact_match : list Q;
  t_semantic_similarity : list Q;
  t_retrieval_quality : list Q
}.

Record AverageMetrics : Type := mkAverages {
  avg_syntax_accuracy : Q;
  avg_execution_accuracy : Q;
  avg_exact_match : Q;
  avg_semantic_similarity : Q;
  avg_retrieval_quality : Q
}.

Record EvaluationReport : Type := mkReport {
  total_cases : nat;
  results : list EvaluationRecord;
  average_metrics : AverageMetrics;
  model_used : pystr
}.

(** The evaluator object: [self.metrics_history] is the only attribute
    the method changes. *)
Record Text2SQLEvaluator : Type := mkEvaluator {
  rag_system : Text2SQLRAGSystem;
  metrics_history : list EvaluationReport
}.

(** [sum(values)/len(values) if values else 0.0] *)
Definition average (values : list Q) : outcome Q :=
  match values with
  | [] => Ok 0%Q
  | _ => truediv (sum values) (len values)
  end.

Section Comprehensive.
Context {U : Unicode} {env : Env}.

(** The loop over [enumerate(test_dataset)]; every record returned by
    [evaluate_single_example] has the five keys of [total_metrics], so
    each of the five lists grows by one entry. *)
Fixpoint evaluation_loop (self : Text2SQLEvaluator) (test_dataset : list TestCase)
    (db_connection : option pystr) (i : nat) (cases : list TestCase)
    (results : list EvaluationRecord) (total_metrics : TotalMetrics)
  : M (list EvaluationRecord * TotalMetrics) :=
  match cases with
  | [] => ret (results, total_metrics)
  | test_case :: rest =>
      print (py "处理测试用例 " ++ str_of_nat (i + 1) ++ py "/"
             ++ str_of_nat (length test_dataset)) ;;;
      metrics <- evaluate_single_example (rag_system self)
                   (tc_question test_case) (tc_sql test_case) db_connection ;;
      evaluation_loop self test_dataset db_connection (S i) rest
        (results ++ [metrics])
        (mkTotals
           (t_syntax_accuracy total_metrics ++ [syntax_accuracy metrics])
           (t_execution_accuracy total_metrics ++ [execution_accuracy metrics])
           (t_exact_match total_metrics ++ [exact_match metrics])
           (t_semantic_similarity total_metrics ++ [semantic_similarity metrics])
           (t_retrieval_quality total_metrics ++ [retrieval_quality metrics]))
  end.

(** The method returns the report; the evaluator it leaves behind is
    returned with it.  The history is appended to as the last step, so
    when the method raises the evaluator is the one it was called on. *)
Definition comprehensive_evaluation (self : Text2SQLEvaluator)
    (test_dataset : list TestCase) (db_connection : option pystr)
  : M (EvaluationReport * Text2SQLEvaluator) :=
  '(results, total_metrics) <-
     evaluation_loop self test_dataset db_connection 0 test_dataset []
       (mkTotals [] [] [] [] []) ;;
  a1 <- lift (average (t_syntax_accuracy total_metrics)) ;;
  a2 <- lift (average (t_execution_accuracy total_metrics)) ;;
  a3 <- lift (average (t_exact_match total_metrics)) ;;
  a4 <- lift (average (t_semantic_similarity total_metrics)) ;;
  a5 <- lift (average (t_retrieval_quality total_metrics)) ;;
  let avg_metrics := mkAverages a1 a2 a3 a4 a5 in
  let evaluation_report :=
    mkReport (length test_dataset) results avg_metrics
             (model_name (rag_system self)) in
  ret (evaluation_report,
       mkEvaluator (rag_system self)
                   (metrics_history self ++ [evaluation_report])).

End Comprehensive.
End Comprehensive.

(* ================================================================== *)
(** * Further scenarios and observations *)
(* ================================================================== *)

Module Scenarios.
Import Concrete EmbeddingFunction.

(** A coarse square root, exact on perfect squares. *)
Definition stub_math : Math :=
  {| sqrt := fun x => inject_Z (Z.sqrt (Qceiling x)) |}.

(** The generation endpoint is down. *)
Definition offline_env : Env :=
  stub_env near (Raise (Exception (py "connection refused"))).

Definition offline_world : @World offline_env := @mkWorld offline_env [] tt [].

(** The langchain import has failed. *)
Definition fallback_env : Env :=
  with_embedding_function
    (_get_embedding_function (Raise (Exception (py "No module named 'langchain'"))))
    demo_env.

Definition fallback_world : @World fallback_env := @mkWorld fallback_env [] tt [].

(** Every file has 150 lines, the store accepts one batch only, and the
    judge model answers that the two statements are not equivalent. *)
Definition full_env : Env :=
  {| Embedding := unit;
     Collection := list (AddArgs unit);
     DbState := unit;
     Row := list N;
     row_eqb := fun a b => if list_eq_dec N.eq_dec a b then true else false;
     read_lines := fun _ => Ok (repeat (py "CREATE TABLE t(a INT)" ++ [NL]) 150);
     embed_documents := fun docs => Ok (map (fun _ => tt) docs);
     embed_query := fun _ => Ok tt;
     collection_add := fun c args =>
       match c with
       | [] => Ok [args]
       | _ => Raise (Exception (py "database or disk is full"))
       end;
     collection_query := fun _ _ _ => Ok near;
     import_ollama := Ok tt;
     ollama_generate := fun _ _ => Ok fenced_reply;
     create_engine := fun _ => Ok tt;
     engine_connect := fun _ d => (Ok tt, d);
     conn_execute := fun _ sql d => (stub_rows sql, d);
     findall_from := fun _ => [];
     findall_select := fun _ => [];
     findall_where := fun _ => [];
     import_sklearn := Ok tt;
     tfidf_cosine := fun a b => Ok (if eqb a b then 1%Q else 0%Q);
     import_ragas := Raise (Exception (py "No module named 'ragas'"));
     import_datasets := Ok tt;
     dataset_from_dict := fun d => Ok d;
     ragas_evaluate := fun _ => Raise (Exception (py "no LLM configured"));
     text_generation := fun prompt => Ok (prompt ++ py " 不等价") |}.

Definition full_world : @World full_env := @mkWorld full_env [] tt [].

End Scenarios.

Module Observations.

(** ** What the interpreter's tables are assumed to do *)

(** The square root of a positive number is positive. *)
Definition sqrt_positive_law (math : EmbeddingFunction.Math) : Prop :=
  forall x, (0 < x)%Q -> (0 < EmbeddingFunction.sqrt x)%Q.

Section WithEnv.
Context {env : Env}.

(** The lines printed so far. *)
Definition printed (trace : list event) : list pystr :=
  flat_map (fun ev => match ev with
                      | Printed line => [line]
                      | _ => []
                      end) trace.

(** The batches written to the vector store so far. *)
Definition added (trace : list event) : list (AddArgs Embedding) :=
  flat_map (fun ev => match ev with
                      | Added args => [args]
                      | _ => []
                      end) trace.

End WithEnv.

Section Steps.
Context {U : Unicode} {env : Env}.

(** The second step of [evaluate_single_example]: the execution score,
    which is computed only with a connection string and a positive
    syntax score. *)
Definition execution_step (generated ground_truth_sql : pystr)
    (db_connection : option pystr) : M Q :=
  match db_connection with
  | Some url =>
      if Evaluator.truthy db_connection
         && negb (Qle_bool (Evaluator._evaluate_syntax generated) 0)
      then Evaluator._evaluate_execution_accuracy generated ground_truth_sql url
      else ret 0%Q
  | None => ret 0%Q
  end.

End Steps.

(** The five lists of [total_metrics] once the scores of [results]
    have been appended to them. *)
Definition totals_of (results : list Evaluator.EvaluationRecord)
  : Comprehensive.TotalMetrics :=
  Comprehensive.mkTotals
    (map Evaluator.syntax_accuracy results)
    (map Evaluator.execution_accuracy results)
    (map Evaluator.exact_match results)
    (map Evaluator.semantic_similarity results)
    (map Evaluator.retrieval_quality results).

(** [a] is what [sum(values)/len(values) if values else 0.0] gives. *)
Definition is_average (a : Q) (values : list Q) : Prop :=
  (values = [] -> a = 0%Q) /\ (values <> [] -> (a == Spec.mean values)%Q).

(** The number of results the judge has found valid. *)
Definition count_valid {A} (results : list (A * Lightweight.CaseResult)) : nat :=
  length (filter (fun r => Lightweight.is_valid (snd r)) results).

(** The reference statement of a batch case, as
    [case.get("reference_sql", "")] reads it. *)
Definition reference_of (case : Lightweight.BatchCase) : pystr :=
  match Lightweight.bc_reference_sql case with
  | Some r => r
  | None => []
  end.

End Observations.

Import Spec Concrete RAG Evaluator.

(* ================================================================== *)
(** * Lemmas and theorems *)
(* ================================================================== *)

(** * Lemmas about searching *)

Lemma startswith_spec (p s : pystr) :
  startswith p s = true <-> exists post, s = p ++ post.
Proof.
  revert s; induction p as [|a p IH]; intros s; simpl.
  - split; [intros _; now exists s | reflexivity].
  - destruct s as [|b s].
    + split; [discriminate | intros [post H]; discriminate].
    + rewrite andb_true_iff, N.eqb_eq, IH. split.
      * intros [-> [post ->]]. now exists post.
      * intros [post H]. injection H as -> ->. split; [reflexivity | now exists post].
Qed.

Lemma occurs_at_0 (p s : pystr) : occurs_at p s 0 <-> startswith p s = true.
Proof.
  rewrite startswith_spec. split.
  - intros (pre & post & -> & Hl). destruct pre; [|discriminate]. now exists post.
  - intros [post ->]. now exists [], post.
Qed.

Lemma occurs_at_S (p : pystr) c (s : pystr) i :
  occurs_at p (c :: s) (S i) <-> occurs_at p s i.
Proof.
  split.
  - intros (pre & post & H & Hl). destruct pre as [|x pre]; [discriminate|].
    simpl in H, Hl. injection H as -> ->. injection Hl as <-. now exists pre, post.
  - intros (pre & post & -> & <-). now exists (c :: pre), post.
Qed.

Lemma occurs_at_nil (p : pystr) i : occurs_at p [] i -> i = 0.
Proof.
  intros (pre & post & H & <-). destruct pre; [reflexivity | discriminate].
Qed.

Lemma contains_spec (p s : pystr) : contains p s = true <-> occurs p s.
Proof.
  induction s as [|c s IH].
  - simpl. rewrite orb_false_r, <- occurs_at_0. split.
    + intros H. now exists 0.
    + intros [i H]. now rewrite (occurs_at_nil H) in H.
  - simpl. rewrite orb_true_iff, IH, <- occurs_at_0. split.
    + intros [H | [i H]]; [now exists 0 | exists (S i); now apply occurs_at_S].
    + intros [[|i] H]; [now left | right; exists i; now apply occurs_at_S in H].
Qed.

Lemma find_spec (p s : pystr) :
  (find p s = (-1)%Z /\ ~ occurs p s) \/
  (exists i, find p s = Z.of_nat i /\ first_at p s i).
Proof.
  induction s as [|c s IH]; simpl.
  - destruct (startswith p []) eqn:E.
    + right. exists 0. split; [reflexivity|]. split; [now apply occurs_at_0 | lia].
    + left. split; [reflexivity|]. intros [i H]. pose proof (occurs_at_nil H) as ->.
      apply occurs_at_0 in H. congruence.
  - destruct (startswith p (c :: s)) eqn:E.
    + right. exists 0. split; [reflexivity|]. split; [now apply occurs_at_0 | lia].
    + destruct IH as [[Hf Hn] | (i & Hf & Ho & Hmin)].
      * left. rewrite Hf. split; [reflexivity|]. intros [[|i] H].
        -- apply occurs_at_0 in H. congruence.
        -- apply occurs_at_S in H. apply Hn. now exists i.
      * right. exists (S i). rewrite Hf.
        destruct (Z.ltb_spec (Z.of_nat i) 0); [lia|].
        split; [lia|]. split; [now apply occurs_at_S|].
        intros [|j] Hj.
        -- apply occurs_at_0 in Hj. congruence.
        -- apply occurs_at_S in Hj. apply Hmin in Hj. lia.
Qed.

Lemma first_at_unique (p s : pystr) i j : first_at p s i -> first_at p s j -> i = j.
Proof.
  intros [Hi Hmi] [Hj Hmj]. apply Hmi in Hj. apply Hmj in Hi. lia.
Qed.

Lemma find_first_at (p s : pystr) i : first_at p s i -> find p s = Z.of_nat i.
Proof.
  intros H. destruct (find_spec p s) as [[_ Hn] | (j & Hf & Hj)].
  - exfalso. apply Hn. exists i. apply H.
  - now rewrite (first_at_unique H Hj).
Qed.

Lemma occurs_first_at (p s : pystr) : occurs p s -> exists i, first_at p s i.
Proof.
  intros H. destruct (find_spec p s) as [[_ Hn] | (j & _ & Hj)]; [contradiction|].
  now exists j.
Qed.

(** * Whitespace-only strings *)

Lemma rstrip_nil (s : pystr) : rstrip s = [] -> all_space s.
Proof.
  induction s as [|c s IH]; simpl; [constructor|].
  destruct (rstrip s) eqn:E; [|discriminate].
  destruct (isspace c) eqn:Ec; [|discriminate].
  intros _. constructor; [assumption | now apply IH].
Qed.

Lemma lstrip_cases (s : pystr) :
  lstrip s = [] \/ exists c t, lstrip s = c :: t /\ isspace c = false.
Proof.
  induction s as [|c s IH]; simpl; [now left|].
  destruct (isspace c) eqn:Ec; [exact IH|]. right. now exists c, s.
Qed.

Lemma lstrip_nil (s : pystr) : lstrip s = [] -> all_space s.
Proof.
  induction s as [|c s IH]; simpl; [constructor|].
  destruct (isspace c) eqn:Ec; [|discriminate]. intros H.
  constructor; [assumption | now apply IH].
Qed.

Lemma strip_nil (s : pystr) : strip s = [] -> all_space s.
Proof.
  unfold strip. intros H. apply rstrip_nil in H.
  destruct (lstrip_cases s) as [E | (c & t & E & Ec)].
  - now apply lstrip_nil.
  - rewrite E in H. inversion H; congruence.
Qed.

Lemma eqb_true (a b : pystr) : eqb a b = true <-> a = b.
Proof. unfold eqb. destruct (pystr_eq_dec a b); split; congruence. Qed.

Lemma eqb_false (a b : pystr) : eqb a b = false <-> a <> b.
Proof. unfold eqb. destruct (pystr_eq_dec a b); split; congruence. Qed.

Section UpperFacts.
Context {U : Unicode}.

Lemma upper_all_space (s : pystr) :
  upper_space_law U -> all_space s -> upper s = s.
Proof.
  intros HU H. induction H as [|c s Hc _ IH]; [reflexivity|].
  unfold upper in *. simpl. rewrite (HU c Hc), IH. reflexivity.
Qed.

Lemma upper_ascii (s : pystr) :
  upper_ascii_law U -> Forall (fun c => (c < 128)%N) s -> upper s = map ascii_upper s.
Proof.
  intros HU H. induction H as [|c s Hc _ IH]; [reflexivity|].
  unfold upper in *. simpl. rewrite (HU c Hc), IH. reflexivity.
Qed.

Lemma upper_ascii_b (s : pystr) :
  upper_ascii_law U -> forallb (fun c => (c <? 128)%N) s = true ->
  upper s = map ascii_upper s.
Proof.
  intros HU H. apply upper_ascii; [assumption|].
  apply Forall_forall. intros c Hc. rewrite forallb_forall in H.
  apply N.ltb_lt. auto.
Qed.

End UpperFacts.

Lemma all_space_no_select (s : pystr) : all_space s -> ~ occurs SELECT s.
Proof.
  intros H [i (pre & post & -> & _)].
  apply Forall_app in H as [_ H]. apply Forall_app in H as [H _].
  inversion H as [|c t Hc _]. subst. vm_compute in Hc. discriminate.
Qed.

Ltac ascii_upper_eval HU :=
  rewrite (upper_ascii_b _ HU) by (vm_compute; reflexivity); vm_compute; reflexivity.

(** One equivalence of the case analysis: either the score is not the
    one asked about, or both sides hold. *)
Ltac syntax_case :=
  split; intros ?H;
  [ first [discriminate | tauto] | first [reflexivity | exfalso; tauto] ].
Ltac syntax_cases :=
  split; [syntax_case | split; [syntax_case | split; syntax_case]].

Section C1.
Context {U : Unicode}.

(** C1: the syntax scorer returns one of 0.0, 0.3, 0.5 and 1.0, chosen in
    a fixed order of checks on the upper-cased text: 0.0 when the string is
    empty or SELECT and FROM are not both present, otherwise 0.5 when the
    numbers of opening and closing parentheses differ, otherwise 0.3 when
    the first SELECT comes after the first FROM, otherwise 1.0; the four
    sample inputs score 1.0, 0.0, 0.5 and 0.3. *)
Theorem C1_evaluate_syntax_priority
    (Hascii : upper_ascii_law U) (Hspace : upper_space_law U) :
  (forall sql,
     let u := upper sql in
     In (_evaluate_syntax sql) [0; 3 # 10; 1 # 2; 1]%Q /\
     (_evaluate_syntax sql = 0%Q <-> sql = [] \/ ~ has_select_from u) /\
     (_evaluate_syntax sql = (1 # 2)%Q <-> has_select_from u /\ ~ balanced u) /\
     (_evaluate_syntax sql = (3 # 10)%Q <->
        has_select_from u /\ balanced u /\ select_after_from u) /\
     (_evaluate_syntax sql = 1%Q <->
        has_select_from u /\ balanced u /\ ~ select_after_from u)) /\
  _evaluate_syntax (py "SELECT a FROM t") = 1%Q /\
  _evaluate_syntax (py "") = 0%Q /\
  _evaluate_syntax (py "SELECT a FROM t WHERE (x=1") = (1 # 2)%Q /\
  _evaluate_syntax (py "FROM t SELECT a") = (3 # 10)%Q.
Proof.
  split.
  - intros sql u. unfold _evaluate_syntax. fold u.
    destruct (eqb sql [] || eqb (strip sql) []) eqn:Eblank.
    + (* empty or blank: no SELECT can be present *)
      assert (Hno : ~ has_select_from u).
      { intros [Hs _]. apply orb_true_iff in Eblank as [E | E]; apply eqb_true in E.
        - subst sql. destruct Hs as [i Hi]. pose proof (occurs_at_nil Hi); subst.
          apply occurs_at_0 in Hi. discriminate.
        - apply strip_nil in E. unfold u in Hs.
          rewrite (upper_all_space Hspace E) in Hs.
          now apply all_space_no_select in Hs. }
      split; [left; reflexivity | syntax_cases].
    + apply orb_false_iff in Eblank as [Ene _]. apply eqb_false in Ene.
      destruct (contains SELECT u && contains FROM u) eqn:Eboth; simpl negb; cbv iota.
      * apply andb_true_iff in Eboth as [Hs Hf].
        apply contains_spec in Hs, Hf.
        assert (Hboth : has_select_from u) by (split; assumption).
        destruct (count LPAREN u =? count RPAREN u) eqn:Epar; simpl negb; cbv iota.
        -- apply Nat.eqb_eq in Epar. change (balanced u) in Epar.
           destruct (occurs_first_at Hs) as [i Hi].
           destruct (occurs_first_at Hf) as [j Hj].
           rewrite (find_first_at Hi), (find_first_at Hj).
           destruct (Z.gtb_spec (Z.of_nat i) (Z.of_nat j)) as [Hgt | Hle].
           ++ assert (Hafter : select_after_from u).
              { exists i, j. repeat split; try apply Hi; try apply Hj; lia. }
              split; [right; left; reflexivity | syntax_cases].
           ++ assert (Hafter : ~ select_after_from u).
              { intros (i' & j' & Hi' & Hj' & Hlt).
                rewrite (first_at_unique Hi Hi'), (first_at_unique Hj Hj') in Hle. lia. }
              split; [do 3 right; left; reflexivity | syntax_cases].
        -- apply Nat.eqb_neq in Epar. change (~ balanced u) in Epar.
           split; [do 2 right; left; reflexivity | syntax_cases].
      * assert (Hno : ~ has_select_from u).
        { intros [Hs Hf]. apply contains_spec in Hs, Hf.
          rewrite Hs, Hf in Eboth. discriminate. }
        split; [left; reflexivity | syntax_cases].
  - unfold _evaluate_syntax.
    split; [ascii_upper_eval Hascii|].
    split; [reflexivity|].
    split; ascii_upper_eval Hascii.
Qed.
End C1.

(** * Substitution *)

Lemma re_sub_from_skip (m : matcher) (r : pystr) k (s : pystr) :
  re_sub_from m r k s = re_sub m r (skipn k s).
Proof.
  revert k; induction s as [|c s IH]; intros [|k]; try reflexivity.
  simpl. rewrite IH. reflexivity.
Qed.

Lemma re_sub_nil (m : matcher) (r : pystr) : re_sub m r [] = [].
Proof. reflexivity. Qed.

Lemma re_sub_miss (m : matcher) (r : pystr) c (s : pystr) :
  m (c :: s) = None -> re_sub m r (c :: s) = c :: re_sub m r s.
Proof. unfold re_sub. simpl. now intros ->. Qed.

Lemma re_sub_hit (m : matcher) (r : pystr) c (s : pystr) k :
  m (c :: s) = Some (S k) -> re_sub m r (c :: s) = r ++ re_sub m r (skipn k s).
Proof.
  unfold re_sub. simpl. intros ->. now rewrite re_sub_from_skip.
Qed.

(** A pattern that matches nowhere leaves the text alone. *)
Lemma re_sub_id (m : matcher) (r : pystr) (s : pystr) :
  (forall k, m (skipn k s) = None) -> re_sub m r s = s.
Proof.
  induction s as [|c s IH]; intros H; [reflexivity|].
  rewrite re_sub_miss by apply (H 0).
  f_equal. apply IH. intros k. apply (H (S k)).
Qed.

(** * Whitespace runs *)

Lemma skipn_span_space (s : pystr) : skipn (span_space s) s = lstrip s.
Proof.
  induction s as [|c s IH]; [reflexivity|]. simpl.
  destruct (isspace c); [exact IH | reflexivity].
Qed.

Lemma lstrip_length (s : pystr) : length (lstrip s) <= length s.
Proof.
  induction s as [|c s IH]; simpl; [lia|]. destruct (isspace c); simpl; lia.
Qed.

(** Induction over a text, one whitespace run or one other character at
    a time. *)
Lemma ws_ind (P : pystr -> Prop) :
  P [] ->
  (forall c t, isspace c = false -> P t -> P (c :: t)) ->
  (forall c t, isspace c = true -> P (lstrip t) -> P (c :: t)) ->
  forall s, P s.
Proof.
  intros Hnil Hns Hsp s.
  assert (H : forall n s, length s <= n -> P s).
  { induction n as [|n IH]; intros [|c t] Hl; simpl in Hl; try assumption; try lia.
    destruct (isspace c) eqn:Ec.
    - apply Hsp; [assumption|]. apply IH. pose proof (lstrip_length t). lia.
    - apply Hns; [assumption|]. apply IH. lia. }
  apply (H (length s)). lia.
Qed.

Lemma collapse_space c (t : pystr) :
  isspace c = true -> collapse (c :: t) = SPACE :: collapse (lstrip t).
Proof.
  intros Hc. unfold collapse.
  rewrite (@re_sub_hit re_spaces [SPACE] c t (span_space t)).
  - now rewrite skipn_span_space.
  - unfold re_spaces. simpl. now rewrite Hc.
Qed.

Lemma collapse_nonspace c (t : pystr) :
  isspace c = false -> collapse (c :: t) = c :: collapse t.
Proof.
  intros Hc. apply re_sub_miss. unfold re_spaces. simpl. now rewrite Hc.
Qed.

Lemma isspace_SPACE : isspace SPACE = true.
Proof. reflexivity. Qed.

Lemma lstrip_idem (s : pystr) : lstrip (lstrip s) = lstrip s.
Proof.
  induction s as [|c s IH]; [reflexivity|]. simpl.
  destruct (isspace c) eqn:Ec; [exact IH|]. simpl. now rewrite Ec.
Qed.

Lemma lstrip_head (s : pystr) c t : lstrip s = c :: t -> isspace c = false.
Proof.
  destruct (lstrip_cases s) as [E | (c' & t' & E & Ec)]; rewrite E; [discriminate|].
  now intros [= <- <-].
Qed.

Lemma starts_nonspace_lstrip (s : pystr) : starts_nonspace (lstrip s) = true.
Proof.
  destruct (lstrip_cases s) as [E | (c & t & E & Ec)]; rewrite E; simpl; [reflexivity|].
  now rewrite Ec.
Qed.

Lemma starts_nonspace_lstrip_id (s : pystr) : starts_nonspace s = true -> lstrip s = s.
Proof.
  destruct s as [|c s]; simpl; [reflexivity|]. now destruct (isspace c).
Qed.

Lemma starts_nonspace_collapse (s : pystr) :
  starts_nonspace s = true -> starts_nonspace (collapse s) = true.
Proof.
  destruct s as [|c s]; simpl; [reflexivity|].
  intros H. apply negb_true_iff in H. rewrite collapse_nonspace by exact H. simpl.
  now rewrite H.
Qed.

Lemma squeezed_collapse (s : pystr) : squeezed (collapse s) = true.
Proof.
  induction s as [| c t Hc IH | c t Hc IH] using ws_ind.
  - reflexivity.
  - rewrite collapse_nonspace by exact Hc. simpl. now rewrite Hc, IH.
  - rewrite collapse_space by exact Hc. simpl. rewrite IH.
    rewrite starts_nonspace_collapse by apply starts_nonspace_lstrip.
    reflexivity.
Qed.

Lemma squeezed_collapse_id (s : pystr) : squeezed s = true -> collapse s = s.
Proof.
  induction s as [|c t IH]; [reflexivity|]. simpl.
  intros H. apply andb_true_iff in H as [Hc Ht].
  destruct (isspace c) eqn:Ec; simpl in Hc.
  - apply andb_true_iff in Hc as [Hsp Hst]. apply N.eqb_eq in Hsp. subst c.
    rewrite collapse_space by exact Ec. rewrite starts_nonspace_lstrip_id by exact Hst. rewrite (IH Ht).
    reflexivity.
  - rewrite collapse_nonspace by exact Ec. rewrite (IH Ht). reflexivity.
Qed.

Lemma squeezed_lstrip (s : pystr) : squeezed s = true -> squeezed (lstrip s) = true.
Proof.
  induction s as [|c t IH]; [reflexivity|]. simpl.
  intros H. destruct (isspace c) eqn:Ec.
  - apply andb_true_iff in H as [_ Ht]. auto.
  - simpl. now rewrite Ec.
Qed.

Lemma rstrip_cons c (t : pystr) :
  rstrip (c :: t) = match rstrip t with
                    | [] => if isspace c then [] else [c]
                    | r => c :: r
                    end.
Proof. reflexivity. Qed.

Lemma starts_nonspace_rstrip (s : pystr) :
  starts_nonspace s = true -> starts_nonspace (rstrip s) = true.
Proof.
  destruct s as [|c t]; [reflexivity|]. simpl starts_nonspace at 1. intros H.
  rewrite rstrip_cons. apply negb_true_iff in H. rewrite H.
  destruct (rstrip t); simpl; now rewrite H.
Qed.

Lemma squeezed_rstrip (s : pystr) : squeezed s = true -> squeezed (rstrip s) = true.
Proof.
  induction s as [|c t IH]; [reflexivity|]. simpl squeezed at 1.
  intros H. apply andb_true_iff in H as [Hc Ht].
  rewrite rstrip_cons. specialize (IH Ht).
  destruct (rstrip t) as [|d r] eqn:Er.
  - destruct (isspace c) eqn:Ec; [reflexivity|]. simpl. now rewrite Ec.
  - change (squeezed (c :: d :: r)) with
      ((negb (isspace c) || ((c =? SPACE)%N && starts_nonspace (d :: r)))
       && squeezed (d :: r)).
    rewrite IH, andb_true_r.
    destruct (isspace c) eqn:Ec; [|reflexivity]. simpl in Hc |- *.
    apply andb_true_iff in Hc as [Hsp Hst]. rewrite Hsp. simpl.
    pose proof (@starts_nonspace_rstrip t Hst) as H. now rewrite Er in H.
Qed.

Lemma squeezed_strip (s : pystr) : squeezed s = true -> squeezed (strip s) = true.
Proof. intros H. unfold strip. now apply squeezed_rstrip, squeezed_lstrip. Qed.

(** * Stripping *)

Lemma rstrip_nonspace c (t : pystr) :
  isspace c = false -> rstrip (c :: t) = c :: rstrip t.
Proof. intros H. rewrite rstrip_cons, H. now destruct (rstrip t). Qed.

Lemma rstrip_space c (t : pystr) :
  isspace c = true ->
  rstrip (c :: t) = match rstrip t with [] => [] | r => c :: r end.
Proof. intros H. now rewrite rstrip_cons, H. Qed.

Lemma rstrip_idem (s : pystr) : rstrip (rstrip s) = rstrip s.
Proof.
  induction s as [|c t IH]; [reflexivity|].
  rewrite rstrip_cons. destruct (rstrip t) as [|d r] eqn:Er.
  - destruct (isspace c) eqn:Ec; [reflexivity|]. simpl. now rewrite Ec.
  - rewrite rstrip_cons, IH. reflexivity.
Qed.

Lemma lstrip_rstrip (s : pystr) : lstrip (rstrip s) = rstrip (lstrip s).
Proof.
  induction s as [|c t IH]; [reflexivity|].
  destruct (isspace c) eqn:Ec.
  - rewrite rstrip_space by exact Ec. simpl lstrip at 2. rewrite Ec, <- IH.
    destruct (rstrip t); [reflexivity|]. simpl. now rewrite Ec.
  - rewrite rstrip_nonspace by exact Ec. simpl. rewrite Ec.
    now rewrite rstrip_nonspace by exact Ec.
Qed.

Lemma strip_idem (s : pystr) : strip (strip s) = strip s.
Proof.
  unfold strip. now rewrite lstrip_rstrip, lstrip_idem, rstrip_idem.
Qed.

Lemma nospace_lstrip (s : pystr) : nospace s = true -> lstrip s = s.
Proof.
  destruct s as [|c t]; [reflexivity|]. simpl. intros H.
  apply andb_true_iff in H as [H _]. apply negb_true_iff in H. now rewrite H.
Qed.

Lemma nospace_rstrip (s : pystr) : nospace s = true -> rstrip s = s.
Proof.
  induction s as [|c t IH]; [reflexivity|]. simpl nospace. intros H.
  apply andb_true_iff in H as [Hc Ht]. apply negb_true_iff in Hc.
  rewrite rstrip_nonspace by exact Hc. now rewrite IH.
Qed.

Lemma nospace_strip (s : pystr) : nospace s = true -> strip s = s.
Proof.
  intros H. unfold strip. rewrite nospace_lstrip by exact H. now apply nospace_rstrip.
Qed.

Lemma nospace_app (a b : pystr) : nospace (a ++ b) = nospace a && nospace b.
Proof. apply forallb_app. Qed.

(** Stripping a text that starts with a word. *)
Lemma strip_word_app (w x : pystr) :
  w <> [] -> nospace w = true -> strip (w ++ x) = w ++ rstrip x.
Proof.
  intros Hne Hw. unfold strip.
  assert (Hl : lstrip (w ++ x) = w ++ x).
  { destruct w as [|c w]; [congruence|]. simpl in *.
    apply andb_true_iff in Hw as [Hc _]. apply negb_true_iff in Hc. now rewrite Hc. }
  rewrite Hl. clear Hl. induction w as [|c w IH]; [congruence|].
  simpl in Hw. apply andb_true_iff in Hw as [Hc Hw]. apply negb_true_iff in Hc.
  simpl app. rewrite rstrip_nonspace by exact Hc.
  destruct w as [|d w]; [reflexivity|].
  rewrite IH by (assumption || discriminate). reflexivity.
Qed.

Lemma collapse_nospace_app (w x : pystr) :
  nospace w = true -> collapse (w ++ x) = w ++ collapse x.
Proof.
  induction w as [|c w IH]; [reflexivity|]. simpl nospace. intros H.
  apply andb_true_iff in H as [Hc Hw]. apply negb_true_iff in Hc.
  simpl app. rewrite collapse_nonspace by exact Hc. now rewrite IH.
Qed.

Lemma lstrip_collapse (s : pystr) : lstrip (collapse s) = collapse (lstrip s).
Proof.
  destruct s as [|c t]; [reflexivity|]. destruct (isspace c) eqn:Ec.
  - rewrite collapse_space by exact Ec. simpl. rewrite Ec.
    apply starts_nonspace_lstrip_id, starts_nonspace_collapse, starts_nonspace_lstrip.
  - rewrite collapse_nonspace by exact Ec. simpl. rewrite Ec.
    now rewrite collapse_nonspace by exact Ec.
Qed.

(** * Words *)

Lemma words_from_are_words (s : pystr) : forall cur,
  nospace cur = true -> Forall is_word (words_from cur s).
Proof.
  induction s as [|c t IH]; intros cur Hcur; simpl.
  - destruct cur; constructor; [split; [discriminate | assumption] | constructor].
  - destruct (isspace c) eqn:Ec.
    + destruct cur.
      * now apply IH.
      * constructor; [split; [discriminate | assumption] | now apply IH].
    + apply IH. rewrite nospace_app, Hcur. simpl. now rewrite Ec.
Qed.


Lemma join_words_nil (ws : list pystr) :
  Forall is_word ws -> join [SPACE] ws = [] -> ws = [].
Proof.
  intros H. destruct H as [|w ws [Hne _] _]; [reflexivity|].
  destruct w; [congruence|]. destruct ws; discriminate.
Qed.

Lemma join_cons (sep w : pystr) (ws : list pystr) :
  join sep (w :: ws) = match ws with [] => w | _ => w ++ sep ++ join sep ws end.
Proof. reflexivity. Qed.

(** Collapsing the runs and stripping the ends leaves the words, joined
    by single spaces. *)
Lemma strip_collapse_words_from (s : pystr) : forall cur,
  nospace cur = true ->
  strip (collapse (cur ++ s)) = join [SPACE] (words_from cur s).
Proof.
  induction s as [|c t IH]; intros cur Hcur.
  - rewrite app_nil_r. rewrite squeezed_collapse_id.
    + rewrite nospace_strip by exact Hcur. simpl. now destruct cur.
    + clear -Hcur. induction cur as [|c cur IH]; [reflexivity|]. simpl in *.
      apply andb_true_iff in Hcur as [-> H]. now apply IH.
  - simpl words_from. destruct (isspace c) eqn:Ec.
    + assert (Ht : rstrip (collapse (lstrip t)) = join [SPACE] (words_from [] t)).
      { rewrite <- (IH [] eq_refl). simpl app. unfold strip.
        now rewrite lstrip_collapse. }
      destruct cur as [|d cur].
      * simpl app. rewrite collapse_space by exact Ec. unfold strip. simpl lstrip.
        rewrite starts_nonspace_lstrip_id
          by apply starts_nonspace_collapse, starts_nonspace_lstrip.
        exact Ht.
      * rewrite collapse_nospace_app by exact Hcur.
        rewrite collapse_space by exact Ec.
        rewrite strip_word_app by (assumption || discriminate).
        rewrite rstrip_space by reflexivity. rewrite Ht, join_cons.
        destruct (words_from [] t) as [|w ws] eqn:Ew; [now rewrite app_nil_r|].
        destruct (join [SPACE] (w :: ws)) eqn:Ej; [|reflexivity].
        apply join_words_nil in Ej; [discriminate|].
        rewrite <- Ew. now apply words_from_are_words.
    + replace (cur ++ c :: t) with ((cur ++ [c]) ++ t) by now rewrite <- app_assoc.
      apply IH. rewrite nospace_app, Hcur. simpl. now rewrite Ec.
Qed.

Lemma strip_collapse_words (s : pystr) :
  strip (collapse s) = join [SPACE] (words s).
Proof. now apply (strip_collapse_words_from s []). Qed.






(** * Code fences *)

Lemma startswith_cons a (p : pystr) b (s : pystr) :
  startswith (a :: p) (b :: s) = (a =? b)%N && startswith p s.
Proof. reflexivity. Qed.



Lemma no_fence_inside_cons c (t : pystr) :
  no_fence_inside (c :: t) =
  negb (startswith FENCE (c :: t ++ FENCE)) && no_fence_inside t.
Proof. reflexivity. Qed.



(** Text without any backtick is the simplest case. *)
Lemma no_backtick_no_fence (s : pystr) :
  no_backtick s = true ->
  starts_with_backtick s = false /\ no_fence_inside s = true.
Proof.
  intros H. split.
  - destruct s as [|c s]; [reflexivity|]. simpl in *.
    apply andb_true_iff in H as [H _]. now apply negb_true_iff in H.
  - induction s as [|c s IH]; [reflexivity|].
    simpl in H. apply andb_true_iff in H as [Hc Hs]. apply negb_true_iff in Hc.
    rewrite no_fence_inside_cons, (IH Hs), andb_true_r.
    unfold FENCE at 1. now rewrite startswith_cons, N.eqb_sym, Hc.
Qed.











Lemma rstrip_app (a b : pystr) :
  rstrip (a ++ b) = match rstrip b with [] => rstrip a | r => a ++ r end.
Proof.
  induction a as [|c a IH]; simpl app.
  - now destruct (rstrip b).
  - rewrite !rstrip_cons, IH. destruct (rstrip b); [reflexivity|].
    now destruct a.
Qed.

Section UpperCommutes.
Context {U : Unicode}.
Hypothesis Hspace : upper_space_law U.
Hypothesis Hnonspace : upper_nonspace_law U.

Lemma upper_app (a b : pystr) : upper (a ++ b) = upper a ++ upper b.
Proof. apply flat_map_app. Qed.

Lemma upper_cons c (t : pystr) : upper (c :: t) = upper_cp c ++ upper t.
Proof. reflexivity. Qed.

Lemma upper_cp_nonspace c :
  isspace c = false -> upper_cp c <> [] /\ nospace (upper_cp c) = true.
Proof. apply Hnonspace. Qed.

Lemma upper_cp_nonempty c : upper_cp c <> [].
Proof.
  destruct (isspace c) eqn:Ec.
  - rewrite (Hspace _ Ec). discriminate.
  - now apply upper_cp_nonspace.
Qed.

Lemma upper_nil_inv (s : pystr) : upper s = [] -> s = [].
Proof.
  destruct s as [|c t]; [reflexivity|]. rewrite upper_cons. intros H.
  apply app_eq_nil in H as [H _]. now apply upper_cp_nonempty in H.
Qed.

Lemma lstrip_upper (s : pystr) : lstrip (upper s) = upper (lstrip s).
Proof.
  induction s as [|c t IH]; [reflexivity|]. rewrite upper_cons.
  destruct (isspace c) eqn:Ec.
  - rewrite (Hspace _ Ec). simpl. now rewrite Ec.
  - simpl lstrip at 2. rewrite Ec, upper_cons.
    destruct (upper_cp_nonspace _ Ec) as [Hne Hw].
    destruct (upper_cp c) as [|d ds]; [congruence|].
    simpl in Hw |- *. apply andb_true_iff in Hw as [Hd _].
    apply negb_true_iff in Hd. now rewrite Hd.
Qed.

Lemma rstrip_upper (s : pystr) : rstrip (upper s) = upper (rstrip s).
Proof.
  induction s as [|c t IH]; [reflexivity|].
  rewrite upper_cons, rstrip_app, IH, rstrip_cons.
  destruct (rstrip t) as [|d r] eqn:Er.
  - simpl upper at 1. destruct (isspace c) eqn:Ec.
    + rewrite (Hspace _ Ec). simpl. now rewrite Ec.
    + destruct (upper_cp_nonspace _ Ec) as [_ Hw].
      rewrite nospace_rstrip by exact Hw. rewrite upper_cons. simpl.
      now rewrite app_nil_r.
  - destruct (upper (d :: r)) eqn:Eu.
    + apply upper_nil_inv in Eu. discriminate.
    + now rewrite upper_cons, Eu.
Qed.

Lemma strip_upper (s : pystr) : strip (upper s) = upper (strip s).
Proof. unfold strip. now rewrite lstrip_upper, rstrip_upper. Qed.

Lemma collapse_upper (s : pystr) : collapse (upper s) = upper (collapse s).
Proof.
  induction s as [| c t Hc IH | c t Hc IH] using ws_ind.
  - reflexivity.
  - rewrite upper_cons. destruct (upper_cp_nonspace _ Hc) as [_ Hw].
    rewrite collapse_nospace_app by exact Hw.
    rewrite collapse_nonspace by exact Hc. now rewrite upper_cons, IH.
  - rewrite upper_cons, (Hspace _ Hc). simpl app.
    rewrite !collapse_space by exact Hc.
    rewrite lstrip_upper, IH, upper_cons, (Hspace _ isspace_SPACE). reflexivity.
Qed.

Hypothesis Hidem : upper_idem_law U.

Lemma upper_upper (s : pystr) : upper (upper s) = upper s.
Proof.
  induction s as [|c t IH]; [reflexivity|].
  now rewrite upper_cons, upper_app, Hidem, IH.
Qed.

(** The first step of the normalisation is idempotent. *)
Lemma first_step_idem (s : pystr) :
  let t := strip (upper (collapse s)) in
  strip (upper (collapse t)) = t.
Proof.
  intros t.
  assert (Hc : collapse t = t).
  { apply squeezed_collapse_id. unfold t. rewrite <- collapse_upper.
    apply squeezed_strip, squeezed_collapse. }
  assert (Hu : upper t = t).
  { unfold t. now rewrite <- strip_upper, upper_upper. }
  rewrite Hc, Hu. apply strip_idem.
Qed.

End UpperCommutes.

Lemma sub_quote_id (t : pystr) :
  (forall c, In c t -> is_quote c = false) -> re_sub re_quote [] t = t.
Proof.
  induction t as [|c t IH]; intros H; [reflexivity|].
  rewrite re_sub_miss.
  - rewrite IH; [reflexivity|]. intros x Hx. apply H. now right.
  - unfold re_quote. now rewrite (H c (or_introl eq_refl)).
Qed.

Lemma startswith_skipn_occurs (p t : pystr) k :
  startswith p (skipn k t) = true -> occurs p t.
Proof.
  intros H. apply startswith_spec in H as [post H].
  exists (length (firstn k t)), (firstn k t), post. split; [|reflexivity].
  now rewrite <- H, firstn_skipn.
Qed.

Lemma sub_block_comment_id (t : pystr) :
  ~ occurs [SLASH; STAR] t -> re_sub re_block_comment [] t = t.
Proof.
  intros H. apply re_sub_id. intros k. unfold re_block_comment.
  destruct (startswith [SLASH; STAR] (skipn k t)) eqn:E; [|reflexivity].
  exfalso. apply H. now apply startswith_skipn_occurs in E.
Qed.

(** * Quotes and comment openers survive the first step unchanged *)

Lemma in_lstrip x (s : pystr) : In x (lstrip s) -> In x s.
Proof.
  induction s as [|c t IH]; [auto|]. simpl.
  destruct (isspace c); [auto | exact (fun H => H)].
Qed.

Lemma rstrip_head (s : pystr) d r : rstrip s = d :: r -> exists t, s = d :: t.
Proof.
  destruct s as [|c t]; [discriminate|]. rewrite rstrip_cons.
  destruct (rstrip t); [destruct (isspace c)|]; intros [= <- <-]; now exists t.
Qed.

Lemma in_rstrip x (s : pystr) : In x (rstrip s) -> In x s.
Proof.
  induction s as [|c t IH]; [auto|]. rewrite rstrip_cons.
  destruct (rstrip t) as [|d r].
  - destruct (isspace c); [intros [] | intros [<- | []]; now left].
  - intros [<- | H]; [now left | right; now apply IH].
Qed.

Lemma in_collapse x (s : pystr) : In x (collapse s) -> x = SPACE \/ In x s.
Proof.
  induction s as [| c t Hc IH | c t Hc IH] using ws_ind.
  - intros [].
  - rewrite collapse_nonspace by exact Hc. intros [<- | H].
    + right. now left.
    + destruct (IH H); [now left | right; now right].
  - rewrite collapse_space by exact Hc. intros [<- | H]; [now left|].
    destruct (IH H) as [-> | H']; [now left|]. right. right. now apply in_lstrip.
Qed.

Lemma contains_cons (p : pystr) c (t : pystr) :
  contains p (c :: t) = startswith p (c :: t) || contains p t.
Proof. reflexivity. Qed.

Lemma contains_tail (p : pystr) c (t : pystr) :
  contains p t = true -> contains p (c :: t) = true.
Proof. intros H. now rewrite contains_cons, H, orb_true_r. Qed.

Lemma contains_lstrip (p s : pystr) :
  contains p (lstrip s) = true -> contains p s = true.
Proof.
  induction s as [|c t IH]; [auto|]. simpl lstrip.
  destruct (isspace c); [|auto]. intros H. now apply contains_tail, IH.
Qed.

Lemma startswith_pair a b (s : pystr) :
  startswith [a; b] s = true <-> exists t, s = a :: b :: t.
Proof.
  rewrite startswith_spec. split; intros [t ->]; now exists t.
Qed.

Lemma contains_pair_rstrip a b (s : pystr) :
  contains [a; b] (rstrip s) = true -> contains [a; b] s = true.
Proof.
  induction s as [|c t IH]; [auto|]. rewrite rstrip_cons.
  destruct (rstrip t) as [|d r] eqn:Er.
  - destruct (isspace c); simpl; rewrite ?andb_false_r; discriminate.
  - rewrite !contains_cons. intros H. apply orb_true_iff in H as [H | H].
    + apply startswith_pair in H as [t' [= <- <- _]].
      apply rstrip_head in Er as [t'' ->]. simpl. now rewrite !N.eqb_refl.
    + now rewrite (IH H), orb_true_r.
Qed.

Lemma contains_pair_collapse a b (s : pystr) :
  isspace a = false -> isspace b = false ->
  contains [a; b] (collapse s) = true -> contains [a; b] s = true.
Proof.
  intros Ha Hb.
  induction s as [| c t Hc IH | c t Hc IH] using ws_ind.
  - auto.
  - rewrite collapse_nonspace by exact Hc. rewrite !contains_cons.
    intros H. apply orb_true_iff in H as [H | H].
    + apply startswith_pair in H as [r [= <- E]].
      destruct t as [|d t']; [discriminate|].
      destruct (isspace d) eqn:Ed.
      * rewrite collapse_space in E by exact Ed. injection E as <- _.
        rewrite isspace_SPACE in Hb. discriminate.
      * rewrite collapse_nonspace in E by exact Ed. injection E as <- _.
        simpl. now rewrite !N.eqb_refl.
    + now rewrite (IH H), orb_true_r.
  - rewrite collapse_space by exact Hc. rewrite !contains_cons.
    intros H. apply orb_true_iff in H as [H | H].
    + apply startswith_pair in H as [r [= <- _]].
      rewrite isspace_SPACE in Ha. discriminate.
    + apply orb_true_iff. right. now apply contains_lstrip, IH.
Qed.

Lemma contains_pair_in a b (s : pystr) :
  contains [a; b] s = true -> In a s /\ In b s.
Proof.
  induction s as [|c t IH]; [discriminate|]. rewrite contains_cons.
  intros H. apply orb_true_iff in H as [H | H].
  - apply startswith_pair in H as [r [= -> ->]]. split; [now left | right; now left].
  - destruct (IH H). split; now right.
Qed.

(** Where a pair of characters can sit in a concatenation. *)
Lemma contains_pair_app a b (u v : pystr) :
  contains [a; b] (u ++ v) = true ->
  contains [a; b] u = true \/
  (last u b = a /\ u <> [] /\ exists r, v = b :: r) \/
  contains [a; b] v = true.
Proof.
  induction u as [|c u IH]; [now right; right|].
  simpl app. rewrite contains_cons. intros H.
  apply orb_true_iff in H as [H | H].
  - apply startswith_pair in H as [r [= <- E]]. destruct u as [|d u].
    + right; left. repeat split; [discriminate | now exists r].
    + left. injection E as <- _. simpl. now rewrite !N.eqb_refl.
  - destruct (IH H) as [H1 | [(Hl & Hne & Hv) | H3]].
    + left. now apply contains_tail.
    + right; left. repeat split; [|discriminate | assumption].
      destruct u; [congruence | exact Hl].
    + now right; right.
Qed.

Section Symbols.
Context {U : Unicode}.
Hypothesis Hspace : upper_space_law U.
Hypothesis Hnonspace : upper_nonspace_law U.
Hypothesis Hsymbols : upper_symbols_law U.

Lemma in_last (u : pystr) d : u <> [] -> In (last u d) u.
Proof.
  induction u as [|c u IH]; [congruence|]. intros _.
  destruct u as [|c' u]; [now left|]. right. apply IH. discriminate.
Qed.

Lemma contains_pair_upper a b (s : pystr) :
  (a < 128)%N -> ascii_letter a = false ->
  (b < 128)%N -> ascii_letter b = false -> a <> b ->
  contains [a; b] (upper s) = true -> contains [a; b] s = true.
Proof.
  intros Ha Ha' Hb Hb' Hab.
  induction s as [|c t IH]; [auto|]. rewrite upper_cons. intros H.
  apply contains_pair_app in H as [H | [(Hl & Hne & r & Hr) | H]].
  - apply contains_pair_in in H as [H1 H2].
    pose proof (@Hsymbols c a H1 Ha Ha'). pose proof (@Hsymbols c b H2 Hb Hb').
    congruence.
  - assert (Hc : c = a).
    { apply (@Hsymbols c a); [|assumption | assumption].
      rewrite <- Hl. now apply in_last. }
    destruct t as [|d t']; [discriminate|]. rewrite upper_cons in Hr.
    assert (Hd : d = b).
    { apply (@Hsymbols d b); [|assumption | assumption].
      pose proof (upper_cp_nonempty Hspace Hnonspace d) as Hne'.
      destruct (upper_cp d) as [|x xs]; [congruence|].
      injection Hr as -> _. now left. }
    subst c d. rewrite contains_cons. apply orb_true_iff. left.
    apply startswith_pair. now exists t'.
  - now apply contains_tail, IH.
Qed.

Lemma no_quote_first_step (s : pystr) :
  (forall c, In c s -> is_quote c = false) ->
  forall x, In x (strip (upper (collapse s))) -> is_quote x = false.
Proof.
  intros Hs x Hx. destruct (is_quote x) eqn:Eq; [|reflexivity]. exfalso.
  apply in_rstrip, in_lstrip in Hx. unfold upper in Hx.
  apply in_flat_map in Hx as (c & Hc & Hxc).
  assert (E : c = x).
  { apply (@Hsymbols c x Hxc); unfold is_quote, DQUOTE, SQUOTE, BACKTICK in Eq;
      repeat (apply orb_true_iff in Eq as [Eq | Eq]); apply N.eqb_eq in Eq; now subst. }
  subst c. apply in_collapse in Hc as [-> | Hc]; [discriminate|].
  rewrite (Hs _ Hc) in Eq. discriminate.
Qed.

Lemma no_comment_first_step (s : pystr) :
  ~ occurs [SLASH; STAR] s -> ~ occurs [SLASH; STAR] (strip (upper (collapse s))).
Proof.
  intros Hs H. apply Hs. apply contains_spec. apply contains_spec in H.
  unfold strip in H. apply contains_pair_rstrip, contains_lstrip in H.
  apply contains_pair_upper in H; try reflexivity; try discriminate.
  now apply contains_pair_collapse in H.
Qed.

End Symbols.

Section C2.
Context {U : Unicode}.

(** C2 (amended): the normalisation used by the exact-match scorer is
    idempotent on every string that holds no quote character and no
    opening of a block comment: normalize(normalize(s)) = normalize(s);
    and the two sample queries have the same normal form. *)
Theorem C2_normalize_idempotent_amended
    (Hascii : upper_ascii_law U) (Hspace : upper_space_law U)
    (Hnonspace : upper_nonspace_law U) (Hidem : upper_idem_law U)
    (Hsymbols : upper_symbols_law U) :
  (forall s,
     (forall c, In c s -> is_quote c = false) ->
     ~ occurs [SLASH; STAR] s ->
     normalize_sql (normalize_sql s) = normalize_sql s) /\
  normalize_sql (py "SELECT  *  FROM t") = normalize_sql (py "select * from t").
Proof.
  split.
  - intros s Hq Hc.
    set (t := strip (upper (collapse s))).
    assert (Hqt : forall c, In c t -> is_quote c = false)
      by now apply no_quote_first_step.
    assert (Hct : ~ occurs [SLASH; STAR] t)
      by now apply no_comment_first_step.
    assert (E : normalize_sql s = t).
    { unfold normalize_sql. fold (collapse s). fold t.
      now rewrite sub_quote_id, sub_block_comment_id. }
    rewrite E. unfold normalize_sql. fold (collapse t).
    pose proof (first_step_idem Hspace Hnonspace Hidem s) as Hfix.
    cbv zeta in Hfix. fold t in Hfix. rewrite Hfix.
    now rewrite sub_quote_id, sub_block_comment_id.
  - unfold normalize_sql, upper.
    assert (E : forall s, forallb (fun c => (c <? 128)%N) s = true ->
                flat_map upper_cp s = map ascii_upper s).
    { intros s. apply (upper_ascii_b s Hascii). }
    rewrite !E by (vm_compute; reflexivity). vm_compute. reflexivity.
Qed.

End C2.

(** * Running the monad *)

Section MonadFacts.
Context {env : Env}.

Lemma bind_ok {A B} (c : M A) (k : A -> M B) w a w1 :
  c w = (Ok a, w1) -> bind c k w = k a w1.
Proof. unfold bind. now intros ->. Qed.

Lemma bind_raise {A B} (c : M A) (k : A -> M B) w e w1 :
  c w = (Raise e, w1) -> bind c k w = (Raise e, w1).
Proof. unfold bind. now intros ->. Qed.

Lemma bind_ok_inv {A B} (c : M A) (k : A -> M B) w b w' :
  bind c k w = (Ok b, w') ->
  exists a w1, c w = (Ok a, w1) /\ k a w1 = (Ok b, w').
Proof.
  unfold bind. destruct (c w) as [[a | e] w1]; [|discriminate].
  intros H. now exists a, w1.
Qed.

Lemma lift_ok_inv {A} (r : outcome A) w a w' :
  lift r w = (Ok a, w') -> r = Ok a /\ w' = w.
Proof. unfold lift. now intros [= -> ->]. Qed.

Lemma ret_inv {A} (x : A) w a w' : ret x w = (Ok a, w') -> a = x /\ w' = w.
Proof. unfold ret. now intros [= -> ->]. Qed.

End MonadFacts.

(** * Sums and means *)

Lemma fold_left_Qplus (xs : list Q) : forall a,
  (fold_left Qplus xs a == a + total xs)%Q.
Proof.
  induction xs as [|x xs IH]; intros a; simpl.
  - ring.
  - rewrite IH. ring.
Qed.

Lemma sum_total (xs : list Q) : (sum xs == total xs)%Q.
Proof. unfold sum. rewrite fold_left_Qplus. ring. Qed.

Lemma len_pos {A} (x : A) (xs : list A) : (0 < len (x :: xs))%Q.
Proof.
  unfold len. change 0%Q with (inject_Z 0). rewrite <- Zlt_Qlt. simpl length. lia.
Qed.

Lemma truediv_len {A} (a : Q) (x : A) (xs : list A) :
  truediv a (len (x :: xs)) = Ok (a / len (x :: xs))%Q.
Proof.
  unfold truediv. destruct (Qeq_bool (len (x :: xs)) 0) eqn:E; [|reflexivity].
  apply Qeq_bool_eq in E. pose proof (len_pos x xs) as H. rewrite E in H.
  now apply Qlt_irrefl in H.
Qed.

Section Retrieval.
Context {env : Env}.

Lemma retrieve_context_run rag q n w e qr :
  embed_query q = Ok e ->
  collection_query (w_collection w) [e] n = Ok qr ->
  retrieve_context rag q n w =
  (Ok (hits (qr_documents qr), map score_of_distance (hits (qr_distances qr))), w).
Proof.
  intros He Hq. unfold retrieve_context, bind, lift, query_collection, ret.
  rewrite He, Hq. unfold hits.
  destruct (qr_documents qr) as [[|? ?]|], (qr_distances qr) as [[|? ?]|]; reflexivity.
Qed.



(** C9: the retrieval-quality score is the arithmetic mean of the scores
    that [retrieve_context] returns for the question, and 0.0 when it
    returns no score. *)
Theorem C9_retrieval_quality_is_mean rag q sql w contexts scores w'
    (Hretrieve : retrieve_context rag q default_n_results w = (Ok (contexts, scores), w')) :
  exists m,
    _evaluate_retrieval_quality rag q sql w = (Ok m, w') /\
    (scores = [] -> m = 0%Q) /\
    (scores <> [] -> (m == mean scores)%Q).
Proof.
  unfold _evaluate_retrieval_quality. erewrite bind_ok by exact Hretrieve.
  destruct scores as [|s rest].
  - exists 0%Q. split; [reflexivity|]. split; [reflexivity | congruence].
  - exists (sum (s :: rest) / len (s :: rest))%Q. split; [|split].
    + unfold lift. now rewrite truediv_len.
    + discriminate.
    + intros _. unfold mean. now rewrite sum_total.
Qed.

End Retrieval.

(** * What a computation leaves untouched *)

Section Frames.
Context {env : Env}.

Variable X : Type.
Variable f : World -> X.

Lemma preserves_ret {A} (a : A) : preserves f (ret a).
Proof. intros w. reflexivity. Qed.

Lemma preserves_lift {A} (r : outcome A) : preserves f (lift r).
Proof. intros w. reflexivity. Qed.

Lemma preserves_bind {A B} (c : M A) (k : A -> M B) :
  preserves f c -> (forall a, preserves f (k a)) -> preserves f (bind c k).
Proof.
  intros Hc Hk w. unfold bind. specialize (Hc w).
  destruct (c w) as [[a | e] w1]; simpl in *; [|assumption].
  now rewrite Hk.
Qed.

Lemma preserves_try_except {A} (c : M A) (h : exn -> M A) :
  preserves f c -> (forall e, preserves f (h e)) -> preserves f (try_except c h).
Proof.
  intros Hc Hh w. unfold try_except. specialize (Hc w).
  destruct (c w) as [[a | e] w1]; simpl in *; [assumption|].
  now rewrite Hh.
Qed.

Lemma preserves_run {A} (c : M A) w r w' :
  preserves f c -> c w = (r, w') -> f w' = f w.
Proof. intros H E. specialize (H w). now rewrite E in H. Qed.

End Frames.

Create HintDb frame.
#[export] Hint Resolve preserves_ret preserves_lift : frame.

Ltac frame :=
  repeat first
    [ assumption
    | apply preserves_ret
    | apply preserves_lift
    | apply preserves_bind; [|intros ?]
    | apply preserves_try_except; [|intros ?]
    | match goal with
      | |- preserves _ (match ?x with _ => _ end) => destruct x
      | |- preserves _ (if ?b then _ else _) => destruct b
      | |- preserves _ (let '(_, _) := ?x in _) => destruct x
      end
    | solve [auto with frame] ].

Section FrameInstances.
Context {env : Env}.

Lemma print_keeps_sql line : preserves (fun w => sql_run (w_trace w)) (print line).
Proof.
  intros w. simpl. unfold sql_run. rewrite flat_map_app. simpl. apply app_nil_r.
Qed.

Lemma print_keeps_collection line : preserves w_collection (print line).
Proof. intros w. reflexivity. Qed.

Lemma connect_keeps_collection url : preserves w_collection (connect url).
Proof. intros w. unfold connect. now destruct (engine_connect url (w_db w)). Qed.

Lemma execute_keeps_collection url sql : preserves w_collection (execute url sql).
Proof. intros w. unfold execute. now destruct (conn_execute url sql (w_db w)). Qed.

Lemma query_keeps X (f : World -> X) embs n : preserves f (query_collection embs n).
Proof. intros w. reflexivity. Qed.

End FrameInstances.

#[export] Hint Resolve print_keeps_sql print_keeps_collection
  connect_keeps_collection execute_keeps_collection query_keeps : frame.

Section FrameCode.
Context {U : Unicode} {env : Env}.

Lemma retrieve_context_keeps X (f : World -> X) rag q n :
  preserves f (retrieve_context rag q n).
Proof. unfold retrieve_context. frame. Qed.

#[local] Hint Resolve retrieve_context_keeps : frame.

Lemma generate_sql_keeps_sql rag q ctx :
  preserves (fun w => sql_run (w_trace w)) (generate_sql rag q ctx).
Proof. unfold generate_sql. frame. Qed.

Lemma generate_sql_keeps_collection rag q ctx :
  preserves w_collection (generate_sql rag q ctx).
Proof. unfold generate_sql. frame. Qed.

Lemma execution_keeps_collection gen gt url :
  preserves w_collection (_evaluate_execution_accuracy gen gt url).
Proof. unfold _evaluate_execution_accuracy. frame. Qed.

Lemma semantic_keeps X (f : World -> X) gen gt :
  preserves f (_evaluate_semantic_similarity gen gt).
Proof. unfold _evaluate_semantic_similarity. frame. Qed.

Lemma retrieval_quality_keeps X (f : World -> X) rag q sql :
  preserves f (_evaluate_retrieval_quality rag q sql).
Proof.
  unfold _evaluate_retrieval_quality. frame.
Qed.

End FrameCode.

#[export] Hint Resolve retrieve_context_keeps generate_sql_keeps_sql
  generate_sql_keeps_collection execution_keeps_collection semantic_keeps
  retrieval_quality_keeps : frame.

Section Execution.
Context {U : Unicode} {env : Env}.

Lemma some_row_differs_spec (g t : list Row) :
  some_row_differs g t = true <-> rows_differ g t.
Proof.
  unfold some_row_differs, rows_differ. revert t.
  induction g as [|a g IH]; intros [|b t]; simpl.
  - split; [discriminate | intros ([|i] & ? & ? & ? & _); discriminate].
  - split; [discriminate | intros ([|i] & ? & ? & ? & _); discriminate].
  - split; [discriminate | intros ([|i] & ? & ? & _ & ? & _); discriminate].
  - rewrite orb_true_iff, IH, negb_true_iff. split.
    + intros [H | (i & x & y & Hx & Hy & Hxy)].
      * now exists 0, a, b.
      * now exists (S i), x, y.
    + intros ([|i] & x & y & Hx & Hy & Hxy); simpl in Hx, Hy.
      * injection Hx as <-. injection Hy as <-. now left.
      * right. now exists i, x, y.
Qed.

Lemma execution_accuracy_total gen gt url w :
  exists s w', _evaluate_execution_accuracy gen gt url w = (Ok s, w') /\
               In s [0; 1 # 2; 1]%Q.
Proof.
  unfold _evaluate_execution_accuracy, try_except, bind, lift, connect, execute,
    ret, print, emit.
  destruct (create_engine url) as [[]|e]; [|eexists _, _; split; [reflexivity | now left]].
  destruct (engine_connect url (w_db w)) as [[[]|e] d1]; cbn [w_db w_collection w_trace];
    [|eexists _, _; split; [reflexivity | now left]].
  destruct (conn_execute url gen d1) as [[g|e] d2]; cbn [w_db w_collection w_trace];
    [|eexists _, _; split; [reflexivity | now left]].
  destruct (engine_connect url d2) as [[[]|e] d3]; cbn [w_db w_collection w_trace];
    [|eexists _, _; split; [reflexivity | now left]].
  destruct (conn_execute url gt d3) as [[t|e] d4]; cbn [w_db w_collection w_trace];
    [|eexists _, _; split; [reflexivity | now left]].
  destruct (negb (length g =? length t));
    [eexists _, _; split; [reflexivity | now left]|].
  destruct (some_row_differs g t);
    eexists _, _; (split; [reflexivity | simpl; tauto]).
Qed.

Lemma execution_accuracy_score gen gt url w rg rt :
  executed url gen gt w rg rt ->
  fst (_evaluate_execution_accuracy gen gt url w) =
  Ok match rg, rt with
     | Ok g, Some (Ok t) =>
         if negb (length g =? length t) then 0%Q
         else if some_row_differs g t then (1 # 2)%Q else 1%Q
     | _, _ => 0%Q
     end.
Proof.
  unfold _evaluate_execution_accuracy, try_except, bind, lift, connect, execute,
    ret, print, emit.
  intros [e d1 d2 He Hc Hg | g rt' d1 d2 d3 d4 He Hc Hg Hc' Ht].
  - rewrite He, Hc. cbn [w_db w_collection w_trace]. now rewrite Hg.
  - rewrite He, Hc. cbn [w_db w_collection w_trace]. rewrite Hg.
    cbn [w_db w_collection w_trace]. rewrite Hc'.
    cbn [w_db w_collection w_trace]. rewrite Ht.
    destruct rt' as [t|e]; [|reflexivity].
    destruct (negb (length g =? length t)); [reflexivity|].
    now destruct (some_row_differs g t).
Qed.

(** C6: the execution score is attempted only with a connection string
    and a positive syntax score (otherwise 0.0 is recorded and no SQL is
    run); an attempt always yields 0.0, 0.5 or 1.0: 0.0 when running the
    generated or the reference SQL raises or the row counts differ, 0.5
    when the counts agree and some pair of corresponding rows differs,
    1.0 when all corresponding rows are equal. *)
Theorem C6_execution_score rag q gt w :
  (* not attempted *)
  (forall db r w',
     evaluate_single_example rag q gt db w = (Ok r, w') ->
     truthy db = false \/ (syntax_accuracy r <= 0)%Q ->
     execution_accuracy r = 0%Q /\ sql_run (w_trace w') = sql_run (w_trace w)) /\
  (* attempted *)
  (forall url r w',
     evaluate_single_example rag q gt (Some url) w = (Ok r, w') ->
     url <> [] -> (0 < syntax_accuracy r)%Q ->
     exists w1 w2,
       generate_sql rag q None w = (Ok (generated_sql r), w1) /\
       _evaluate_execution_accuracy (generated_sql r) gt url w1 =
         (Ok (execution_accuracy r), w2)) /\
  (* the score of an attempt *)
  (forall gen url,
     let score := fst (_evaluate_execution_accuracy gen gt url w) in
     (exists s, score = Ok s /\ In s [0; 1 # 2; 1]%Q) /\
     (forall e, executed url gen gt w (Raise e) None -> score = Ok 0%Q) /\
     (forall g e, executed url gen gt w (Ok g) (Some (Raise e)) -> score = Ok 0%Q) /\
     (forall g t, executed url gen gt w (Ok g) (Some (Ok t)) ->
        (length g <> length t -> score = Ok 0%Q) /\
        (length g = length t -> rows_differ g t -> score = Ok (1 # 2)%Q) /\
        (length g = length t -> ~ rows_differ g t -> score = Ok 1%Q))).
Proof.
  split; [|split].
  - intros db r w' Hrun Hgate.
    unfold evaluate_single_example in Hrun.
    apply bind_ok_inv in Hrun as (gen & w1 & Hgen & Hrun).
    apply bind_ok_inv in Hrun as (ex & w2 & Hex & Hrun).
    apply bind_ok_inv in Hrun as (sem & w3 & Hsem & Hrun).
    apply bind_ok_inv in Hrun as (rq & w4 & Hrq & Hrun).
    apply ret_inv in Hrun as [-> ->]. cbn [execution_accuracy syntax_accuracy] in *.
    assert (Hskip : ex = 0%Q /\ w2 = w1).
    { destruct db as [url|]; [|now apply ret_inv in Hex].
      destruct Hgate as [Hdb | Hsyn].
      - rewrite Hdb in Hex. now apply ret_inv in Hex.
      - apply Qle_bool_iff in Hsyn. rewrite Hsyn, andb_false_r in Hex.
        now apply ret_inv in Hex. }
    destruct Hskip as [-> ->]. split; [reflexivity|].
    pose proof (@preserves_run _ _ (fun w => sql_run (w_trace w)) _ _ _ _ _
                  (@retrieval_quality_keeps _ _ _ rag q gen) Hrq) as E4.
    pose proof (@preserves_run _ _ (fun w => sql_run (w_trace w)) _ _ _ _ _
                  (@semantic_keeps _ _ _ _ gen gt) Hsem) as E3.
    pose proof (@preserves_run _ _ (fun w => sql_run (w_trace w)) _ _ _ _ _
                  (@generate_sql_keeps_sql _ rag q None) Hgen) as E1.
    cbv beta in E4, E3, E1. congruence.
  - intros url r w' Hrun Hurl Hsyn.
    unfold evaluate_single_example in Hrun.
    apply bind_ok_inv in Hrun as (gen & w1 & Hgen & Hrun).
    apply bind_ok_inv in Hrun as (ex & w2 & Hex & Hrun).
    apply bind_ok_inv in Hrun as (sem & w3 & Hsem & Hrun).
    apply bind_ok_inv in Hrun as (rq & w4 & Hrq & Hrun).
    apply ret_inv in Hrun as [-> ->].
    cbn [execution_accuracy syntax_accuracy generated_sql] in *.
    exists w1, w2. split; [assumption|].
    assert (Htruthy : truthy (Some url) = true) by (destruct url; [congruence | reflexivity]).
    assert (Hpos : Qle_bool (_evaluate_syntax gen) 0 = false).
    { destruct (Qle_bool (_evaluate_syntax gen) 0) eqn:E; [|reflexivity].
      apply Qle_bool_iff in E. exfalso. apply (Qlt_not_le _ _ Hsyn E). }
    now rewrite Htruthy, Hpos in Hex.
  - intros gen url score. split; [|split; [|split]].
    + destruct (execution_accuracy_total gen gt url w) as (s & w' & E & Hs).
      exists s. unfold score. now rewrite E.
    + intros e H. apply (execution_accuracy_score H).
    + intros g e H. apply (execution_accuracy_score H).
    + intros g t H. unfold score. rewrite (execution_accuracy_score H).
      split; [|split].
      * intros Hl. apply Nat.eqb_neq in Hl. now rewrite Hl.
      * intros Hl Hd. apply Nat.eqb_eq in Hl. apply some_row_differs_spec in Hd.
        now rewrite Hl, Hd.
      * intros Hl Hd. apply Nat.eqb_eq in Hl. rewrite Hl. simpl.
        destruct (some_row_differs g t) eqn:E; [|reflexivity].
        apply some_row_differs_spec in E. contradiction.
Qed.

End Execution.

(** * Ingestion *)

Lemma combine_snoc {A B} (xs : list A) (ys : list B) x y :
  length xs = length ys ->
  combine (xs ++ [x]) (ys ++ [y]) = combine xs ys ++ [(x, y)].
Proof.
  revert ys; induction xs as [|a xs IH]; intros [|b ys] H; simpl in *;
    try discriminate; [reflexivity|].
  injection H as H. now rewrite IH.
Qed.

Lemma ingest_lines_spec (k : SnippetType) file lines : forall i0 acc,
  aligned acc ->
  let acc' := ingest_lines (type_label k) (id_prefix k) file i0 lines acc in
  aligned acc' /\
  forall x, In x (snippets acc') <->
            In x (snippets acc) \/
            exists j line, nth_error lines j = Some line /\ strip line <> [] /\
                           x = snippet_of k file (i0 + j) line.
Proof.
  induction lines as [|line rest IH]; intros i0 acc Hal; simpl.
  - split; [assumption|]. intros x. split; [now left|].
    intros [H | (j & l & Hj & _)]; [assumption | now destruct j].
  - set (acc1 := match strip line with [] => acc | _ => _ end).
    assert (H1 : aligned acc1 /\
                 forall x, In x (snippets acc1) <->
                           In x (snippets acc) \/
                           (strip line <> [] /\ x = snippet_of k file i0 line)).
    { subst acc1. destruct (strip line) as [|c t] eqn:Es.
      - split; [assumption|]. intros x. split; [now left|].
        intros [H | [H _]]; [assumption | congruence].
      - destruct Hal as [Hm Hi]. split.
        + split; simpl; rewrite !length_app; simpl; lia.
        + intros x. unfold snippets. simpl.
          rewrite !combine_snoc by (rewrite ?length_combine; lia).
          rewrite in_app_iff. unfold snippet_of, snippet_id. rewrite Es. simpl.
          split.
          * intros [H | [H | []]]; [now left | right]. split; [discriminate | now symmetry].
          * intros [H | [_ H]]; [now left | right; left; now symmetry]. }
    destruct H1 as [Hal1 H1]. destruct (IH (S i0) acc1 Hal1) as [Hal2 H2].
    split; [assumption|]. intros x. rewrite H2, H1. split.
    + intros [[H | [Hne ->]] | (j & l & Hj & Hne & ->)].
      * now left.
      * right. exists 0, line. now rewrite Nat.add_0_r.
      * right. exists (S j), l. now rewrite Nat.add_succ_r.
    + intros [H | ([|j] & l & Hj & Hne & ->)].
      * now left; left.
      * simpl in Hj. injection Hj as <-. left; right. now rewrite Nat.add_0_r.
      * simpl in Hj. right. exists j, l. now rewrite Nat.add_succ_r.
Qed.

Section Ingest.
Context {env : Env}.

Lemma ingest_files_spec (k : SnippetType) files : forall acc w acc' w',
  aligned acc ->
  ingest_files (type_label k) (id_prefix k) files acc w = (Ok acc', w') ->
  w' = w /\ aligned acc' /\
  (forall file, In file files -> exists lines, read_lines file = Ok lines) /\
  forall x, In x (snippets acc') <->
            In x (snippets acc) \/
            exists file i line, nonblank_line files file i line /\
                                x = snippet_of k file i line.
Proof.
  induction files as [|file rest IH]; intros acc w acc' w' Hal Hrun; simpl in Hrun.
  - apply ret_inv in Hrun as [-> ->]. repeat split; try apply Hal.
    + intros file [].
    + now left.
    + intros [H | (file & i & line & [[] _] & _)]. assumption.
  - apply bind_ok_inv in Hrun as (lines & w1 & Hread & Hrun).
    apply lift_ok_inv in Hread as [Hread ->].
    destruct (ingest_lines_spec k file lines 0 Hal) as [Hal1 H1].
    destruct (IH _ _ _ _ Hal1 Hrun) as (-> & Hal2 & Hfiles & H2).
    split; [reflexivity|]. split; [assumption|]. split.
    { intros f [<- | Hf]; [now exists lines | now apply Hfiles]. }
    intros x. rewrite H2, H1. split.
    + intros [[H | (j & line & Hj & Hne & ->)] | (f & i & line & (Hf & ls & Hls) & ->)].
      * now left.
      * right. exists file, j, line. split; [|reflexivity].
        split; [now left | now exists lines].
      * right. exists f, i, line. split; [|reflexivity].
        split; [now right | now exists ls].
    + intros [H | (f & i & line & ([<- | Hf] & ls & Hls & Hi & Hne) & ->)].
      * now left; left.
      * left; right. rewrite Hread in Hls. injection Hls as <-.
        now exists i, line.
      * right. exists f, i, line. split; [|reflexivity].
        split; [assumption | now exists ls].
Qed.

Lemma collect_spec ddl_files doc_files example_files w p w' :
  collect ddl_files doc_files example_files w = (Ok p, w') ->
  w' = w /\ aligned p /\
  forall x, In x (snippets p) <->
            exists k file i line,
              nonblank_line (files_of ddl_files doc_files example_files k) file i line /\
              x = snippet_of k file i line.
Proof.
  unfold collect. intros Hrun.
  apply bind_ok_inv in Hrun as (p1 & w1 & H1 & Hrun).
  apply bind_ok_inv in Hrun as (p2 & w2 & H2 & H3).
  assert (Hal0 : aligned no_pending) by (split; reflexivity).
  apply (@ingest_files_spec ddl _ _ _ _ _ Hal0) in H1 as (-> & Hal1 & _ & E1).
  apply (@ingest_files_spec documentation _ _ _ _ _ Hal1) in H2 as (-> & Hal2 & _ & E2).
  apply (@ingest_files_spec example _ _ _ _ _ Hal2) in H3 as (-> & Hal3 & _ & E3).
  split; [reflexivity|]. split; [assumption|].
  intros x. rewrite E3, E2, E1. split.
  - intros [[[[] | (f & i & l & H & ->)] | (f & i & l & H & ->)] | (f & i & l & H & ->)].
    + now exists ddl, f, i, l.
    + now exists documentation, f, i, l.
    + now exists example, f, i, l.
  - intros ([| |] & f & i & l & H & ->).
    + left; left; right. now exists f, i, l.
    + left; right. now exists f, i, l.
    + right. now exists f, i, l.
Qed.

End Ingest.

(** * Batching *)

Lemma firstn_plus {A} a b (l : list A) :
  firstn (a + b) l = firstn a l ++ firstn b (skipn a l).
Proof.
  revert l; induction a as [|a IH]; intros l; [reflexivity|].
  destruct l as [|x l]; simpl; [now rewrite firstn_nil | now rewrite IH].
Qed.

Lemma batches_prefix {A} (xs : list A) m :
  concat (map (fun i => batch_slice i xs) (map (fun k => k * batch_size) (seq 0 m)))
  = firstn (m * batch_size) xs.
Proof.
  induction m as [|m IH]; [reflexivity|].
  rewrite seq_S, !map_app, concat_app, IH. simpl map. simpl concat.
  rewrite app_nil_r. unfold batch_slice.
  now rewrite Nat.mul_succ_l, firstn_plus.
Qed.

(** The batches, one after the other, are the whole list. *)
Lemma batches_cover {A} (xs : list A) n :
  length xs <= n ->
  concat (map (fun i => batch_slice i xs) (batch_starts n)) = xs.
Proof.
  intros H. unfold batch_starts. rewrite batches_prefix. apply firstn_all2.
  unfold batch_size in *. simpl Nat.sub.
  pose proof (Nat.div_mod_eq (n + 99) 100).
  pose proof (Nat.mod_upper_bound (n + 99) 100). lia.
Qed.

Section Train.
Context {env : Env}.

Lemma add_to_collection_inv args w w' :
  add_to_collection args w = (Ok tt, w') -> w_trace w' = w_trace w ++ [Added args].
Proof.
  unfold add_to_collection.
  destruct (collection_add (w_collection w) args); [|discriminate].
  now intros [= <-].
Qed.

Lemma add_batches_spec p starts : forall w w',
  add_batches p starts w = (Ok tt, w') ->
  exists batches,
    w_trace w' = w_trace w ++ map Added batches /\
    map (@add_documents _) batches = map (fun i => batch_slice i (all_documents p)) starts /\
    map (@add_metadatas _) batches = map (fun i => batch_slice i (metadatas p)) starts /\
    map (@add_ids _) batches = map (fun i => batch_slice i (ids p)) starts.
Proof.
  induction starts as [|i rest IH]; intros w w' Hrun; simpl in Hrun.
  - apply ret_inv in Hrun as [_ ->]. exists []. simpl. now rewrite app_nil_r.
  - apply bind_ok_inv in Hrun as (embeddings & w1 & Hemb & Hrun).
    apply lift_ok_inv in Hemb as [Hemb ->].
    apply bind_ok_inv in Hrun as ([] & w2 & Hadd & Hrun).
    apply add_to_collection_inv in Hadd.
    destruct (IH _ _ Hrun) as (batches & Htr & Hd & Hm & Hi).
    eexists (_ :: batches). simpl. rewrite Htr, Hadd, <- app_assoc, Hd, Hm, Hi.
    repeat split.
Qed.

(** C4 (amended): ingestion gives every snippet built from a non-blank
    line the id [<prefix>_<file>_<line-index>], where the prefix is [ddl]
    for a DDL file, [doc] for a documentation file and [ex] for an example
    file (the type label kept in the metadata being [ddl],
    [documentation] or [example]), the file is the path as given and the
    index counts the lines of the file from zero, blank lines included;
    these snippets, and no others, reach the store. *)
Theorem C4_snippet_ids_amended rag ddl_files doc_files example_files w w'
    (Hrun : train_rag_model rag ddl_files doc_files example_files w = (Ok tt, w')) :
  exists p batches,
    collect ddl_files doc_files example_files w = (Ok p, w) /\
    (exists line, w_trace w' = w_trace w ++ map Added batches ++ [Printed line]) /\
    concat (map (@add_documents _) batches) = all_documents p /\
    concat (map (@add_metadatas _) batches) = metadatas p /\
    concat (map (@add_ids _) batches) = ids p /\
    aligned p /\
    forall text md id,
      In (text, md, id) (snippets p) <->
      exists k file i line,
        nonblank_line (files_of ddl_files doc_files example_files k) file i line /\
        text = strip line /\
        md = mkMetadata (type_label k) file /\
        id = id_prefix k ++ py "_" ++ file ++ py "_" ++ str_of_nat i.
Proof.
  unfold train_rag_model in Hrun.
  apply bind_ok_inv in Hrun as (p & w1 & Hcollect & Hrun).
  apply bind_ok_inv in Hrun as ([] & w2 & Hadd & Hprint).
  destruct (collect_spec _ _ _ _ Hcollect) as (-> & Hal & Hsn).
  destruct (add_batches_spec _ _ _ Hadd) as (batches & Htr & Hd & Hm & Hi).
  exists p, batches. split; [assumption|]. split.
  { eexists. unfold print, emit in Hprint. injection Hprint as <-. simpl.
    now rewrite Htr, <- app_assoc. }
  destruct Hal as [Hlm Hli].
  rewrite Hd, Hm, Hi, !batches_cover by lia.
  repeat split; try assumption.
  - intros H. apply Hsn in H as (k & file & i & line & Hl & E).
    injection E as -> -> ->. now exists k, file, i, line.
  - intros (k & file & i & line & Hl & -> & -> & ->). apply Hsn.
    now exists k, file, i, line.
Qed.

End Train.

(** * Ranges of the scores *)

Lemma len_cons {A} (x : A) (xs : list A) : (len (x :: xs) == len xs + 1)%Q.
Proof.
  unfold len. simpl length. rewrite Nat2Z.inj_succ. unfold Z.succ.
  now rewrite inject_Z_plus.
Qed.

Lemma total_upper (hi : Q) (xs : list Q) :
  (forall x, In x xs -> x <= hi)%Q -> (total xs <= hi * len xs)%Q.
Proof.
  induction xs as [|x xs IH]; intros H.
  - change (len (@nil Q)) with 0%Q. simpl total. lra.
  - assert (Hx : (x <= hi)%Q) by (apply H; now left).
    assert (IH' : (total xs <= hi * len xs)%Q) by (apply IH; intros y Hy; apply H; now right).
    rewrite len_cons. simpl total. lra.
Qed.

Lemma total_lower (lo : Q) (xs : list Q) :
  (forall x, In x xs -> lo <= x)%Q -> (lo * len xs <= total xs)%Q.
Proof.
  induction xs as [|x xs IH]; intros H.
  - change (len (@nil Q)) with 0%Q. simpl total. lra.
  - assert (Hx : (lo <= x)%Q) by (apply H; now left).
    assert (IH' : (lo * len xs <= total xs)%Q) by (apply IH; intros y Hy; apply H; now right).
    rewrite len_cons. simpl total. lra.
Qed.

(** The mean of a non-empty list lies between any bounds of its
    elements. *)
Lemma mean_upper (hi : Q) (x : Q) (xs : list Q) :
  (forall y, In y (x :: xs) -> y <= hi)%Q ->
  (sum (x :: xs) / len (x :: xs) <= hi)%Q.
Proof.
  intros H. rewrite sum_total.
  apply Qle_shift_div_r; [apply len_pos | now apply total_upper].
Qed.

Lemma mean_lower (lo : Q) (x : Q) (xs : list Q) :
  (forall y, In y (x :: xs) -> lo <= y)%Q ->
  (lo <= sum (x :: xs) / len (x :: xs))%Q.
Proof.
  intros H. rewrite sum_total.
  apply Qle_shift_div_l; [apply len_pos | now apply total_lower].
Qed.

Lemma score_of_distance_bounds (d : Q) :
  ((0 <= d -> score_of_distance d <= 1) /\
   (d <= 10 -> 0 <= score_of_distance d))%Q.
Proof.
  unfold score_of_distance, Qdiv. change (/ 10)%Q with (1 # 10)%Q. split; intros; lra.
Qed.

Section Ranges.
Context {U : Unicode} {env : Env}.

Lemma syntax_values (sql : pystr) : In (_evaluate_syntax sql) [0; 3 # 10; 1 # 2; 1]%Q.
Proof.
  unfold _evaluate_syntax.
  destruct (eqb sql [] || eqb (strip sql) []); [now left|].
  destruct (negb _); [now left|].
  destruct (negb _); [now do 2 right; left|].
  destruct (_ >? _)%Z; [now right; left | now do 3 right; left].
Qed.

Lemma exact_match_values (gen gt : pystr) : In (_evaluate_exact_match gen gt) [0; 1]%Q.
Proof.
  unfold _evaluate_exact_match. destruct (eqb _ _); [now right; left | now left].
Qed.

Lemma semantic_similarity_range gen gt w s w' :
  (forall a b x, tfidf_cosine a b = Ok x -> (0 <= x <= 1)%Q) ->
  _evaluate_semantic_similarity gen gt w = (Ok s, w') -> (0 <= s <= 1)%Q.
Proof.
  intros Hcos Hrun. unfold _evaluate_semantic_similarity in Hrun.
  apply bind_ok_inv in Hrun as ([] & w1 & _ & Hrun).
  destruct (eqb _ [] || eqb _ []).
  - apply ret_inv in Hrun as [-> _]. split; [apply Qle_refl | discriminate].
  - unfold try_except, lift, ret in Hrun.
    destruct (tfidf_cosine _ _) as [x|e] eqn:E.
    + injection Hrun as <- _. now apply (Hcos _ _ _ E).
    + injection Hrun as <- _. split; [apply Qle_refl | discriminate].
Qed.

(** C3 (amended): every record produced by [evaluate_single_example]
    has syntax_accuracy in {0.0, 0.3, 0.5, 1.0}, execution_accuracy in
    {0.0, 0.5, 1.0} and exact_match in {0.0, 1.0}; semantic_similarity
    lies in [0,1] provided the cosine that the vectoriser returns does;
    retrieval_quality is at most 1 when the distances returned for the
    question are non-negative, and lies in [0,1] when they lie in
    [0,10]. *)
Theorem C3_scores_in_range_amended rag q gt db w r w'
    (Hrun : evaluate_single_example rag q gt db w = (Ok r, w'))
    (Hcos : forall a b x, tfidf_cosine a b = Ok x -> (0 <= x <= 1)%Q) :
  In (syntax_accuracy r) [0; 3 # 10; 1 # 2; 1]%Q /\
  In (execution_accuracy r) [0; 1 # 2; 1]%Q /\
  In (exact_match r) [0; 1]%Q /\
  (0 <= semantic_similarity r <= 1)%Q /\
  (forall e answer,
     embed_query q = Ok e ->
     collection_query (w_collection w) [e] default_n_results = Ok answer ->
     ((forall d, In d (hits (qr_distances answer)) -> 0 <= d)%Q ->
      (retrieval_quality r <= 1)%Q) /\
     ((forall d, In d (hits (qr_distances answer)) -> 0 <= d <= 10)%Q ->
      (0 <= retrieval_quality r <= 1)%Q)).
Proof.
  unfold evaluate_single_example in Hrun.
  apply bind_ok_inv in Hrun as (gen & w1 & Hgen & Hrun).
  apply bind_ok_inv in Hrun as (ex & w2 & Hex & Hrun).
  apply bind_ok_inv in Hrun as (sem & w3 & Hsem & Hrun).
  apply bind_ok_inv in Hrun as (rq & w4 & Hrq & Hrun).
  apply ret_inv in Hrun as [-> ->].
  cbn [syntax_accuracy execution_accuracy exact_match semantic_similarity
       retrieval_quality].
  split; [apply syntax_values|].
  split.
  { assert (H0 : In 0%Q [0; 1 # 2; 1]%Q) by now left.
    destruct db as [url|]; [|apply ret_inv in Hex as [-> _]; exact H0].
    destruct (truthy (Some url) && negb (Qle_bool (_evaluate_syntax gen) 0));
      [|apply ret_inv in Hex as [-> _]; exact H0].
    destruct (execution_accuracy_total gen gt url w1) as (s & w5 & E & Hs).
    rewrite E in Hex. now injection Hex as <- _. }
  split; [apply exact_match_values|].
  split; [now apply (semantic_similarity_range _ _ _ Hcos Hsem)|].
  intros e answer He Hq.
  (* the collection is the one the call started with *)
  assert (Hcoll : w_collection w3 = w_collection w).
  { pose proof (@preserves_run _ _ w_collection _ _ _ _ _
                  (semantic_keeps w_collection gen gt) Hsem) as E3.
    assert (E2 : w_collection w2 = w_collection w1).
    { destruct db as [url|]; [|now apply ret_inv in Hex as [_ ->]].
      destruct (truthy (Some url) && negb (Qle_bool (_evaluate_syntax gen) 0));
        [|now apply ret_inv in Hex as [_ ->]].
      apply (@preserves_run _ _ w_collection _ _ _ _ _
               (execution_keeps_collection gen gt url) Hex). }
    pose proof (@preserves_run _ _ w_collection _ _ _ _ _
                  (generate_sql_keeps_collection rag q None) Hgen) as E1.
    congruence. }
  rewrite <- Hcoll in Hq.
  unfold _evaluate_retrieval_quality in Hrq.
  erewrite bind_ok in Hrq by exact (retrieve_context_run rag q _ w3 He Hq).
  destruct (hits (qr_distances answer)) as [|d ds] eqn:Ed.
  - apply ret_inv in Hrq as [-> _]. split; intros _; [discriminate|].
    split; [apply Qle_refl | discriminate].
  - assert (Hrq' : lift (truediv (sum (score_of_distance d :: map score_of_distance ds))
                                 (len (score_of_distance d :: map score_of_distance ds)))
                        w3 = (Ok rq, w4)) by exact Hrq.
    clear Hrq. unfold lift in Hrq'. rewrite truediv_len in Hrq'.
    injection Hrq' as <- _.
    assert (Hin : forall y, In y (score_of_distance d :: map score_of_distance ds) ->
                            exists z, y = score_of_distance z /\ In z (d :: ds)).
    { intros y Hy. change (In y (map score_of_distance (d :: ds))) in Hy.
      apply in_map_iff in Hy as (z & <- & Hz). now exists z. }
    split; intros Hd.
    + apply mean_upper. intros y Hy. apply Hin in Hy as (z & -> & Hz).
      now apply score_of_distance_bounds, Hd.
    + split.
      * apply mean_lower. intros y Hy. apply Hin in Hy as (z & -> & Hz).
        now apply score_of_distance_bounds, Hd.
      * apply mean_upper. intros y Hy. apply Hin in Hy as (z & -> & Hz).
        now apply score_of_distance_bounds, Hd.
Qed.

End Ranges.

Section Ragas.
Context {env : Env}.
Import RAGAS.

Lemma ragas_handler rag cases w e w1 :
  ragas_attempt rag cases w = (Raise e, w1) ->
  fst (evaluate_with_ragas rag cases w) = Ok fallback_scores.
Proof. intros H. unfold evaluate_with_ragas, try_except. now rewrite H. Qed.

(** C8: whenever the framework call inside [evaluate_with_ragas] raises
    (the import of the framework, the preparation of its dataset, or its
    [evaluate] entry point), the method returns exactly the mapping
    faithfulness 0.7, answer_relevancy 0.6, context_recall 0.8,
    context_precision 0.75, whatever the test set; and the method itself
    never raises. *)
Theorem C8_ragas_fallback rag cases w :
  (forall e, import_ragas = Raise e ->
             fst (evaluate_with_ragas rag cases w) = Ok fallback_scores) /\
  (forall e w1, import_ragas = Ok tt ->
                prepare_ragas_dataset rag cases w = (Raise e, w1) ->
                fst (evaluate_with_ragas rag cases w) = Ok fallback_scores) /\
  (forall dataset e w1, import_ragas = Ok tt ->
                        prepare_ragas_dataset rag cases w = (Ok dataset, w1) ->
                        ragas_evaluate dataset = Raise e ->
                        fst (evaluate_with_ragas rag cases w) = Ok fallback_scores) /\
  (exists scores, fst (evaluate_with_ragas rag cases w) = Ok scores).
Proof.
  split; [|split; [|split]].
  - intros e H. apply (@ragas_handler rag cases w e w).
    unfold ragas_attempt, bind, lift. now rewrite H.
  - intros e w1 Hi Hp. apply (@ragas_handler rag cases w e w1).
    unfold ragas_attempt, bind, lift. now rewrite Hi, Hp.
  - intros dataset e w1 Hi Hp He. apply (@ragas_handler rag cases w e w1).
    unfold ragas_attempt, bind, lift. now rewrite Hi, Hp, He.
  - unfold evaluate_with_ragas, try_except.
    destruct (ragas_attempt rag cases w) as [[scores | e] w1].
    + now exists scores.
    + now exists fallback_scores.
Qed.

End Ragas.

Section Batch.
Context {U : Unicode} {env : Env}.
Import Lightweight.

(** C10: on an empty test set [evaluate_batch] returns accuracy 0.0 and
    an empty list of results; the division by the number of cases is
    guarded, so that whenever the loop over the cases completes the call
    returns, with an accuracy that is the fraction of valid cases. *)
Theorem C10_evaluate_batch_empty w :
  evaluate_batch [] w = (Ok (0%Q, []), w) /\
  (forall cases results valid_count w1,
     batch_loop cases [] 0 w = (Ok (results, valid_count), w1) ->
     exists accuracy,
       evaluate_batch cases w = (Ok (accuracy, results), w1) /\
       (accuracy * inject_Z (Z.of_nat (length cases)) ==
        inject_Z (Z.of_nat valid_count))%Q).
Proof.
  split; [reflexivity|].
  intros cases results valid_count w1 Hloop.
  unfold evaluate_batch. erewrite bind_ok by exact Hloop. cbv beta iota.
  destruct cases as [|case rest].
  - simpl in Hloop. apply ret_inv in Hloop as [E ->]. injection E as -> ->.
    exists 0%Q. split; [reflexivity|]. simpl. ring.
  - exists (inject_Z (Z.of_nat valid_count) / len (case :: rest))%Q. split.
    + unfold bind, lift, ret.
      now rewrite truediv_len.
    + change (inject_Z (Z.of_nat (length (case :: rest)))) with (len (case :: rest)).
      field. intros H. pose proof (len_pos case rest) as Hp. rewrite H in Hp.
      now apply Qlt_irrefl in Hp.
Qed.

End Batch.

(** ** The language tag after the opening fence *)












(** * The ASCII-only tables satisfy the laws *)

Lemma isspace_in c : isspace c = true -> In c whitespace.
Proof.
  unfold isspace. intros H. apply existsb_exists in H as (x & Hx & E).
  apply N.eqb_eq in E. now subst.
Qed.

Lemma ascii_upper_ascii : upper_ascii_law ascii_unicode.
Proof. intros c _. reflexivity. Qed.

Lemma ascii_upper_space : upper_space_law ascii_unicode.
Proof.
  intros c Hc. simpl. unfold ascii_upper.
  destruct ((97 <=? c) && (c <=? 122))%N eqn:E; [|reflexivity].
  exfalso. apply isspace_in in Hc. unfold whitespace in Hc. simpl in Hc.
  repeat (destruct Hc as [<- | Hc]; [discriminate E|]). exact Hc.
Qed.

Lemma ascii_upper_nonspace : upper_nonspace_law ascii_unicode.
Proof.
  intros c Hc. split; [discriminate|]. simpl. rewrite andb_true_r.
  unfold ascii_upper.
  destruct ((97 <=? c) && (c <=? 122))%N eqn:E; [|now rewrite Hc].
  apply andb_true_iff in E as [E1 E2]. apply N.leb_le in E1, E2.
  destruct (isspace (c - 32)) eqn:Es; [|reflexivity].
  exfalso. apply isspace_in in Es. unfold whitespace in Es. simpl in Es.
  repeat (destruct Es as [Es | Es]; [lia|]). exact Es.
Qed.

Lemma ascii_upper_idem : upper_idem_law ascii_unicode.
Proof.
  intros c. unfold upper. simpl. f_equal. unfold ascii_upper.
  destruct ((97 <=? c) && (c <=? 122))%N eqn:E; [|now rewrite E].
  apply andb_true_iff in E as [E1 E2]. apply N.leb_le in E1, E2.
  destruct ((97 <=? c - 32) && (c - 32 <=? 122))%N eqn:E'; [|reflexivity].
  apply andb_true_iff in E' as [E3 _]. apply N.leb_le in E3. lia.
Qed.

Lemma ascii_upper_symbols : upper_symbols_law ascii_unicode.
Proof.
  intros c x Hin _ Hl. simpl in Hin. destruct Hin as [<- | []].
  unfold ascii_upper in *.
  destruct ((97 <=? c) && (c <=? 122))%N eqn:E; [|reflexivity].
  exfalso. apply andb_true_iff in E as [E1 E2]. apply N.leb_le in E1, E2.
  unfold ascii_letter in Hl.
  assert (H1 : (65 <=? c - 32)%N = true) by (apply N.leb_le; lia).
  assert (H2 : (c - 32 <=? 90)%N = true) by (apply N.leb_le; lia).
  rewrite H1, H2 in Hl. discriminate.
Qed.

(** * The model at work *)

Example syntax_lowercase_keywords :
  @_evaluate_syntax ascii_unicode (py "select a from t where (b = 1)") = 1%Q.
Proof. vm_compute. reflexivity. Qed.

Example syntax_unbalanced_skips_order_check :
  @_evaluate_syntax ascii_unicode (py "FROM t SELECT (a") = (1 # 2)%Q.
Proof. vm_compute. reflexivity. Qed.

Example exact_match_ignores_case_and_quotes :
  @_evaluate_exact_match ascii_unicode
    (py "select `a`  from t/* all */") (py "SELECT a FROM t ") = 1%Q.
Proof. vm_compute. reflexivity. Qed.

(** The space before a trailing comment outlives the comment. *)
Example exact_match_keeps_space_before_comment :
  @_evaluate_exact_match ascii_unicode
    (py "select a from t /* all */") (py "SELECT a FROM t") = 0%Q.
Proof. vm_compute. reflexivity. Qed.

(** A fence without any tag is removed like one with the tag [sql]. *)
Example clean_without_tag :
  _clean_sql_output (FENCE ++ [NL] ++ py "SELECT 1" ++ [NL] ++ FENCE) = py "SELECT 1".
Proof. vm_compute. reflexivity. Qed.

Example empty_index_scores_zero :
  fst (@_evaluate_retrieval_quality (stub_env empty_index (Ok fenced_reply)) rag
         QUESTION [] (@mkWorld (stub_env empty_index (Ok fenced_reply)) [] tt []))
  = Ok 0%Q.
Proof. vm_compute. reflexivity. Qed.

Example ingestion_prints_the_count :
  exists w', @train_rag_model demo_env rag [py "schema.sql"] [py "notes.txt"] []
               demo_world = (Ok tt, w') /\
             last (w_trace w') (Printed []) = Printed (py "成功导入 3 条知识条目").
Proof. eexists. split; vm_compute; reflexivity. Qed.

Example missing_file_stops_ingestion :
  @train_rag_model demo_env rag [py "nowhere.sql"] [] [] demo_world
  = (Raise (Exception (py "No such file or directory")), demo_world).
Proof. vm_compute. reflexivity. Qed.

(** * Counterexamples *)

(** C2, as stated, fails: a quote between two spaces leaves a double
    space behind, which only a second pass collapses:
    normalize("a ' b") is "A  B", and normalize("A  B") is "A B". *)
Lemma C2_normalize_not_idempotent :
  @normalize_sql ascii_unicode (py "a ' b") = py "A  B" /\
  @normalize_sql ascii_unicode (@normalize_sql ascii_unicode (py "a ' b")) = py "A B" /\
  @normalize_sql ascii_unicode (@normalize_sql ascii_unicode (py "a ' b"))
  <> @normalize_sql ascii_unicode (py "a ' b").
Proof.
  split; [vm_compute; reflexivity|]. split; [vm_compute; reflexivity|].
  vm_compute. discriminate.
Qed.

(** The same holds whatever the case tables do outside ASCII. *)
Lemma normalize_not_idempotent_any_tables (U : Unicode) :
  upper_ascii_law U ->
  normalize_sql (normalize_sql (py "a ' b")) <> normalize_sql (py "a ' b").
Proof.
  intros HU.
  assert (E1 : normalize_sql (py "a ' b") = py "A  B").
  { unfold normalize_sql. rewrite (upper_ascii_b _ HU) by (vm_compute; reflexivity).
    vm_compute. reflexivity. }
  assert (E2 : normalize_sql (py "A  B") = py "A B").
  { unfold normalize_sql. rewrite (upper_ascii_b _ HU) by (vm_compute; reflexivity).
    vm_compute. reflexivity. }
  rewrite E1, E2. vm_compute. discriminate.
Qed.

(** C3, as stated, fails: when the index answers with the distance 25,
    the record holds retrieval_quality -1.5. *)
Lemma C3_retrieval_quality_negative :
  exists r w',
    @evaluate_single_example ascii_unicode far_env rag QUESTION
      (py "SELECT * FROM inventory_logs") None far_world = (Ok r, w') /\
    (retrieval_quality r == -(3 # 2))%Q /\
    ~ (0 <= retrieval_quality r <= 1)%Q.
Proof.
  eexists _, _. split; [vm_compute; reflexivity|].
  split; [reflexivity|]. intros [H _]. vm_compute in H. now apply H.
Qed.

(** C4, as stated, fails: the snippet of a documentation file carries
    the type label [documentation] and an id that starts with [doc]. *)
Lemma C4_documentation_id_prefix :
  exists args w',
    @train_rag_model demo_env rag [] [py "notes.txt"] [] demo_world = (Ok tt, w') /\
    w_collection w' = [args] /\
    add_metadatas args = [mkMetadata (py "documentation") (py "notes.txt")] /\
    add_ids args = [py "doc_notes.txt_0"] /\
    add_ids args <> [py "documentation_notes.txt_0"].
Proof.
  eexists _, _. split; [vm_compute; reflexivity|].
  split; [reflexivity|]. split; [reflexivity|]. split; [reflexivity|].
  vm_compute. discriminate.
Qed.


(** * Instances of the theorems *)

(** The syntax scorer on the ASCII tables. *)
Lemma C1_witness :
  upper_ascii_law ascii_unicode /\ upper_space_law ascii_unicode /\
  @_evaluate_syntax ascii_unicode (py "FROM t SELECT a") = (3 # 10)%Q.
Proof.
  split; [exact ascii_upper_ascii|]. split; [exact ascii_upper_space|].
  exact (proj2 (proj2 (proj2 (proj2
    (@C1_evaluate_syntax_priority ascii_unicode ascii_upper_ascii ascii_upper_space))))).
Defined.

(** A query spread over two lines, without quotes or comments. *)
Lemma C2_witness :
  @normalize_sql ascii_unicode
    (@normalize_sql ascii_unicode (py "select  a" ++ [NL] ++ py " from t"))
  = @normalize_sql ascii_unicode (py "select  a" ++ [NL] ++ py " from t").
Proof.
  apply (proj1 (@C2_normalize_idempotent_amended ascii_unicode ascii_upper_ascii
                  ascii_upper_space ascii_upper_nonspace ascii_upper_idem
                  ascii_upper_symbols)).
  - intros c Hc. vm_compute in Hc.
    repeat (destruct Hc as [<- | Hc]; [reflexivity|]). destruct Hc.
  - intros H. apply contains_spec in H. vm_compute in H. discriminate.
Defined.

(** With both hits within distance 10 the retrieval quality is in range. *)
Lemma C3_witness :
  exists r w',
    @evaluate_single_example ascii_unicode demo_env rag QUESTION
      (py "SELECT id FROM users") (Some (py "sqlite://")) demo_world = (Ok r, w') /\
    (0 <= retrieval_quality r <= 1)%Q.
Proof.
  assert (Hrun : exists r w',
             @evaluate_single_example ascii_unicode demo_env rag QUESTION
               (py "SELECT id FROM users") (Some (py "sqlite://")) demo_world
             = (Ok r, w'))
    by (eexists _, _; vm_compute; reflexivity).
  destruct Hrun as (r & w' & Hrun). exists r, w'. split; [exact Hrun|].
  assert (Hcos : forall a b x, @tfidf_cosine demo_env a b = Ok x -> (0 <= x <= 1)%Q).
  { intros a b x. simpl. destruct (eqb a b); intros [= <-]; split; discriminate. }
  destruct (@C3_scores_in_range_amended ascii_unicode demo_env rag QUESTION
              (py "SELECT id FROM users") (Some (py "sqlite://")) demo_world r w'
              Hrun Hcos) as (_ & _ & _ & _ & H).
  destruct (H tt near eq_refl eq_refl) as [_ H2]. apply H2.
  intros d Hd. simpl in Hd. destruct Hd as [<- | [<- | []]]; split; discriminate.
Defined.

(** The ids given to the lines of the two stub files; line 1 of the
    schema is blank. *)
Lemma C4_witness :
  exists p, @collect demo_env [py "schema.sql"] [py "notes.txt"] [] demo_world
            = (Ok p, demo_world) /\
            ids p = [py "ddl_schema.sql_0"; py "ddl_schema.sql_2"; py "doc_notes.txt_0"].
Proof.
  assert (Hrun : exists w', @train_rag_model demo_env rag [py "schema.sql"]
                              [py "notes.txt"] [] demo_world = (Ok tt, w'))
    by (eexists; vm_compute; reflexivity).
  destruct Hrun as (w' & Hrun).
  destruct (@C4_snippet_ids_amended demo_env rag _ _ _ _ _ Hrun)
    as (p & batches & Hcollect & _).
  exists p. split; [exact Hcollect|].
  vm_compute in Hcollect. injection Hcollect as <-. reflexivity.
Defined.


(** Two result sets of two rows that differ in the second row. *)
Lemma C6_witness :
  fst (@_evaluate_execution_accuracy demo_env (py "SELECT * FROM inventory_logs")
         (py "SELECT id FROM users") (py "sqlite://") demo_world) = Ok (1 # 2)%Q.
Proof.
  destruct (@C6_execution_score ascii_unicode demo_env rag QUESTION
              (py "SELECT id FROM users") demo_world) as (_ & _ & H).
  destruct (H (py "SELECT * FROM inventory_logs") (py "sqlite://")) as (_ & _ & _ & H3).
  destruct (H3 [[1%N]; [3%N]] [[1%N]; [2%N]]) as (_ & H5 & _).
  - now apply (@both_ran demo_env _ _ _ demo_world _ _ tt tt tt tt).
  - apply H5; [reflexivity|]. exists 1, [3%N], [2%N]. now repeat split.
Defined.


(** RAGAS is not installed in the stub environment. *)
Lemma C8_witness :
  fst (@RAGAS.evaluate_with_ragas demo_env rag [mkTestCase QUESTION (py "SELECT 1")]
         demo_world) = Ok fallback_scores.
Proof.
  apply (proj1 (@C8_ragas_fallback demo_env rag _ demo_world)
           (Exception (py "No module named 'ragas'"))).
  reflexivity.
Defined.

(** The mean of the scores 0.8 and 0.5. *)
Lemma C9_witness :
  exists m w',
    @_evaluate_retrieval_quality demo_env rag QUESTION (py "SELECT 1") demo_world
    = (Ok m, w') /\ (m == 13 # 20)%Q.
Proof.
  destruct (@C9_retrieval_quality_is_mean demo_env rag QUESTION (py "SELECT 1")
              demo_world _ _ demo_world eq_refl) as (m & Hrun & _ & Hmean).
  exists m, demo_world. split; [exact Hrun|]. rewrite Hmean; [reflexivity | discriminate].
Defined.

(** A batch of one case, judged valid. *)
Lemma C10_witness :
  exists accuracy results w',
    @Lightweight.evaluate_batch ascii_unicode demo_env
      [Lightweight.mkBatchCase QUESTION (py "SELECT 1") (py "t(a)") None] demo_world
    = (Ok (accuracy, results), w') /\ (accuracy == 1)%Q.
Proof.
  assert (Hloop : exists results w',
             @Lightweight.batch_loop ascii_unicode demo_env
               [Lightweight.mkBatchCase QUESTION (py "SELECT 1") (py "t(a)") None]
               [] 0 demo_world = (Ok (results, 1), w'))
    by (eexists _, _; vm_compute; reflexivity).
  destruct Hloop as (results & w' & Hloop).
  destruct (proj2 (@C10_evaluate_batch_empty ascii_unicode demo_env demo_world)
              _ _ _ _ Hloop) as (accuracy & Hrun & Hacc).
  exists accuracy, results, w'. split; [exact Hrun|].
  simpl in Hacc. rewrite <- Hacc. ring.
Defined.

Import EmbeddingFunction Comprehensive Scenarios Observations.

(* ================================================================== *)
(** * Further properties of the code *)
(* ================================================================== *)

(** ** Which failures generation and evaluation swallow *)

Section MoreMonadFacts.
Context {env : Env}.

Lemma bind_raise_inv {A B} (c : M A) (k : A -> M B) w e w' :
  bind c k w = (Raise e, w') ->
  c w = (Raise e, w') \/ exists a w1, c w = (Ok a, w1) /\ k a w1 = (Raise e, w').
Proof.
  unfold bind. destruct (c w) as [[a|e0] w1]; intros H.
  - right. exists a, w1. auto.
  - left. inversion H. reflexivity.
Qed.

Lemma try_except_ok {A} (c : M A) (h : exn -> M A) w a w1 :
  c w = (Ok a, w1) -> try_except c h w = (Ok a, w1).
Proof. unfold try_except. intros ->. reflexivity. Qed.

Lemma try_except_raise {A} (c : M A) (h : exn -> M A) w e w1 :
  c w = (Raise e, w1) -> try_except c h w = h e w1.
Proof. unfold try_except. intros ->. reflexivity. Qed.

End MoreMonadFacts.

Lemma clean_is_stripped (s : pystr) :
  strip (_clean_sql_output s) = _clean_sql_output s.
Proof. unfold _clean_sql_output. apply strip_idem. Qed.

Section Generation.
Context {env : Env}.

(** The world after the diagnostic of a failed generation. *)
Lemma generate_sql_supplied rag q contexts w :
  import_ollama = Ok tt ->
  generate_sql rag q (Some contexts) w =
  match ollama_generate (model_name rag) (_build_prompt q contexts) with
  | Ok response => (Ok (_clean_sql_output (strip response)), w)
  | Raise e =>
      (Ok [], mkWorld (w_collection w) (w_db w)
                (w_trace w ++ [Printed (py "SQL生成错误: " ++ str_of_exn e)]))
  end.
Proof.
  intros Himport. unfold generate_sql, bind, lift, try_except, ret, print, emit.
  rewrite Himport.
  destruct (ollama_generate (model_name rag) (_build_prompt q contexts)); reflexivity.
Qed.

Lemma generate_sql_retrieved rag q w e qr :
  import_ollama = Ok tt ->
  embed_query q = Ok e ->
  collection_query (w_collection w) [e] default_n_results = Ok qr ->
  generate_sql rag q None w = generate_sql rag q (Some (hits (qr_documents qr))) w.
Proof.
  intros Himport Hembed Hquery.
  unfold generate_sql. unfold bind at 1 3. unfold lift at 1 3. rewrite Himport.
  unfold bind at 1 4.
  pose proof (retrieve_context_run rag q default_n_results w Hembed Hquery) as Hr.
  unfold bind at 1. rewrite Hr. reflexivity.
Qed.

Lemma generate_sql_raise_inv rag q w ex w' :
  generate_sql rag q None w = (Raise ex, w') ->
  w' = w /\
  (import_ollama = Raise ex \/ embed_query q = Raise ex \/
   exists e, embed_query q = Ok e /\
             collection_query (w_collection w) [e] default_n_results = Raise ex).
Proof.
  unfold generate_sql, retrieve_context, query_collection,
    bind, lift, try_except, ret, print, emit.
  destruct import_ollama as [[]|e0].
  2:{ intros H. inversion H. subst. split; [reflexivity|]. left. reflexivity. }
  destruct (embed_query q) as [e|e0].
  2:{ intros H. inversion H. subst. split; [reflexivity|]. right. left. reflexivity. }
  destruct (collection_query (w_collection w) [e] default_n_results)
    as [qr|e0] eqn:Hq.
  2:{ intros H. inversion H. subst. split; [reflexivity|].
      right. right. exists e. split; [reflexivity|exact Hq]. }
  match goal with
  | |- context [ollama_generate ?m ?p] => destruct (ollama_generate m p)
  end; intros H; discriminate H.
Qed.

(** X1. Once [import ollama] has succeeded and the contexts are supplied,
    [generate_sql] cannot raise, whatever the embedding function and the
    index do: it returns the cleaned reply and leaves the world alone;
    when the endpoint raises it prints one diagnostic and returns the
    empty string.  What it returns has no leading or trailing
    whitespace. *)
Theorem X1_generate_sql_swallows_endpoint_failure rag q contexts w
    (Himport : import_ollama = Ok tt) :
  let prompt := _build_prompt q contexts in
  (forall response,
     ollama_generate (model_name rag) prompt = Ok response ->
     generate_sql rag q (Some contexts) w =
     (Ok (_clean_sql_output (strip response)), w)) /\
  (forall e,
     ollama_generate (model_name rag) prompt = Raise e ->
     generate_sql rag q (Some contexts) w =
     (Ok [], mkWorld (w_collection w) (w_db w)
               (w_trace w ++ [Printed (py "SQL生成错误: " ++ str_of_exn e)]))) /\
  (exists sql w',
     generate_sql rag q (Some contexts) w = (Ok sql, w') /\ strip sql = sql).
Proof.
  intros prompt. pose proof (generate_sql_supplied rag q contexts w Himport) as H.
  fold prompt in H.
  split; [|split].
  - intros response Hr. rewrite H, Hr. reflexivity.
  - intros e Hr. rewrite H, Hr. reflexivity.
  - rewrite H. destruct (ollama_generate (model_name rag) prompt) as [response|e].
    + eexists. eexists. split; [reflexivity|]. apply clean_is_stripped.
    + eexists. eexists. split; [reflexivity|]. reflexivity.
Qed.

End Generation.

Section EvaluationFailures.
Context {U : Unicode} {env : Env}.

Lemma semantic_similarity_cases gen gt w :
  (exists e, import_sklearn = Raise e /\
             _evaluate_semantic_similarity gen gt w = (Raise e, w)) \/
  (import_sklearn = Ok tt /\
   exists s, _evaluate_semantic_similarity gen gt w = (Ok s, w)).
Proof.
  unfold _evaluate_semantic_similarity, bind, lift, try_except, ret.
  destruct import_sklearn as [[]|e].
  - right. split; [reflexivity|].
    destruct (eqb (extract_sql_elements gen) [] || eqb (extract_sql_elements gt) []).
    + eexists. reflexivity.
    + destruct (tfidf_cosine (extract_sql_elements gen) (extract_sql_elements gt));
        eexists; reflexivity.
  - left. exists e. auto.
Qed.

Lemma retrieval_quality_returns rag q sql w e qr :
  embed_query q = Ok e ->
  collection_query (w_collection w) [e] default_n_results = Ok qr ->
  exists m, _evaluate_retrieval_quality rag q sql w = (Ok m, w).
Proof.
  intros Hembed Hquery. unfold _evaluate_retrieval_quality.
  unfold bind. rewrite (retrieve_context_run rag q default_n_results w Hembed Hquery).
  destruct (map score_of_distance (hits (qr_distances qr))) as [|s ss].
  - eexists. reflexivity.
  - unfold lift. rewrite truediv_len. eexists. reflexivity.
Qed.

Lemma retrieval_quality_raise_inv rag q sql w ex w' :
  _evaluate_retrieval_quality rag q sql w = (Raise ex, w') ->
  embed_query q = Raise ex \/
  exists e, embed_query q = Ok e /\
            collection_query (w_collection w) [e] default_n_results = Raise ex.
Proof.
  unfold _evaluate_retrieval_quality, retrieve_context, query_collection,
    bind, lift, ret.
  destruct (embed_query q) as [e|e0].
  2:{ intros H. inversion H. left. reflexivity. }
  destruct (collection_query (w_collection w) [e] default_n_results)
    as [qr|e0] eqn:Hq.
  2:{ intros H. inversion H. subst. right. exists e. split; [reflexivity|exact Hq]. }
  destruct (match qr_distances qr with
            | Some (first :: _) => map score_of_distance first
            | _ => []
            end) as [|s ss].
  - intros H. discriminate H.
  - rewrite truediv_len. intros H. discriminate H.
Qed.

Lemma execution_step_total gen gt db w :
  exists s w', execution_step gen gt db w = (Ok s, w') /\
               w_collection w' = w_collection w.
Proof.
  unfold execution_step. destruct db as [url|].
  - destruct (truthy (Some url) && negb (Qle_bool (_evaluate_syntax gen) 0)).
    + destruct (execution_accuracy_total gen gt url w) as (s & w' & H & _).
      exists s, w'. split; [exact H|].
      pose proof (execution_keeps_collection gen gt url w) as Hk.
      rewrite H in Hk. exact Hk.
    + exists 0%Q, w. auto.
  - exists 0%Q, w. auto.
Qed.

Lemma evaluate_single_example_steps rag q gt db :
  evaluate_single_example rag q gt db =
  (generated <- generate_sql rag q None ;;
   exec_score <- execution_step generated gt db ;;
   semantic <- _evaluate_semantic_similarity generated gt ;;
   retrieval <- _evaluate_retrieval_quality rag q generated ;;
   ret (mkRecord q generated gt (_evaluate_syntax generated) exec_score
          (_evaluate_exact_match generated gt) semantic retrieval)).
Proof. reflexivity. Qed.

Lemma evaluate_single_example_returns rag q gt db w e qr :
  import_ollama = Ok tt -> import_sklearn = Ok tt ->
  embed_query q = Ok e ->
  collection_query (w_collection w) [e] default_n_results = Ok qr ->
  exists r w', evaluate_single_example rag q gt db w = (Ok r, w').
Proof.
  rewrite evaluate_single_example_steps.
  intros Himport Hsk Hembed Hquery.
  assert (Hgen : exists sql w1,
             generate_sql rag q None w = (Ok sql, w1) /\
             w_collection w1 = w_collection w).
  { rewrite (generate_sql_retrieved rag q w Himport Hembed Hquery).
    rewrite (generate_sql_supplied rag q (hits (qr_documents qr)) w Himport).
    destruct (ollama_generate (model_name rag)
                (_build_prompt q (hits (qr_documents qr))));
      eexists; eexists; split; reflexivity. }
  destruct Hgen as (sql & w1 & Hgen & Hc).
  rewrite (bind_ok _ _ _ Hgen).
  destruct (execution_step_total sql gt db w1) as (s & w2 & Hexec & Hc2).
  rewrite (bind_ok _ _ _ Hexec).
  destruct (semantic_similarity_cases sql gt w2) as [(e0 & He0 & _)|(_ & sem & Hsem)].
  { rewrite Hsk in He0. discriminate He0. }
  rewrite (bind_ok _ _ _ Hsem).
  assert (Hq2 : collection_query (w_collection w2) [e] default_n_results = Ok qr).
  { rewrite Hc2, Hc. exact Hquery. }
  destruct (retrieval_quality_returns rag q sql w2 Hembed Hq2) as (m & Hm).
  rewrite (bind_ok _ _ _ Hm).
  eexists. eexists. reflexivity.
Qed.

Lemma evaluate_single_example_raise_inv rag q gt db w ex w' :
  evaluate_single_example rag q gt db w = (Raise ex, w') ->
  import_ollama = Raise ex \/ import_sklearn = Raise ex \/
  embed_query q = Raise ex \/
  exists e, embed_query q = Ok e /\
            collection_query (w_collection w) [e] default_n_results = Raise ex.
Proof.
  rewrite evaluate_single_example_steps.
  intros H.
  apply bind_raise_inv in H. destruct H as [H|(sql & w1 & Hgen & H)].
  { apply generate_sql_raise_inv in H. destruct H as (_ & [H|[H|H]]); auto. }
  pose proof (generate_sql_keeps_collection rag q None w) as Hc.
  rewrite Hgen in Hc. simpl in Hc.
  apply bind_raise_inv in H. destruct H as [H|(s & w2 & Hexec & H)].
  { destruct (execution_step_total sql gt db w1) as (s & w2 & Hexec & _).
    rewrite Hexec in H. discriminate H. }
  assert (Hc2 : w_collection w2 = w_collection w1).
  { destruct (execution_step_total sql gt db w1) as (s' & w2' & Hexec' & Hk).
    rewrite Hexec in Hexec'. inversion Hexec'. subst. exact Hk. }
  apply bind_raise_inv in H. destruct H as [H|(sem & w3 & Hsem & H)].
  { destruct (semantic_similarity_cases sql gt w2) as [(e0 & He0 & Hr)|(_ & sem & Hsem)].
    - rewrite Hr in H. inversion H. subst. auto.
    - rewrite Hsem in H. discriminate H. }
  assert (Hw3 : w3 = w2).
  { destruct (semantic_similarity_cases sql gt w2) as [(e0 & He0 & Hr)|(_ & sem' & Hsem')].
    - rewrite Hr in Hsem. discriminate Hsem.
    - rewrite Hsem' in Hsem. inversion Hsem. reflexivity. }
  subst w3.
  apply bind_raise_inv in H. destruct H as [H|(m & w4 & _ & H)].
  2:{ discriminate H. }
  apply retrieval_quality_raise_inv in H.
  rewrite Hc2, Hc in H. destruct H as [H|H]; auto.
Qed.

(** A failed import of ollama, a failed embedding of the question and a
    failed index query make [generate_sql] raise, before anything is
    printed. *)
Lemma generate_sql_raises rag q w ex :
  import_ollama = Raise ex \/
  (import_ollama = Ok tt /\
   (embed_query q = Raise ex \/
    exists e, embed_query q = Ok e /\
              collection_query (w_collection w) [e] default_n_results = Raise ex)) ->
  generate_sql rag q None w = (Raise ex, w).
Proof.
  unfold generate_sql, retrieve_context, query_collection, bind, lift.
  intros [H|(H & [He|(e & He & Hq)])]; rewrite H; [reflexivity| |].
  - rewrite He. reflexivity.
  - rewrite He, Hq. reflexivity.
Qed.

Lemma evaluate_single_example_raises_early rag q gt db w ex :
  import_ollama = Raise ex \/
  (import_ollama = Ok tt /\
   (embed_query q = Raise ex \/
    exists e, embed_query q = Ok e /\
              collection_query (w_collection w) [e] default_n_results = Raise ex)) ->
  evaluate_single_example rag q gt db w = (Raise ex, w).
Proof.
  intros H. rewrite evaluate_single_example_steps.
  apply bind_raise. apply generate_sql_raises. exact H.
Qed.

(** When retrieval works, a failed import of scikit-learn is raised
    after the generation and the execution check have been done. *)
Lemma evaluate_single_example_raises_sklearn rag q gt db w e qr ex :
  import_ollama = Ok tt -> embed_query q = Ok e ->
  collection_query (w_collection w) [e] default_n_results = Ok qr ->
  import_sklearn = Raise ex ->
  exists w', evaluate_single_example rag q gt db w = (Raise ex, w') /\
             w_collection w' = w_collection w.
Proof.
  intros Himport Hembed Hquery Hsk. rewrite evaluate_single_example_steps.
  assert (Hgen : exists sql w1,
             generate_sql rag q None w = (Ok sql, w1) /\
             w_collection w1 = w_collection w).
  { rewrite (generate_sql_retrieved rag q w Himport Hembed Hquery).
    rewrite (generate_sql_supplied rag q (hits (qr_documents qr)) w Himport).
    destruct (ollama_generate (model_name rag)
                (_build_prompt q (hits (qr_documents qr))));
      eexists; eexists; split; reflexivity. }
  destruct Hgen as (sql & w1 & Hgen & Hc).
  rewrite (bind_ok _ _ _ Hgen).
  destruct (execution_step_total sql gt db w1) as (s & w2 & Hexec & Hc2).
  rewrite (bind_ok _ _ _ Hexec).
  destruct (semantic_similarity_cases sql gt w2) as [(e0 & He0 & Hr)|(Hok & _)].
  - rewrite Hsk in He0. injection He0 as <-.
    exists w2. split; [apply bind_raise; exact Hr|].
    rewrite Hc2. exact Hc.
  - rewrite Hsk in Hok. discriminate Hok.
Qed.

(** X2. [evaluate_single_example] returns exactly when the imports of
    ollama and of scikit-learn, the embedding of the question and the
    index query succeed.  The failure of one of these four is raised:
    that of the first three at once, with the world as it was; that of
    scikit-learn after the generation and the execution check, with the
    vector store as it was.  No failure of the generation endpoint, of
    the database engine, of a statement or of the TF-IDF step can make
    it raise, and whatever it raises comes from one of those four. *)
Theorem X2_evaluation_returns_iff_imports_and_retrieval_succeed rag q gt db w :
  ((exists r w', evaluate_single_example rag q gt db w = (Ok r, w')) <->
   (import_ollama = Ok tt /\ import_sklearn = Ok tt /\
    exists e qr, embed_query q = Ok e /\
                 collection_query (w_collection w) [e] default_n_results = Ok qr)) /\
  (forall ex,
     import_ollama = Raise ex ->
     evaluate_single_example rag q gt db w = (Raise ex, w)) /\
  (forall ex,
     import_ollama = Ok tt -> embed_query q = Raise ex ->
     evaluate_single_example rag q gt db w = (Raise ex, w)) /\
  (forall e ex,
     import_ollama = Ok tt -> embed_query q = Ok e ->
     collection_query (w_collection w) [e] default_n_results = Raise ex ->
     evaluate_single_example rag q gt db w = (Raise ex, w)) /\
  (forall e qr ex,
     import_ollama = Ok tt -> embed_query q = Ok e ->
     collection_query (w_collection w) [e] default_n_results = Ok qr ->
     import_sklearn = Raise ex ->
     exists w', evaluate_single_example rag q gt db w = (Raise ex, w') /\
                w_collection w' = w_collection w) /\
  (forall ex w',
     evaluate_single_example rag q gt db w = (Raise ex, w') ->
     import_ollama = Raise ex \/ import_sklearn = Raise ex \/
     embed_query q = Raise ex \/
     exists e, embed_query q = Ok e /\
               collection_query (w_collection w) [e] default_n_results = Raise ex).
Proof.
  split; [split|].
  - intros (r & w' & Hrun).
    destruct import_ollama as [[]|ex] eqn:Himport.
    2:{ rewrite (@evaluate_single_example_raises_early rag q gt db w ex) in Hrun;
          [discriminate Hrun|]. left. exact Himport. }
    destruct (embed_query q) as [e|ex] eqn:Hembed.
    2:{ rewrite (@evaluate_single_example_raises_early rag q gt db w ex) in Hrun;
          [discriminate Hrun|]. right. split; [exact Himport|]. left. exact Hembed. }
    destruct (collection_query (w_collection w) [e] default_n_results)
      as [qr|ex] eqn:Hquery.
    2:{ rewrite (@evaluate_single_example_raises_early rag q gt db w ex) in Hrun;
          [discriminate Hrun|]. right. split; [exact Himport|]. right.
        exists e. split; [exact Hembed|exact Hquery]. }
    destruct import_sklearn as [[]|ex] eqn:Hsk.
    2:{ destruct (@evaluate_single_example_raises_sklearn rag q gt db w e qr ex
                    Himport Hembed Hquery Hsk) as (w2 & Hr & _).
        rewrite Hr in Hrun. discriminate Hrun. }
    split; [reflexivity|]. split; [reflexivity|].
    exists e, qr. split; [first [exact Hembed|reflexivity]|exact Hquery].
  - intros (Himport & Hsk & e & qr & Hembed & Hquery).
    exact (@evaluate_single_example_returns rag q gt db w e qr
             Himport Hsk Hembed Hquery).
  - split; [|split; [|split; [|split]]].
    + intros ex H. apply evaluate_single_example_raises_early. left. exact H.
    + intros ex Himport H. apply evaluate_single_example_raises_early.
      right. split; [exact Himport|]. left. exact H.
    + intros e ex Himport Hembed H. apply evaluate_single_example_raises_early.
      right. split; [exact Himport|]. right. exists e. split; [exact Hembed|exact H].
    + intros e qr ex. apply evaluate_single_example_raises_sklearn.
    + intros ex w'. apply evaluate_single_example_raise_inv.
Qed.

(** X3. When the generation endpoint raises, the example is still
    scored: the generated SQL is the empty string, so syntax and
    execution score 0, no statement reaches the database and the
    vector store is untouched; the one line printed is the diagnostic. *)
Theorem X3_failed_generation_is_scored_zero rag q gt db w e qr ex
    (Himport : import_ollama = Ok tt)
    (Hsklearn : import_sklearn = Ok tt)
    (Hembed : embed_query q = Ok e)
    (Hquery : collection_query (w_collection w) [e] default_n_results = Ok qr)
    (Hdown : ollama_generate (model_name rag)
               (_build_prompt q (hits (qr_documents qr))) = Raise ex) :
  exists r,
    evaluate_single_example rag q gt db w =
    (Ok r, mkWorld (w_collection w) (w_db w)
             (w_trace w ++ [Printed (py "SQL生成错误: " ++ str_of_exn ex)])) /\
    generated_sql r = [] /\
    syntax_accuracy r = 0%Q /\
    execution_accuracy r = 0%Q /\
    exact_match r = _evaluate_exact_match [] gt.
Proof.
  rewrite evaluate_single_example_steps.
  set (w1 := mkWorld (w_collection w) (w_db w)
               (w_trace w ++ [Printed (py "SQL生成错误: " ++ str_of_exn ex)])).
  assert (Hgen : generate_sql rag q None w = (Ok [], w1)).
  { rewrite (generate_sql_retrieved rag q w Himport Hembed Hquery).
    rewrite (generate_sql_supplied rag q (hits (qr_documents qr)) w Himport).
    rewrite Hdown. reflexivity. }
  rewrite (bind_ok _ _ _ Hgen).
  assert (Hexec : execution_step [] gt db w1 = (Ok 0%Q, w1)).
  { unfold execution_step. destruct db as [url|]; [|reflexivity].
    replace (_evaluate_syntax []) with 0%Q by reflexivity.
    rewrite andb_false_r. reflexivity. }
  rewrite (bind_ok _ _ _ Hexec).
  destruct (semantic_similarity_cases [] gt w1) as [(e0 & He0 & _)|(_ & sem & Hsem)].
  { rewrite Hsklearn in He0. discriminate He0. }
  rewrite (bind_ok _ _ _ Hsem).
  assert (Hq1 : collection_query (w_collection w1) [e] default_n_results = Ok qr)
    by exact Hquery.
  destruct (retrieval_quality_returns rag q [] w1 Hembed Hq1) as (m & Hm).
  rewrite (bind_ok _ _ _ Hm).
  eexists. split; [reflexivity|].
  simpl. auto.
Qed.

End EvaluationFailures.

(** ** Ingestion: reading comes before writing, and writing is batched *)

Section Reading.
Context {env : Env}.

Lemma ingest_files_cases type_label id_prefix files : forall acc w,
  (exists acc', ingest_files type_label id_prefix files acc w = (Ok acc', w)) \/
  (exists e file, ingest_files type_label id_prefix files acc w = (Raise e, w) /\
                  In file files /\ read_lines file = Raise e).
Proof.
  induction files as [|file rest IH]; intros acc w.
  - left. exists acc. reflexivity.
  - simpl. unfold bind, lift. destruct (read_lines file) as [lines|e] eqn:Hread.
    + destruct (IH (ingest_lines type_label id_prefix file 0 lines acc) w)
        as [(acc' & H)|(e & f & H & Hin & Hf)].
      * left. exists acc'. exact H.
      * right. exists e, f. split; [exact H|]. split; [right; exact Hin|exact Hf].
    + right. exists e, file. split; [reflexivity|]. split; [left; reflexivity|exact Hread].
Qed.

Lemma ingest_files_readable type_label id_prefix files : forall acc w acc' w',
  ingest_files type_label id_prefix files acc w = (Ok acc', w') ->
  forall file, In file files -> exists lines, read_lines file = Ok lines.
Proof.
  induction files as [|file rest IH]; intros acc w acc' w' H f Hin.
  - destruct Hin.
  - simpl in H. unfold bind, lift in H.
    destruct (read_lines file) as [lines|e] eqn:Hread; [|discriminate H].
    destruct Hin as [<-|Hin].
    + exists lines. exact Hread.
    + exact (IH _ _ _ _ H f Hin).
Qed.

Lemma collect_cases ddl_files doc_files example_files w :
  (exists p, collect ddl_files doc_files example_files w = (Ok p, w)) \/
  (exists e file, collect ddl_files doc_files example_files w = (Raise e, w) /\
                  In file (ddl_files ++ doc_files ++ example_files) /\
                  read_lines file = Raise e).
Proof.
  unfold collect.
  destruct (ingest_files_cases (py "ddl") (py "ddl") ddl_files no_pending w)
    as [(p1 & H1)|(e & f & H1 & Hin & Hf)].
  2:{ right. exists e, f. rewrite (bind_raise _ _ _ H1).
      split; [reflexivity|]. split; [|exact Hf].
      apply in_or_app. left. exact Hin. }
  rewrite (bind_ok _ _ _ H1).
  destruct (ingest_files_cases (py "documentation") (py "doc") doc_files p1 w)
    as [(p2 & H2)|(e & f & H2 & Hin & Hf)].
  2:{ right. exists e, f. rewrite (bind_raise _ _ _ H2).
      split; [reflexivity|]. split; [|exact Hf].
      apply in_or_app. right. apply in_or_app. left. exact Hin. }
  rewrite (bind_ok _ _ _ H2).
  destruct (ingest_files_cases (py "example") (py "ex") example_files p2 w)
    as [(p3 & H3)|(e & f & H3 & Hin & Hf)].
  - left. exists p3. exact H3.
  - right. exists e, f. split; [exact H3|]. split; [|exact Hf].
    apply in_or_app. right. apply in_or_app. right. exact Hin.
Qed.

Lemma collect_readable ddl_files doc_files example_files w p w' :
  collect ddl_files doc_files example_files w = (Ok p, w') ->
  forall file, In file (ddl_files ++ doc_files ++ example_files) ->
               exists lines, read_lines file = Ok lines.
Proof.
  unfold collect. intros H f Hin.
  apply bind_ok_inv in H. destruct H as (p1 & w1 & H1 & H).
  apply bind_ok_inv in H. destruct H as (p2 & w2 & H2 & H3).
  apply in_app_or in Hin. destruct Hin as [Hin|Hin].
  { exact (ingest_files_readable _ _ _ _ _ H1 f Hin). }
  apply in_app_or in Hin. destruct Hin as [Hin|Hin].
  { exact (ingest_files_readable _ _ _ _ _ H2 f Hin). }
  exact (ingest_files_readable _ _ _ _ _ H3 f Hin).
Qed.

(** X4. Every file is read before anything is written: when one of the
    files cannot be read, [train_rag_model] raises the error of such a
    file and the world is exactly as before, with nothing embedded,
    nothing stored and nothing printed. *)
Theorem X4_unreadable_file_aborts_training rag ddl_files doc_files example_files
    w file e0
    (Hin : In file (ddl_files ++ doc_files ++ example_files))
    (Hread : read_lines file = Raise e0) :
  exists e bad,
    train_rag_model rag ddl_files doc_files example_files w = (Raise e, w) /\
    In bad (ddl_files ++ doc_files ++ example_files) /\
    read_lines bad = Raise e.
Proof.
  unfold train_rag_model.
  destruct (collect_cases ddl_files doc_files example_files w)
    as [(p & H)|(e & f & H & Hf & He)].
  - destruct (collect_readable _ _ _ _ H file Hin) as (lines & Hl).
    rewrite Hread in Hl. discriminate Hl.
  - exists e, f. rewrite (bind_raise _ _ _ H). auto.
Qed.

End Reading.

Lemma batch_slice_length {A} (i : nat) (xs : list A) :
  length (batch_slice i xs) = Nat.min batch_size (length xs - i).
Proof. unfold batch_slice. rewrite length_firstn, length_skipn. reflexivity. Qed.

Lemma batch_starts_length n : length (batch_starts n) = (n + 99) / 100.
Proof. unfold batch_starts. rewrite length_map, length_seq. reflexivity. Qed.

Lemma batch_starts_nth n k :
  k < (n + 99) / 100 -> nth_error (batch_starts n) k = Some (k * batch_size).
Proof.
  intros Hk. unfold batch_starts.
  rewrite nth_error_map.
  change ((n + (batch_size - 1)) / batch_size) with ((n + 99) / 100).
  assert (Hs : nth_error (seq 0 ((n + 99) / 100)) k = Some k).
  { rewrite nth_error_nth' with (d := 0) by (rewrite length_seq; exact Hk).
    rewrite seq_nth by exact Hk. reflexivity. }
  rewrite Hs. reflexivity.
Qed.

Lemma batch_start_inside n k : k < (n + 99) / 100 -> k * 100 < n.
Proof.
  intros Hk.
  pose proof (Nat.Div0.mul_div_le (n + 99) 100) as H.
  lia.
Qed.

Lemma printed_app {env : Env} (a b : list event) :
  printed (a ++ b) = printed a ++ printed b.
Proof. unfold printed. apply flat_map_app. Qed.

Lemma added_app {env : Env} (a b : list event) :
  added (a ++ b) = added a ++ added b.
Proof. unfold added. apply flat_map_app. Qed.

Lemma printed_Added {env : Env} (batches : list (AddArgs Embedding)) :
  printed (map Added batches) = [].
Proof. induction batches as [|b bs IH]; [reflexivity|exact IH]. Qed.

Lemma added_Added {env : Env} (batches : list (AddArgs Embedding)) :
  added (map Added batches) = batches.
Proof.
  induction batches as [|b bs IH]; [reflexivity|].
  simpl. f_equal. exact IH.
Qed.

Section Batches.
Context {env : Env}.

(** X5. A successful [train_rag_model] writes the snippets in
    ceil(n/100) calls of [collection.add], in order; the k-th call
    carries min(100, n - 100k) snippets, never none, with as many
    metadata entries and ids as documents; then it prints the count. *)
Theorem X5_training_batches rag ddl_files doc_files example_files w w'
    (Hrun : train_rag_model rag ddl_files doc_files example_files w = (Ok tt, w')) :
  exists p batches,
    collect ddl_files doc_files example_files w = (Ok p, w) /\
    let n := length (all_documents p) in
    added (w_trace w') = added (w_trace w) ++ batches /\
    printed (w_trace w') =
      printed (w_trace w) ++ [py "成功导入 " ++ str_of_nat n ++ py " 条知识条目"] /\
    length batches = (n + 99) / 100 /\
    forall k b, nth_error batches k = Some b ->
      add_documents b = firstn 100 (skipn (100 * k) (all_documents p)) /\
      length (add_documents b) = Nat.min 100 (n - 100 * k) /\
      0 < length (add_documents b) /\
      length (add_metadatas b) = length (add_documents b) /\
      length (add_ids b) = length (add_documents b).
Proof.
  unfold train_rag_model in Hrun.
  apply bind_ok_inv in Hrun. destruct Hrun as (p & w1 & Hcollect & Hrun).
  destruct (collect_spec _ _ _ _ Hcollect) as (-> & (Hm & Hi) & _).
  apply bind_ok_inv in Hrun. destruct Hrun as ([] & w2 & Hadd & Hprint).
  destruct (add_batches_spec _ _ _ Hadd) as (batches & Htrace & Hdocs & Hmetas & Hids).
  unfold print, emit in Hprint. inversion Hprint as [Hw']. clear Hprint.
  exists p, batches. split; [exact Hcollect|].
  cbv zeta. simpl w_trace. rewrite Htrace.
  split; [|split; [|split]].
  - rewrite !added_app, added_Added. simpl. rewrite app_nil_r. reflexivity.
  - rewrite !printed_app, printed_Added. simpl. rewrite app_nil_r. reflexivity.
  - rewrite <- (length_map (@add_documents _) batches), Hdocs, length_map.
    apply batch_starts_length.
  - intros k b Hb.
    assert (Hlen : length batches = (length (all_documents p) + 99) / 100).
    { rewrite <- (length_map (@add_documents _) batches), Hdocs, length_map.
      apply batch_starts_length. }
    assert (Hk : k < (length (all_documents p) + 99) / 100).
    { rewrite <- Hlen. apply nth_error_Some. rewrite Hb. discriminate. }
    pose proof (batch_starts_nth (length (all_documents p)) Hk) as Hstart.
    pose proof (batch_start_inside _ Hk) as Hinside.
    assert (Hslice : forall (A : Type) (proj : AddArgs Embedding -> list A) (xs : list A),
               map proj batches =
               map (fun i => batch_slice i xs) (batch_starts (length (all_documents p))) ->
               proj b = batch_slice (k * batch_size) xs).
    { intros A proj xs Heq.
      pose proof (map_nth_error proj k batches Hb) as H1.
      rewrite Heq in H1.
      rewrite (map_nth_error (fun i => batch_slice i xs) k _ Hstart) in H1.
      inversion H1. reflexivity. }
    pose proof (Hslice _ _ _ Hdocs) as Hd.
    pose proof (Hslice _ _ _ Hmetas) as Hmd.
    pose proof (Hslice _ _ _ Hids) as Hid.
    assert (Hdl : length (add_documents b) =
                  Nat.min 100 (length (all_documents p) - 100 * k)).
    { rewrite Hd, batch_slice_length. unfold batch_size. f_equal. lia. }
    split; [|split; [|split; [|split]]].
    + rewrite Hd. unfold batch_slice, batch_size.
      replace (k * 100) with (100 * k) by lia. reflexivity.
    + exact Hdl.
    + rewrite Hdl. lia.
    + rewrite Hmd, Hd, !batch_slice_length, Hm. reflexivity.
    + rewrite Hid, Hd, !batch_slice_length, Hi. reflexivity.
Qed.

Lemma add_batches_raise p starts : forall w e w',
  add_batches p starts w = (Raise e, w') ->
  exists batches,
    w_db w' = w_db w /\
    w_trace w' = w_trace w ++ map Added batches /\
    length batches < length starts /\
    map (@add_documents _) batches =
      firstn (length batches) (map (fun i => batch_slice i (all_documents p)) starts) /\
    map (@add_ids _) batches =
      firstn (length batches) (map (fun i => batch_slice i (ids p)) starts).
Proof.
  induction starts as [|i rest IH]; intros w e w' H.
  - discriminate H.
  - simpl in H. unfold bind at 1 in H. unfold lift in H.
    destruct (embed_documents (batch_slice i (all_documents p))) as [embs|e1].
    2:{ inversion H. subst. exists []. simpl. rewrite app_nil_r.
        repeat (split; [reflexivity|]). split; [lia|]. split; reflexivity. }
    unfold bind at 1 in H. unfold add_to_collection at 1 in H.
    set (args := mkAddArgs embs (batch_slice i (all_documents p))
                   (batch_slice i (metadatas p)) (batch_slice i (ids p))) in *.
    destruct (collection_add (w_collection w) args) as [c'|e1].
    2:{ inversion H. subst. exists []. simpl. rewrite app_nil_r.
        repeat (split; [reflexivity|]). split; [lia|]. split; reflexivity. }
    apply IH in H. destruct H as (batches & Hdb & Htrace & Hlen & Hdocs & Hids).
    exists (args :: batches). simpl in Htrace, Hdb. simpl.
    split; [exact Hdb|].
    split; [rewrite Htrace, <- app_assoc; reflexivity|].
    split; [lia|]. rewrite Hdocs, Hids. split; reflexivity.
Qed.

(** X6. There is no rollback: when [train_rag_model] raises, the batches
    added before the failure stay in the store.  They are the first
    batches of the collected snippets, fewer than a full run would
    write; the success line is not printed and the database is not
    touched. *)
Theorem X6_failed_training_keeps_earlier_batches rag ddl_files doc_files
    example_files w e w'
    (Hrun : train_rag_model rag ddl_files doc_files example_files w = (Raise e, w')) :
  exists batches,
    w_trace w' = w_trace w ++ map Added batches /\
    printed (w_trace w') = printed (w_trace w) /\
    w_db w' = w_db w /\
    forall p, collect ddl_files doc_files example_files w = (Ok p, w) ->
      let starts := batch_starts (length (all_documents p)) in
      length batches < length starts /\
      map (@add_documents _) batches =
        firstn (length batches)
               (map (fun i => batch_slice i (all_documents p)) starts) /\
      map (@add_ids _) batches =
        firstn (length batches) (map (fun i => batch_slice i (ids p)) starts).
Proof.
  unfold train_rag_model in Hrun.
  apply bind_raise_inv in Hrun. destruct Hrun as [Hrun|(p & w1 & Hcollect & Hrun)].
  - exists []. simpl. rewrite app_nil_r.
    destruct (collect_cases ddl_files doc_files example_files w)
      as [(p & H)|(e1 & f & H & _)].
    { rewrite H in Hrun. discriminate Hrun. }
    rewrite H in Hrun. inversion Hrun. subst.
    repeat (split; [reflexivity|]).
    intros p Hp. rewrite Hp in H. discriminate H.
  - destruct (collect_spec _ _ _ _ Hcollect) as (-> & _ & _).
    apply bind_raise_inv in Hrun. destruct Hrun as [Hrun|([] & w2 & _ & Hrun)].
    2:{ discriminate Hrun. }
    apply add_batches_raise in Hrun.
    destruct Hrun as (batches & Hdb & Htrace & Hlen & Hdocs & Hids).
    exists batches. split; [exact Htrace|].
    split; [rewrite Htrace, printed_app, printed_Added, app_nil_r; reflexivity|].
    split; [exact Hdb|].
    intros p' Hp'. rewrite Hcollect in Hp'. inversion Hp'. subst p'.
    cbv zeta. auto.
Qed.

End Batches.

(** ** The id of a snippet is a key *)

Lemma digits_inj (u v : Decimal.uint) : digits u = digits v -> u = v.
Proof.
  revert v. induction u; intros v H; destruct v; simpl in H;
    try discriminate H; try reflexivity;
    inversion H as [H']; f_equal; apply IHu; exact H'.
Qed.

Lemma str_of_nat_inj (a b : nat) : str_of_nat a = str_of_nat b -> a = b.
Proof.
  unfold str_of_nat. intros H. apply digits_inj in H.
  rewrite <- (DecimalNat.Unsigned.of_to a), <- (DecimalNat.Unsigned.of_to b).
  rewrite H. reflexivity.
Qed.

Lemma digits_no_underscore (u : Decimal.uint) : ~ In 95%N (digits u).
Proof.
  induction u; simpl; intros H;
    try (destruct H as [H|H]; [discriminate H|exact (IHu H)]).
  exact H.
Qed.

(** A text is cut in one way only at a separator that its first part
    does not contain. *)
Lemma cut_at_first {A} (sep : A) (l1 l2 r1 r2 : list A) :
  ~ In sep l1 -> ~ In sep l2 ->
  l1 ++ sep :: r1 = l2 ++ sep :: r2 -> l1 = l2 /\ r1 = r2.
Proof.
  revert l2. induction l1 as [|a l1 IH]; intros l2 H1 H2 H; destruct l2 as [|b l2].
  - inversion H. auto.
  - inversion H. subst. exfalso. apply H2. left. reflexivity.
  - inversion H. subst. exfalso. apply H1. left. reflexivity.
  - inversion H. subst.
    destruct (IH l2) as (-> & ->); auto.
    + intros Hin. apply H1. right. exact Hin.
    + intros Hin. apply H2. right. exact Hin.
Qed.

Lemma cut_at_last {A} (sep : A) (l1 l2 r1 r2 : list A) :
  ~ In sep r1 -> ~ In sep r2 ->
  l1 ++ sep :: r1 = l2 ++ sep :: r2 -> l1 = l2 /\ r1 = r2.
Proof.
  intros H1 H2 H.
  assert (Hrev : rev r1 ++ sep :: rev l1 = rev r2 ++ sep :: rev l2).
  { apply (f_equal (@rev A)) in H. rewrite !rev_app_distr in H. simpl in H.
    rewrite <- !app_assoc in H. exact H. }
  apply cut_at_first in Hrev.
  - destruct Hrev as (Hr & Hl).
    apply (f_equal (@rev A)) in Hr, Hl. rewrite !rev_involutive in Hr, Hl. auto.
  - intros Hin. apply H1. apply in_rev. exact Hin.
  - intros Hin. apply H2. apply in_rev. exact Hin.
Qed.

Lemma id_prefix_inj (k k' : SnippetType) (rest rest' : pystr) :
  id_prefix k ++ py "_" ++ rest = id_prefix k' ++ py "_" ++ rest' ->
  k = k' /\ rest = rest'.
Proof.
  assert (Hd : id_prefix ddl = [100; 100; 108]%N) by (vm_compute; reflexivity).
  assert (Ho : id_prefix documentation = [100; 111; 99]%N) by (vm_compute; reflexivity).
  assert (He : id_prefix example = [101; 120]%N) by (vm_compute; reflexivity).
  assert (Hu : py "_" = [95]%N) by (vm_compute; reflexivity).
  rewrite Hu. destruct k, k'; rewrite ?Hd, ?Ho, ?He; simpl; intros H;
    inversion H; auto.
Qed.

Lemma snippet_id_inj (k k' : SnippetType) (file file' : pystr) (i i' : nat) :
  snippet_id k file i = snippet_id k' file' i' -> k = k' /\ file = file' /\ i = i'.
Proof.
  unfold snippet_id. intros H.
  apply id_prefix_inj in H. destruct H as (-> & H).
  split; [reflexivity|].
  assert (Hu : py "_" = [95]%N) by (vm_compute; reflexivity).
  rewrite Hu in H. simpl in H.
  apply cut_at_last in H.
  - destruct H as (-> & H). split; [reflexivity|]. apply str_of_nat_inj. exact H.
  - apply digits_no_underscore.
  - apply digits_no_underscore.
Qed.

Section Keys.
Context {env : Env}.

(** X7. The id tells the snippet: an id is made from one type, one file
    and one line number only, whatever the file name contains, so two
    snippets collected by one run that carry the same id have the same
    text and the same metadata. *)
Theorem X7_snippet_id_is_a_key :
  (forall k k' file file' i i',
     snippet_id k file i = snippet_id k' file' i' ->
     k = k' /\ file = file' /\ i = i') /\
  (forall ddl_files doc_files example_files w p w',
     collect ddl_files doc_files example_files w = (Ok p, w') ->
     forall text md id text' md',
       In (text, md, id) (snippets p) -> In (text', md', id) (snippets p) ->
       text = text' /\ md = md').
Proof.
  split; [exact snippet_id_inj|].
  intros ddl_files doc_files example_files w p w' Hcollect text md id text' md' Hx Hy.
  destruct (collect_spec _ _ _ _ Hcollect) as (_ & _ & Hsn).
  apply Hsn in Hx. apply Hsn in Hy.
  destruct Hx as (k & file & i & line & (_ & lines & Hread & Hnth & _) & Hx).
  destruct Hy as (k' & file' & i' & line' & (_ & lines' & Hread' & Hnth' & _) & Hy).
  unfold snippet_of in Hx, Hy. inversion Hx. inversion Hy. subst.
  match goal with
  | H : snippet_id _ _ _ = snippet_id _ _ _ |- _ =>
      apply snippet_id_inj in H; destruct H as (-> & -> & ->)
  end.
  rewrite Hread in Hread'. inversion Hread'. subst lines'.
  rewrite Hnth in Hnth'. inversion Hnth'. subst line'.
  split; reflexivity.
Qed.

End Keys.

(** ** What the text scores do not see *)

Section Insensitive.
Context {U : Unicode}.
Hypothesis Hspace : upper_space_law U.
Hypothesis Hnonspace : upper_nonspace_law U.

Lemma normalize_sql_by_words (s : pystr) :
  normalize_sql s =
  re_sub re_block_comment [] (re_sub re_quote [] (upper (join [SPACE] (words s)))).
Proof.
  unfold normalize_sql.
  change (re_sub re_spaces [SPACE] s) with (collapse s).
  rewrite (strip_upper Hspace Hnonspace), strip_collapse_words. reflexivity.
Qed.

Lemma normalize_sql_words (s t : pystr) :
  words s = words t -> normalize_sql s = normalize_sql t.
Proof. intros H. rewrite !normalize_sql_by_words, H. reflexivity. Qed.

Hypothesis Hidem : upper_idem_law U.

Lemma normalize_sql_upper (s : pystr) : normalize_sql (upper s) = normalize_sql s.
Proof.
  unfold normalize_sql.
  change (re_sub re_spaces [SPACE] (upper s)) with (collapse (upper s)).
  change (re_sub re_spaces [SPACE] s) with (collapse s).
  rewrite (collapse_upper Hspace Hnonspace), (upper_upper Hidem). reflexivity.
Qed.

Lemma exact_match_one (s t : pystr) :
  normalize_sql s = normalize_sql t -> _evaluate_exact_match s t = 1%Q.
Proof.
  intros H. unfold _evaluate_exact_match. rewrite H.
  destruct (eqb (normalize_sql t) (normalize_sql t)) eqn:E; [reflexivity|].
  apply eqb_false in E. exfalso. apply E. reflexivity.
Qed.

Lemma strip_nil_upper (s : pystr) : strip (upper s) = [] <-> strip s = [].
Proof.
  rewrite (strip_upper Hspace Hnonspace). split; intros H.
  - exact (upper_nil_inv Hspace Hnonspace _ H).
  - rewrite H. reflexivity.
Qed.

Lemma eqb_nil_iff (a b : pystr) : (a = [] <-> b = []) -> eqb a [] = eqb b [].
Proof.
  intros H. destruct (eqb a []) eqn:Ea, (eqb b []) eqn:Eb; try reflexivity.
  - apply eqb_true in Ea. apply eqb_false in Eb. exfalso. apply Eb, H, Ea.
  - apply eqb_false in Ea. apply eqb_true in Eb. exfalso. apply Ea, H, Eb.
Qed.

End Insensitive.

Section TextScores.
Context {U : Unicode}.

(** X8. The exact-match score compares the two statements word by
    word, without regard to letter case: it is symmetric, it is 1 on
    equal statements, it does not change when a statement is replaced
    by one with the same words ([str.split]) or by its upper-case form,
    and it is 1 whenever the upper-case forms have the same words. *)
Theorem X8_exact_match_ignores_case_and_spacing
    (Hspace : upper_space_law U) (Hnonspace : upper_nonspace_law U)
    (Hidem : upper_idem_law U) :
  (forall s, _evaluate_exact_match s s = 1%Q) /\
  (forall s t, _evaluate_exact_match s t = _evaluate_exact_match t s) /\
  (forall s s' t, words s = words s' ->
     _evaluate_exact_match s t = _evaluate_exact_match s' t) /\
  (forall s t, _evaluate_exact_match (upper s) t = _evaluate_exact_match s t) /\
  (forall s t, words (upper s) = words (upper t) -> _evaluate_exact_match s t = 1%Q).
Proof.
  split; [|split; [|split; [|split]]].
  - intros s. apply exact_match_one. reflexivity.
  - intros s t. unfold _evaluate_exact_match.
    destruct (eqb (normalize_sql s) (normalize_sql t)) eqn:E1,
             (eqb (normalize_sql t) (normalize_sql s)) eqn:E2; try reflexivity.
    + apply eqb_true in E1. apply eqb_false in E2. exfalso. apply E2. symmetry. exact E1.
    + apply eqb_false in E1. apply eqb_true in E2. exfalso. apply E1. symmetry. exact E2.
  - intros s s' t H. unfold _evaluate_exact_match.
    rewrite (normalize_sql_words Hspace Hnonspace _ _ H). reflexivity.
  - intros s t. unfold _evaluate_exact_match.
    rewrite (normalize_sql_upper Hspace Hnonspace Hidem). reflexivity.
  - intros s t H. apply exact_match_one.
    rewrite <- (normalize_sql_upper Hspace Hnonspace Hidem s).
    rewrite <- (normalize_sql_upper Hspace Hnonspace Hidem t).
    apply (normalize_sql_words Hspace Hnonspace). exact H.
Qed.

(** X9. The syntax score does not depend on letter case: a statement
    and its upper-case form get the same score. *)
Theorem X9_syntax_score_ignores_case
    (Hspace : upper_space_law U) (Hnonspace : upper_nonspace_law U)
    (Hidem : upper_idem_law U) (sql : pystr) :
  _evaluate_syntax (upper sql) = _evaluate_syntax sql.
Proof.
  unfold _evaluate_syntax.
  rewrite (upper_upper Hidem).
  assert (H1 : eqb (upper sql) [] = eqb sql []).
  { apply eqb_nil_iff. split; intros H.
    - exact (upper_nil_inv Hspace Hnonspace _ H).
    - rewrite H. reflexivity. }
  assert (H2 : eqb (strip (upper sql)) [] = eqb (strip sql) []).
  { apply eqb_nil_iff. apply (strip_nil_upper Hspace Hnonspace). }
  rewrite H1, H2. reflexivity.
Qed.

End TextScores.

(** ** Cleaning a reply that has no backtick *)

Lemma no_backtick_skipn k (s : pystr) :
  no_backtick s = true -> no_backtick (skipn k s) = true.
Proof.
  unfold no_backtick. rewrite !forallb_forall. intros H x Hx.
  apply H. rewrite <- (firstn_skipn k s). apply in_or_app. right. exact Hx.
Qed.

Lemma no_backtick_startswith (p s : pystr) :
  no_backtick s = true -> startswith (BACKTICK :: p) s = false.
Proof.
  destruct s as [|c t]; [reflexivity|]. intros H.
  unfold no_backtick in H. rewrite forallb_forall in H.
  specialize (H c (or_introl eq_refl)). apply negb_true_iff in H.
  rewrite startswith_cons, N.eqb_sym, H. reflexivity.
Qed.

Lemma no_backtick_of_in (s t : pystr) :
  (forall x, In x t -> x = SPACE \/ In x s) ->
  no_backtick s = true -> no_backtick t = true.
Proof.
  unfold no_backtick. rewrite !forallb_forall. intros Hin H x Hx.
  destruct (Hin x Hx) as [->|Hs]; [reflexivity|]. exact (H x Hs).
Qed.

Lemma clean_without_backtick (s : pystr) :
  no_backtick s = true -> _clean_sql_output s = strip (collapse s).
Proof.
  intros H. unfold _clean_sql_output.
  assert (H1 : re_sub re_fence_sql [] s = s).
  { apply re_sub_id. intros k. unfold re_fence_sql, FENCE_SQL, FENCE.
    simpl app. rewrite no_backtick_startswith by (apply no_backtick_skipn; exact H).
    reflexivity. }
  rewrite H1.
  assert (H2 : re_sub re_space_fence [] s = s).
  { apply re_sub_id. intros k. unfold re_space_fence, FENCE.
    rewrite no_backtick_startswith
      by (apply no_backtick_skipn, no_backtick_skipn; exact H).
    reflexivity. }
  rewrite H2. reflexivity.
Qed.

(** X10. On a reply without backticks [_clean_sql_output] is plain
    whitespace normalisation: the words of the reply joined by single
    spaces.  The result has no backtick either, and cleaning it again
    changes nothing. *)
Theorem X10_clean_without_backtick (s : pystr) (Hs : no_backtick s = true) :
  _clean_sql_output s = join [SPACE] (words s) /\
  no_backtick (_clean_sql_output s) = true /\
  _clean_sql_output (_clean_sql_output s) = _clean_sql_output s.
Proof.
  assert (Hc : no_backtick (strip (collapse s)) = true).
  { apply (no_backtick_of_in s); [|exact Hs].
    intros x Hx. unfold strip in Hx.
    apply in_rstrip, in_lstrip, in_collapse in Hx. exact Hx. }
  rewrite (clean_without_backtick s Hs).
  split; [apply strip_collapse_words|]. split; [exact Hc|].
  rewrite (clean_without_backtick _ Hc).
  rewrite (squeezed_collapse_id (strip (collapse s)))
    by (apply squeezed_strip, squeezed_collapse).
  apply strip_idem.
Qed.

(** ** The statements an execution check sends to the database *)

Lemma sql_run_app {env : Env} (a b : list event) :
  sql_run (a ++ b) = sql_run a ++ sql_run b.
Proof. unfold sql_run. apply flat_map_app. Qed.

Section ExecutionTrace.
Context {env : Env}.

Ltac known := first [eassumption | reflexivity].

Ltac trace_leaf ran :=
  split; [reflexivity|]; exists ran;
  cbn [fst snd w_trace w_collection w_db];
  rewrite <- ?app_assoc, ?sql_run_app, ?printed_app; cbn [sql_run printed flat_map app];
  rewrite ?app_nil_r;
  split; [reflexivity|];
  split; [auto|];
  split; [intros (e' & [H'|(H1' & d' & H2')]); first [reflexivity | congruence]|];
  split; [split;
          [intros Hran;
           first [discriminate Hran | eexists _, _; eapply both_ran; eassumption]
          |intros (g' & rt' & Hex); first [reflexivity | inversion Hex; congruence]]|];
  split; [split;
          [intros Hran;
           first [discriminate Hran
                 | left; eexists; eapply generated_failed; eassumption
                 | right; eexists _, _, _, _, _;
                   split; [known|]; split; [known|]; split; known]
          |intros [(e' & Hex)|(g' & d1' & d2' & e' & d3' & H1' & H2' & H3' & H4')];
           first [reflexivity | inversion Hex; congruence | congruence]]|];
  split; [intros s Hs Hne;
          first [reflexivity | inversion Hs; subst; exfalso; apply Hne; reflexivity]|];
  split; [intros Hran;
          first [discriminate Hran
                | eexists; split;
                  [first [left; known | right; split; [known|eexists; known]]
                  |reflexivity]]|];
  intros Hran; first [discriminate Hran | reflexivity].

(** X11. An execution check never touches the vector store and sends at
    most two statements, in a fixed order: the generated SQL first, the
    reference SQL second.  Nothing is sent exactly when the engine
    cannot be created or the first connection fails; the diagnostic of
    that failure is then the one line printed.  Both statements are sent
    exactly when the generated SQL has run without error and the second
    connection has been opened; nothing is printed then.  The generated
    SQL alone is sent exactly when it raises, or when the second
    connection fails after it.  A score other than 0 means that both
    have been sent. *)
Theorem X11_reference_runs_only_after_generated gen gt url w :
  let r := _evaluate_execution_accuracy gen gt url w in
  w_collection (snd r) = w_collection w /\
  exists ran,
    sql_run (w_trace (snd r)) = sql_run (w_trace w) ++ ran /\
    (ran = [] \/ ran = [(url, gen)] \/ ran = [(url, gen); (url, gt)]) /\
    ((exists e, create_engine url = Raise e \/
                (create_engine url = Ok tt /\
                 exists d, engine_connect url (w_db w) = (Raise e, d))) ->
     ran = []) /\
    (ran = [(url, gen); (url, gt)] <->
     exists g rt, executed url gen gt w (Ok g) (Some rt)) /\
    (ran = [(url, gen)] <->
     (exists e, executed url gen gt w (Raise e) None) \/
     (exists g d1 d2 e d3,
        create_engine url = Ok tt /\
        engine_connect url (w_db w) = (Ok tt, d1) /\
        conn_execute url gen d1 = (Ok g, d2) /\
        engine_connect url d2 = (Raise e, d3))) /\
    (forall s, fst r = Ok s -> s <> 0%Q -> ran = [(url, gen); (url, gt)]) /\
    (ran = [] ->
     exists e,
       (create_engine url = Raise e \/
        (create_engine url = Ok tt /\
         exists d, engine_connect url (w_db w) = (Raise e, d))) /\
       printed (w_trace (snd r)) =
       printed (w_trace w) ++ [py "执行评估错误: " ++ str_of_exn e]) /\
    (ran = [(url, gen); (url, gt)] ->
     printed (w_trace (snd r)) = printed (w_trace w)).
Proof.
  cbv zeta.
  unfold _evaluate_execution_accuracy, try_except, bind, lift, connect, execute,
    ret, print, emit.
  destruct (create_engine url) as [[]|e] eqn:Hengine.
  2:{ trace_leaf (@nil (pystr * pystr)). }
  destruct (engine_connect url (w_db w)) as [[[]|e] d1] eqn:Hconnect.
  2:{ trace_leaf (@nil (pystr * pystr)). }
  cbn [w_db w_collection w_trace].
  destruct (conn_execute url gen d1) as [[g|e] d2] eqn:Hgen.
  2:{ trace_leaf [(url, gen)]. }
  cbn [w_db w_collection w_trace].
  destruct (engine_connect url d2) as [[[]|e] d3] eqn:Hconnect2.
  2:{ trace_leaf [(url, gen)]. }
  cbn [w_db w_collection w_trace].
  destruct (conn_execute url gt d3) as [[t|e] d4] eqn:Hgt.
  2:{ trace_leaf [(url, gen); (url, gt)]. }
  destruct (negb (length g =? length t)).
  { trace_leaf [(url, gen); (url, gt)]. }
  destruct (some_row_differs g t); trace_leaf [(url, gen); (url, gt)].
Qed.

End ExecutionTrace.

(** ** The report of [comprehensive_evaluation] *)

Lemma average_spec (values : list Q) :
  exists a, average values = Ok a /\ is_average a values.
Proof.
  destruct values as [|x xs].
  - exists 0%Q. split; [reflexivity|]. split; [reflexivity|].
    intros H. exfalso. apply H. reflexivity.
  - exists (sum (x :: xs) / len (x :: xs))%Q. split.
    + unfold average. apply truediv_len.
    + split; [discriminate|]. intros _. unfold mean.
      rewrite sum_total. reflexivity.
Qed.

Section Report.
Context {U : Unicode} {env : Env}.

Lemma evaluate_single_example_fields rag q gt db w r w' :
  evaluate_single_example rag q gt db w = (Ok r, w') ->
  question r = q /\ ground_truth_sql r = gt.
Proof.
  rewrite evaluate_single_example_steps. intros H.
  apply bind_ok_inv in H. destruct H as (sql & w1 & _ & H).
  apply bind_ok_inv in H. destruct H as (s & w2 & _ & H).
  apply bind_ok_inv in H. destruct H as (sem & w3 & _ & H).
  apply bind_ok_inv in H. destruct H as (m & w4 & _ & H).
  apply ret_inv in H. destruct H as (-> & _). split; reflexivity.
Qed.

Lemma evaluation_loop_cons self dataset db i c rest results totals :
  evaluation_loop self dataset db i (c :: rest) results totals =
  (print (py "处理测试用例 " ++ str_of_nat (i + 1) ++ py "/"
          ++ str_of_nat (length dataset)) ;;;
   metrics <- evaluate_single_example (rag_system self)
                (tc_question c) (tc_sql c) db ;;
   evaluation_loop self dataset db (S i) rest (results ++ [metrics])
     (mkTotals
        (t_syntax_accuracy totals ++ [syntax_accuracy metrics])
        (t_execution_accuracy totals ++ [execution_accuracy metrics])
        (t_exact_match totals ++ [exact_match metrics])
        (t_semantic_similarity totals ++ [semantic_similarity metrics])
        (t_retrieval_quality totals ++ [retrieval_quality metrics]))).
Proof. reflexivity. Qed.

Lemma evaluation_loop_spec self dataset db cases : forall i results w results' totals' w',
  evaluation_loop self dataset db i cases results (totals_of results) w
    = (Ok (results', totals'), w') ->
  totals' = totals_of results' /\
  exists new, results' = results ++ new /\
              map question new = map tc_question cases /\
              map ground_truth_sql new = map tc_sql cases.
Proof.
  induction cases as [|c rest IH]; intros i results w results' totals' w' H.
  - apply ret_inv in H. destruct H as (H & _). inversion H. subst.
    split; [reflexivity|]. exists []. rewrite app_nil_r. auto.
  - rewrite evaluation_loop_cons in H.
    apply bind_ok_inv in H. destruct H as ([] & w1 & _ & H).
    apply bind_ok_inv in H. destruct H as (m & w2 & Hm & H).
    apply evaluate_single_example_fields in Hm. destruct Hm as (Hq & Hgt).
    assert (Ht : mkTotals
                   (t_syntax_accuracy (totals_of results) ++ [syntax_accuracy m])
                   (t_execution_accuracy (totals_of results) ++ [execution_accuracy m])
                   (t_exact_match (totals_of results) ++ [exact_match m])
                   (t_semantic_similarity (totals_of results) ++ [semantic_similarity m])
                   (t_retrieval_quality (totals_of results) ++ [retrieval_quality m])
                 = totals_of (results ++ [m])).
    { unfold totals_of. cbn [t_syntax_accuracy t_execution_accuracy t_exact_match
                               t_semantic_similarity t_retrieval_quality].
      rewrite !map_app. reflexivity. }
    rewrite Ht in H. apply IH in H. destruct H as (Htot & new & Hres & Hqs & Hgts).
    split; [exact Htot|]. exists (m :: new).
    split; [rewrite Hres, <- app_assoc; reflexivity|].
    simpl. rewrite Hq, Hgt, Hqs, Hgts. auto.
Qed.

Lemma evaluation_loop_raise self dataset db cases : forall i results totals w e w',
  evaluation_loop self dataset db i cases results totals w = (Raise e, w') ->
  exists pre case post w1,
    cases = pre ++ case :: post /\
    evaluate_single_example (rag_system self) (tc_question case) (tc_sql case) db w1
      = (Raise e, w').
Proof.
  induction cases as [|c rest IH]; intros i results totals w e w' H.
  - discriminate H.
  - rewrite evaluation_loop_cons in H.
    apply bind_raise_inv in H. destruct H as [H|([] & w1 & _ & H)].
    { discriminate H. }
    apply bind_raise_inv in H. destruct H as [H|(m & w2 & _ & H)].
    + exists [], c, rest, w1. auto.
    + apply IH in H. destruct H as (pre & case & post & w3 & -> & H).
      exists (c :: pre), case, post, w3. auto.
Qed.

Lemma average_is_average (values : list Q) a :
  average values = Ok a -> is_average a values.
Proof.
  intros Ha. destruct (average_spec values) as (a' & Ha' & Hspec).
  rewrite Ha in Ha'. apply (f_equal (fun o => match o with Ok x => x | Raise _ => a end)) in Ha'.
  simpl in Ha'. subst a'. exact Hspec.
Qed.

Lemma comprehensive_evaluation_inv self dataset db w report self' w' :
  comprehensive_evaluation self dataset db w = (Ok (report, self'), w') ->
  exists rs a1 a2 a3 a4 a5,
    evaluation_loop self dataset db 0 dataset [] (totals_of []) w
      = (Ok (rs, totals_of rs), w') /\
    average (map syntax_accuracy rs) = Ok a1 /\
    average (map execution_accuracy rs) = Ok a2 /\
    average (map exact_match rs) = Ok a3 /\
    average (map semantic_similarity rs) = Ok a4 /\
    average (map retrieval_quality rs) = Ok a5 /\
    report = mkReport (length dataset) rs (mkAverages a1 a2 a3 a4 a5)
               (model_name (rag_system self)) /\
    self' = mkEvaluator (rag_system self) (metrics_history self ++ [report]).
Proof.
  intros Hrun. unfold comprehensive_evaluation in Hrun.
  apply bind_ok_inv in Hrun. destruct Hrun as ([rs totals] & w1 & Hloop & Hrun).
  change (mkTotals [] [] [] [] []) with (totals_of []) in Hloop.
  destruct (evaluation_loop_spec _ _ _ _ _ _ _ Hloop) as (-> & _).
  cbn [t_syntax_accuracy t_execution_accuracy t_exact_match
         t_semantic_similarity t_retrieval_quality totals_of] in Hrun.
  apply bind_ok_inv in Hrun. destruct Hrun as (a1 & w2 & H1 & Hrun).
  apply lift_ok_inv in H1. destruct H1 as (H1 & ->).
  apply bind_ok_inv in Hrun. destruct Hrun as (a2 & w2 & H2 & Hrun).
  apply lift_ok_inv in H2. destruct H2 as (H2 & ->).
  apply bind_ok_inv in Hrun. destruct Hrun as (a3 & w2 & H3 & Hrun).
  apply lift_ok_inv in H3. destruct H3 as (H3 & ->).
  apply bind_ok_inv in Hrun. destruct Hrun as (a4 & w2 & H4 & Hrun).
  apply lift_ok_inv in H4. destruct H4 as (H4 & ->).
  apply bind_ok_inv in Hrun. destruct Hrun as (a5 & w2 & H5 & Hrun).
  apply lift_ok_inv in H5. destruct H5 as (H5 & ->).
  apply ret_inv in Hrun. destruct Hrun as (Hrun & <-).
  injection Hrun as Hreport Hself. subst report self'.
  exists rs, a1, a2, a3, a4, a5.
  repeat (split; [first [assumption | reflexivity]|]). reflexivity.
Qed.

(** X12. The report of a run that returns: one record per test case, in
    the order of the data set, each carrying the question and the
    reference SQL of its case; [total_cases] is their number; each of the
    five averages is the mean of that score over the records, and 0 for
    an empty data set, where no division takes place; the report names
    the model and is the one entry appended to the history. *)
Theorem X12_comprehensive_report self dataset db w report self' w'
    (Hrun : comprehensive_evaluation self dataset db w = (Ok (report, self'), w')) :
  total_cases report = length dataset /\
  length (results report) = length dataset /\
  map question (results report) = map tc_question dataset /\
  map ground_truth_sql (results report) = map tc_sql dataset /\
  model_used report = model_name (rag_system self) /\
  rag_system self' = rag_system self /\
  metrics_history self' = metrics_history self ++ [report] /\
  let avg := average_metrics report in
  let rs := results report in
  is_average (avg_syntax_accuracy avg) (map syntax_accuracy rs) /\
  is_average (avg_execution_accuracy avg) (map execution_accuracy rs) /\
  is_average (avg_exact_match avg) (map exact_match rs) /\
  is_average (avg_semantic_similarity avg) (map semantic_similarity rs) /\
  is_average (avg_retrieval_quality avg) (map retrieval_quality rs).
Proof.
  apply comprehensive_evaluation_inv in Hrun.
  destruct Hrun as (rs & a1 & a2 & a3 & a4 & a5 & Hloop & H1 & H2 & H3 & H4 & H5
                    & -> & ->).
  apply evaluation_loop_spec in Hloop.
  destruct Hloop as (_ & new & Hres & Hqs & Hgts). simpl in Hres. subst new.
  cbn [total_cases results average_metrics model_used rag_system metrics_history
         avg_syntax_accuracy avg_execution_accuracy avg_exact_match
         avg_semantic_similarity avg_retrieval_quality].
  split; [reflexivity|].
  split; [rewrite <- (length_map question), Hqs, length_map; reflexivity|].
  split; [exact Hqs|]. split; [exact Hgts|].
  split; [reflexivity|]. split; [reflexivity|]. split; [reflexivity|].
  split; [exact (average_is_average _ H1)|]. split; [exact (average_is_average _ H2)|].
  split; [exact (average_is_average _ H3)|]. split; [exact (average_is_average _ H4)|].
  exact (average_is_average _ H5).
Qed.

(** X13. Averaging and building the report never raise: whatever
    [comprehensive_evaluation] raises was raised by
    [evaluate_single_example] on one of the test cases, and the run
    stopped there.  On the empty data set it returns the report with
    no records and five zero averages, printing nothing. *)
Theorem X13_comprehensive_raises_only_from_a_case self db :
  (forall dataset w e w',
     comprehensive_evaluation self dataset db w = (Raise e, w') ->
     exists pre case post w1,
       dataset = pre ++ case :: post /\
       evaluate_single_example (rag_system self) (tc_question case) (tc_sql case)
         db w1 = (Raise e, w')) /\
  (forall w,
     let report := mkReport 0 [] (mkAverages 0 0 0 0 0) (model_name (rag_system self)) in
     comprehensive_evaluation self [] db w =
     (Ok (report, mkEvaluator (rag_system self) (metrics_history self ++ [report])), w)).
Proof.
  split; [|reflexivity].
  intros dataset w e w' H. unfold comprehensive_evaluation in H.
  apply bind_raise_inv in H. destruct H as [H|([rs totals] & w1 & _ & H)].
  { exact (evaluation_loop_raise _ _ _ _ _ _ _ _ H). }
  exfalso.
  destruct (average_spec (t_syntax_accuracy totals)) as (a1 & H1 & _).
  destruct (average_spec (t_execution_accuracy totals)) as (a2 & H2 & _).
  destruct (average_spec (t_exact_match totals)) as (a3 & H3 & _).
  destruct (average_spec (t_semantic_similarity totals)) as (a4 & H4 & _).
  destruct (average_spec (t_retrieval_quality totals)) as (a5 & H5 & _).
  unfold bind, lift, ret in H. rewrite H1, H2, H3, H4, H5 in H. discriminate H.
Qed.

End Report.

(** ** The judge of the lightweight evaluator *)

Lemma contains_drop_head c (p s : pystr) :
  contains (c :: p) s = true -> contains p s = true.
Proof.
  rewrite !contains_spec. intros (i & pre & post & Hs & _).
  exists (length (pre ++ [c])), (pre ++ [c]), post.
  split; [|reflexivity]. rewrite Hs, <- app_assoc. reflexivity.
Qed.

Lemma skipn_length_app {A} (a b : list A) : skipn (length a) (a ++ b) = b.
Proof. induction a as [|x a IH]; [reflexivity|exact IH]. Qed.

Section Judge.
Context {U : Unicode} {env : Env}.
Import Lightweight.

Lemma not_equivalent_has_equivalent (s : pystr) :
  contains NOT_EQUIVALENT s = true -> contains EQUIVALENT s = true.
Proof.
  assert (H : NOT_EQUIVALENT = 19981%N :: EQUIVALENT) by (vm_compute; reflexivity).
  rewrite H. apply contains_drop_head.
Qed.

(** X14. The branch for the answer that the statements are not
    equivalent cannot be reached, since that answer contains the one
    for equivalent, which is tested first: [_clean_response] returns one
    of three answers or the empty string, never the fourth; a reply
    that says not equivalent (and neither right nor wrong) is read as
    equivalent, and [evaluate_equivalence] returns [True] for it. *)
Theorem X14_not_equivalent_is_read_as_equivalent :
  (forall response,
     In (_clean_response response) [CORRECT; WRONG; EQUIVALENT; []] /\
     _clean_response response <> NOT_EQUIVALENT) /\
  (forall response,
     let answer := lower (strip response) in
     contains NOT_EQUIVALENT answer = true ->
     contains CORRECT answer = false -> contains WRONG answer = false ->
     _clean_response response = EQUIVALENT) /\
  (forall question sql1 sql2 reply w,
     let prompt := equivalence_prompt question sql1 sql2 in
     let answer := lower (strip reply) in
     text_generation prompt = Ok (prompt ++ reply) ->
     contains NOT_EQUIVALENT answer = true ->
     contains CORRECT answer = false -> contains WRONG answer = false ->
     evaluate_equivalence question sql1 sql2 w = (Ok true, w)).
Proof.
  assert (Hread : forall response,
            contains NOT_EQUIVALENT (lower (strip response)) = true ->
            contains CORRECT (lower (strip response)) = false ->
            contains WRONG (lower (strip response)) = false ->
            _clean_response response = EQUIVALENT).
  { intros response Hn Hc Hw. unfold _clean_response.
    rewrite Hc, Hw, (not_equivalent_has_equivalent _ Hn). reflexivity. }
  split; [|split].
  - intros response. unfold _clean_response.
    destruct (contains CORRECT (lower (strip response))).
    { split; [left; reflexivity|]. vm_compute. discriminate. }
    destruct (contains WRONG (lower (strip response))).
    { split; [right; left; reflexivity|]. vm_compute. discriminate. }
    destruct (contains EQUIVALENT (lower (strip response))) eqn:He.
    { split; [right; right; left; reflexivity|]. vm_compute. discriminate. }
    destruct (contains NOT_EQUIVALENT (lower (strip response))) eqn:Hn.
    { apply not_equivalent_has_equivalent in Hn. rewrite Hn in He. discriminate He. }
    split; [right; right; right; left; reflexivity|]. vm_compute. discriminate.
  - exact Hread.
  - intros question sql1 sql2 reply w prompt answer Hgen Hn Hc Hw.
    unfold evaluate_equivalence, judge, bind, lift, ret.
    fold prompt. rewrite Hgen, skipn_length_app, (Hread reply Hn Hc Hw).
    reflexivity.
Qed.

Lemma judge_keeps prompt : preserves (fun w => w) (judge prompt).
Proof. unfold judge. frame. Qed.

Lemma evaluate_single_case_keeps q sql schema ref :
  preserves (fun w => w) (evaluate_single_case q sql schema ref).
Proof.
  unfold evaluate_single_case, evaluate_grammar, evaluate_equivalence,
    evaluate_correctness.
  pose proof judge_keeps. frame.
Qed.

Lemma evaluate_single_case_fields q sql schema ref w r w' :
  evaluate_single_case q sql schema ref w = (Ok r, w') ->
  is_valid r = grammar_correct r && answers_correctly r /\
  (equivalent_to_reference r = None <-> ref = []).
Proof.
  unfold evaluate_single_case. intros H.
  apply bind_ok_inv in H. destruct H as (g & w1 & _ & H).
  apply bind_ok_inv in H. destruct H as (eq & w2 & Heq & H).
  apply bind_ok_inv in H. destruct H as (c & w3 & _ & H).
  apply ret_inv in H. destruct H as (-> & _). simpl.
  split; [reflexivity|].
  destruct ref as [|x ref].
  - apply ret_inv in Heq. destruct Heq as (-> & _). split; reflexivity.
  - apply bind_ok_inv in Heq. destruct Heq as (b & w4 & _ & Heq).
    apply ret_inv in Heq. destruct Heq as (-> & _). split; discriminate.
Qed.

Lemma count_valid_snoc {A} (results : list (A * CaseResult)) (x : A * CaseResult) :
  count_valid (results ++ [x]) =
  if is_valid (snd x) then count_valid results + 1 else count_valid results.
Proof.
  unfold count_valid. rewrite filter_app, length_app. simpl.
  destruct (is_valid (snd x)); simpl; lia.
Qed.

Lemma count_valid_le {A} (results : list (A * CaseResult)) :
  count_valid results <= length results.
Proof. unfold count_valid. apply filter_length_le. Qed.

Lemma batch_loop_spec cases : forall results w results' valid_count w',
  batch_loop cases results (count_valid results) w = (Ok (results', valid_count), w') ->
  w' = w /\ valid_count = count_valid results' /\
  exists new, results' = results ++ new /\ map fst new = cases /\
              Forall (fun cr =>
                        is_valid (snd cr)
                        = grammar_correct (snd cr) && answers_correctly (snd cr) /\
                        (equivalent_to_reference (snd cr) = None
                         <-> reference_of (fst cr) = [])) new.
Proof.
  induction cases as [|c rest IH]; intros results w results' valid_count w' H.
  - apply ret_inv in H. destruct H as (H & ->). inversion H. subst.
    split; [reflexivity|]. split; [reflexivity|].
    exists []. rewrite app_nil_r. split; [reflexivity|]. split; [reflexivity|constructor].
  - cbn [batch_loop] in H. apply bind_ok_inv in H. destruct H as (r & w1 & Hr & H).
    pose proof (evaluate_single_case_keeps (bc_question c) (bc_generated_sql c)
                  (bc_schema c)
                  (match bc_reference_sql c with Some r => r | None => [] end) w) as Hk.
    rewrite Hr in Hk. simpl in Hk. subst w1.
    apply evaluate_single_case_fields in Hr.
    pose proof (count_valid_snoc results (c, r)) as Hs. cbn [snd] in Hs.
    rewrite <- Hs in H. clear Hs.
    apply IH in H. destruct H as (-> & Hv & new & Hres & Hfst & Hall).
    split; [reflexivity|]. split; [exact Hv|].
    exists ((c, r) :: new). split; [rewrite Hres, <- app_assoc; reflexivity|].
    split; [simpl; rewrite Hfst; reflexivity|].
    constructor; [exact Hr|exact Hall].
Qed.

(** X15. A batch that returns: one result per case, in order, each
    paired with its case; a result is valid exactly when the judge found
    the grammar right and the answer right, whatever it said about
    equivalence, which is left out exactly when the case has no
    reference statement; the accuracy is the share of valid results, a
    number between 0 and 1; and the world is as it was. *)
Theorem X15_evaluate_batch_results cases w accuracy results w'
    (Hrun : evaluate_batch cases w = (Ok (accuracy, results), w')) :
  w' = w /\
  map fst results = cases /\
  Forall (fun cr =>
            is_valid (snd cr) = grammar_correct (snd cr) && answers_correctly (snd cr) /\
            (equivalent_to_reference (snd cr) = None <-> reference_of (fst cr) = []))
         results /\
  (accuracy * inject_Z (Z.of_nat (length cases))
   == inject_Z (Z.of_nat (count_valid results)))%Q /\
  (0 <= accuracy <= 1)%Q.
Proof.
  unfold evaluate_batch in Hrun.
  apply bind_ok_inv in Hrun. destruct Hrun as ([rs v] & w1 & Hloop & Hrun).
  change 0 with (count_valid (@nil (BatchCase * CaseResult))) in Hloop.
  apply batch_loop_spec in Hloop.
  destruct Hloop as (-> & -> & new & Hres & Hfst & Hall). simpl in Hres. subst new.
  apply bind_ok_inv in Hrun. destruct Hrun as (a & w2 & Ha & Hrun).
  apply ret_inv in Hrun. destruct Hrun as (Hrun & <-).
  injection Hrun as Hacc Hrs. subst accuracy results.
  assert (Hlen : length rs = length cases).
  { rewrite <- Hfst, length_map. reflexivity. }
  pose proof (count_valid_le rs) as Hle.
  destruct cases as [|c cases].
  - apply ret_inv in Ha. destruct Ha as (-> & ->).
    destruct rs; [|discriminate Hlen].
    split; [reflexivity|]. split; [reflexivity|]. split; [constructor|].
    split; [reflexivity|]. split; [apply Qle_refl|discriminate].
  - unfold lift in Ha. rewrite truediv_len in Ha. injection Ha as Ha Hw. subst a.
    split; [first [exact Hw | symmetry; exact Hw]|].
    split; [exact Hfst|]. split; [exact Hall|].
    assert (Hpos : (0 < len (c :: cases))%Q) by apply len_pos.
    assert (Hcount : (inject_Z (Z.of_nat (count_valid rs)) <= len (c :: cases))%Q).
    { unfold len. rewrite <- Zle_Qle. lia. }
    assert (Hnn : (0 <= inject_Z (Z.of_nat (count_valid rs)))%Q).
    { change 0%Q with (inject_Z 0). rewrite <- Zle_Qle. lia. }
    fold (len (c :: cases)).
    split; [field; intros H0; rewrite H0 in Hpos; exact (Qlt_irrefl _ Hpos)|].
    split.
    + apply Qle_shift_div_l; [exact Hpos|]. rewrite Qmult_0_l. exact Hnn.
    + apply Qle_shift_div_r; [exact Hpos|]. rewrite Qmult_1_l. exact Hcount.
Qed.

End Judge.

(** ** The data set handed to RAGAS *)

Section RagasDataset.
Context {env : Env}.
Import RAGAS.


Lemma prepare_rows_cons rag case rest acc :
  prepare_rows rag (case :: rest) acc =
  ('(contexts, _) <- retrieve_context rag (tc_question case) default_n_results ;;
   generated_sql <- generate_sql rag (tc_question case) (Some contexts) ;;
   prepare_rows rag rest
     (mkRagasDataset
        (ds_question acc ++ [tc_question case])
        (ds_answer acc ++ [generated_sql])
        (ds_contexts acc ++ [contexts])
        (ds_ground_truths acc ++ [[tc_sql case]])
        (ds_references acc ++ [tc_sql case]))).
Proof. reflexivity. Qed.



End RagasDataset.

(** ** What evaluation never does *)

Section MoreFrames.
Context {U : Unicode} {env : Env}.

Lemma print_keeps_db line : preserves w_db (print line).
Proof. intros w. reflexivity. Qed.

Lemma add_to_collection_keeps_db args : preserves w_db (add_to_collection args).
Proof.
  intros w. unfold add_to_collection.
  destruct (collection_add (w_collection w) args); reflexivity.
Qed.

Lemma add_to_collection_keeps_sql args :
  preserves (fun w => sql_run (w_trace w)) (add_to_collection args).
Proof.
  intros w. unfold add_to_collection.
  destruct (collection_add (w_collection w) args); [|reflexivity].
  simpl. rewrite sql_run_app. simpl. apply app_nil_r.
Qed.

#[local] Hint Resolve print_keeps_db : frame.

Lemma generate_sql_keeps_db rag q ctx : preserves w_db (generate_sql rag q ctx).
Proof. unfold generate_sql. frame. Qed.

Lemma evaluate_single_example_keeps_collection rag q gt db :
  preserves w_collection (evaluate_single_example rag q gt db).
Proof.
  rewrite evaluate_single_example_steps.
  apply preserves_bind; [apply generate_sql_keeps_collection|intros sql].
  apply preserves_bind; [|intros s].
  { unfold execution_step. destruct db as [url|]; [|apply preserves_ret].
    destruct (truthy (Some url) && negb (Qle_bool (_evaluate_syntax sql) 0));
      [apply execution_keeps_collection|apply preserves_ret]. }
  apply preserves_bind; [apply semantic_keeps|intros sem].
  apply preserves_bind; [apply retrieval_quality_keeps|intros m].
  apply preserves_ret.
Qed.

Lemma evaluation_loop_keeps_collection self dataset db cases :
  forall i results totals,
    preserves w_collection (evaluation_loop self dataset db i cases results totals).
Proof.
  induction cases as [|c rest IH]; intros i results totals.
  - apply preserves_ret.
  - rewrite evaluation_loop_cons.
    apply preserves_bind; [apply print_keeps_collection|intros _].
    apply preserves_bind; [apply evaluate_single_example_keeps_collection|intros m].
    apply IH.
Qed.

Lemma prepare_rows_keeps X (f : World -> X) rag cases :
  (forall q ctx, preserves f (generate_sql rag q ctx)) ->
  forall acc, preserves f (RAGAS.prepare_rows rag cases acc).
Proof.
  intros Hg. induction cases as [|c rest IH]; intros acc.
  - apply preserves_ret.
  - rewrite prepare_rows_cons.
    apply preserves_bind; [apply retrieve_context_keeps|intros [ctx scores]].
    apply preserves_bind; [apply Hg|intros sql]. apply IH.
Qed.

Lemma evaluate_with_ragas_keeps X (f : World -> X) rag cases :
  (forall line, preserves f (print line)) ->
  (forall q ctx, preserves f (generate_sql rag q ctx)) ->
  preserves f (RAGAS.evaluate_with_ragas rag cases).
Proof.
  intros Hp Hg. unfold RAGAS.evaluate_with_ragas, RAGAS.ragas_attempt,
    RAGAS.prepare_ragas_dataset.
  apply preserves_try_except;
    [|intros e; apply preserves_bind; [apply Hp|intros _; apply preserves_ret]].
  apply preserves_bind; [apply preserves_lift|intros _].
  apply preserves_bind; [|intros d; apply preserves_lift].
  apply preserves_bind; [apply preserves_lift|intros _].
  apply preserves_bind; [|intros d; apply preserves_lift].
  apply prepare_rows_keeps. exact Hg.
Qed.

Lemma batch_loop_keeps cases : forall results valid_count,
  preserves (fun w => w) (Lightweight.batch_loop cases results valid_count).
Proof.
  induction cases as [|c rest IH]; intros results valid_count.
  - apply preserves_ret.
  - cbn [Lightweight.batch_loop].
    apply preserves_bind; [apply evaluate_single_case_keeps|intros r]. apply IH.
Qed.

Lemma ingest_files_keeps X (f : World -> X) type_label id_prefix files :
  forall acc, preserves f (ingest_files type_label id_prefix files acc).
Proof.
  induction files as [|file rest IH]; intros acc.
  - apply preserves_ret.
  - cbn [ingest_files].
    apply preserves_bind; [apply preserves_lift|intros lines]. apply IH.
Qed.

Lemma add_batches_keeps X (f : World -> X) p starts :
  (forall args, preserves f (add_to_collection args)) ->
  preserves f (add_batches p starts).
Proof.
  intros Ha. induction starts as [|i rest IH].
  - apply preserves_ret.
  - cbn [add_batches].
    apply preserves_bind; [apply preserves_lift|intros embeddings].
    apply preserves_bind; [apply Ha|intros _]. exact IH.
Qed.

Lemma train_keeps X (f : World -> X) rag ddl_files doc_files example_files :
  (forall line, preserves f (print line)) ->
  (forall args, preserves f (add_to_collection args)) ->
  preserves f (train_rag_model rag ddl_files doc_files example_files).
Proof.
  intros Hp Ha. unfold train_rag_model, collect.
  apply preserves_bind; [|intros p].
  { apply preserves_bind; [apply ingest_files_keeps|intros p1].
    apply preserves_bind; [apply ingest_files_keeps|intros p2].
    apply ingest_files_keeps. }
  apply preserves_bind; [apply add_batches_keeps; exact Ha|intros _]. apply Hp.
Qed.

(** X17. Where the effects are.  Evaluation, in each of its three
    forms, never writes to the vector store; the RAGAS bridge sends
    nothing to the database either; the lightweight batch leaves the
    whole world as it was; and training, which does write to the store,
    never touches the database. *)
Theorem X17_where_the_effects_are :
  (forall rag q gt db,
     preserves w_collection (evaluate_single_example rag q gt db)) /\
  (forall self dataset db,
     preserves w_collection (comprehensive_evaluation self dataset db)) /\
  (forall rag cases,
     preserves w_collection (RAGAS.evaluate_with_ragas rag cases) /\
     preserves w_db (RAGAS.evaluate_with_ragas rag cases) /\
     preserves (fun w => sql_run (w_trace w)) (RAGAS.evaluate_with_ragas rag cases)) /\
  (forall cases, preserves (fun w => w) (Lightweight.evaluate_batch cases)) /\
  (forall rag ddl_files doc_files example_files,
     preserves w_db (train_rag_model rag ddl_files doc_files example_files) /\
     preserves (fun w => sql_run (w_trace w))
       (train_rag_model rag ddl_files doc_files example_files)).
Proof.
  split; [|split; [|split; [|split]]].
  - exact evaluate_single_example_keeps_collection.
  - intros self dataset db. unfold comprehensive_evaluation.
    apply preserves_bind; [apply evaluation_loop_keeps_collection|intros [rs totals]].
    repeat (apply preserves_bind; [apply preserves_lift|intros ?]).
    apply preserves_ret.
  - intros rag cases. split; [|split].
    + apply evaluate_with_ragas_keeps;
        [exact print_keeps_collection|exact (generate_sql_keeps_collection rag)].
    + apply evaluate_with_ragas_keeps;
        [exact print_keeps_db|exact (generate_sql_keeps_db rag)].
    + apply evaluate_with_ragas_keeps;
        [exact print_keeps_sql|exact (generate_sql_keeps_sql rag)].
  - intros cases. unfold Lightweight.evaluate_batch.
    apply preserves_bind; [apply batch_loop_keeps|intros [rs v]].
    apply preserves_bind; [|intros a; apply preserves_ret].
    destruct cases; [apply preserves_ret|apply preserves_lift].
  - intros rag ddl_files doc_files example_files. split.
    + apply train_keeps; [exact print_keeps_db|exact add_to_collection_keeps_db].
    + apply train_keeps; [exact print_keeps_sql|exact add_to_collection_keeps_sql].
Qed.

(** ** A failure of retrieval *)

(** X18. A failing embedding of the question is not handled anywhere
    below the RAGAS bridge: [retrieve_context], [generate_sql] without
    contexts and [evaluate_single_example] raise it with the world
    unchanged, and [comprehensive_evaluation] raises it at the first
    such case, having printed that case's progress line; only
    [evaluate_with_ragas] turns it into the fallback scores. *)
Theorem X18_embedding_failure_propagates self q ex w
    (Himport : import_ollama = Ok tt)
    (Hembed : embed_query q = Raise ex) :
  let rag := rag_system self in
  (forall n, retrieve_context rag q n w = (Raise ex, w)) /\
  generate_sql rag q None w = (Raise ex, w) /\
  (forall gt db, evaluate_single_example rag q gt db w = (Raise ex, w)) /\
  (forall gt rest db,
     comprehensive_evaluation self (mkTestCase q gt :: rest) db w =
     (Raise ex,
      mkWorld (w_collection w) (w_db w)
        (w_trace w ++ [Printed (py "处理测试用例 1/" ++ str_of_nat (S (length rest)))]))) /\
  (forall gt rest,
     fst (RAGAS.evaluate_with_ragas rag (mkTestCase q gt :: rest) w)
     = Ok fallback_scores).
Proof.
  intros rag.
  assert (Hret : forall n v, retrieve_context rag q n v = (Raise ex, v)).
  { intros n v. unfold retrieve_context, bind, lift. rewrite Hembed. reflexivity. }
  assert (Hgen : forall v, generate_sql rag q None v = (Raise ex, v)).
  { intros v. unfold generate_sql. unfold bind at 1. unfold lift. rewrite Himport.
    unfold bind at 1. unfold bind at 1. rewrite Hret. reflexivity. }
  assert (Heval : forall gt db v, evaluate_single_example rag q gt db v = (Raise ex, v)).
  { intros gt db v. unfold evaluate_single_example.
    rewrite (bind_raise _ _ _ (Hgen v)). reflexivity. }
  split; [intros n; apply Hret|]. split; [apply Hgen|]. split; [intros gt db; apply Heval|].
  split.
  - intros gt rest db. unfold comprehensive_evaluation.
    rewrite evaluation_loop_cons.
    unfold bind at 1. unfold bind at 1. unfold print at 1. unfold emit.
    unfold bind at 1. cbn [tc_question tc_sql]. fold rag. rewrite Heval.
    reflexivity.
  - intros gt rest.
    assert (Hattempt : exists e w1,
              RAGAS.ragas_attempt rag (mkTestCase q gt :: rest) w = (Raise e, w1)).
    { unfold RAGAS.ragas_attempt, RAGAS.prepare_ragas_dataset.
      unfold bind at 1. unfold lift at 1.
      destruct import_ragas as [[]|e]; [|eexists; eexists; reflexivity].
      unfold bind at 1. unfold bind at 1. unfold lift at 1.
      destruct import_datasets as [[]|e]; [|eexists; eexists; reflexivity].
      rewrite prepare_rows_cons. unfold bind at 1. unfold bind at 1.
      cbn [tc_question]. rewrite Hret. eexists. eexists. reflexivity. }
    destruct Hattempt as (e & w1 & Hattempt).
    exact (ragas_handler _ _ _ Hattempt).
Qed.

End MoreFrames.

(** ** The embedding function *)

Lemma traverse_length {A B} (f : A -> outcome B) (xs : list A) : forall ys,
  traverse f xs = Ok ys -> length ys = length xs.
Proof.
  induction xs as [|x xs IH]; intros ys H; simpl in H.
  - inversion H. reflexivity.
  - destruct (f x) as [y|e]; [|discriminate H].
    destruct (traverse f xs) as [ys'|e]; [|discriminate H].
    inversion H. simpl. rewrite (IH ys' eq_refl). reflexivity.
Qed.

Lemma traverse_nth {A B} (f : A -> outcome B) (xs : list A) : forall ys i x,
  traverse f xs = Ok ys -> nth_error xs i = Some x ->
  exists y, nth_error ys i = Some y /\ f x = Ok y.
Proof.
  induction xs as [|a xs IH]; intros ys i x H Hx; simpl in H.
  - destruct i; discriminate Hx.
  - destruct (f a) as [y|e] eqn:Hy; [|discriminate H].
    destruct (traverse f xs) as [ys'|e]; [|discriminate H].
    inversion H. subst ys. destruct i as [|i].
    + injection Hx as <-. exists y. split; [reflexivity|exact Hy].
    + exact (IH ys' i x eq_refl Hx).
Qed.

Lemma traverse_Forall {A B} (f : A -> outcome B) (P : B -> Prop) (xs : list A) :
  (forall x y, f x = Ok y -> P y) ->
  forall ys, traverse f xs = Ok ys -> Forall P ys.
Proof.
  intros Hf. induction xs as [|a xs IH]; intros ys H; simpl in H.
  - inversion H. constructor.
  - destruct (f a) as [y|e] eqn:Hy; [|discriminate H].
    destruct (traverse f xs) as [ys'|e]; [|discriminate H].
    inversion H. constructor; [exact (Hf a y Hy)|exact (IH ys' eq_refl)].
Qed.

Lemma traverse_total {A B} (f : A -> outcome B) (xs : list A) :
  (forall x, exists y, f x = Ok y) -> exists ys, traverse f xs = Ok ys.
Proof.
  intros Hf. induction xs as [|a xs IH].
  - exists []. reflexivity.
  - destruct (Hf a) as (y & Hy). destruct IH as (ys & Hys).
    exists (y :: ys). simpl. rewrite Hy, Hys. reflexivity.
Qed.

Lemma increment_positive word (word_count : list (pystr * nat)) :
  Forall (fun kv => 1 <= snd kv) word_count ->
  Forall (fun kv => 1 <= snd kv) (increment word word_count).
Proof.
  induction word_count as [|[k n] rest IH]; intros H; simpl.
  - constructor; [simpl; lia|constructor].
  - inversion H as [|? ? Hn Hrest]. subst. destruct (eqb k word).
    + constructor; [simpl; lia|exact Hrest].
    + constructor; [exact Hn|exact (IH Hrest)].
Qed.

Lemma count_words_positive (ws : list pystr) :
  Forall (fun kv => 1 <= snd kv) (count_words ws).
Proof.
  unfold count_words.
  assert (H : forall acc, Forall (fun kv => 1 <= snd kv) acc ->
                          Forall (fun kv => 1 <= snd kv)
                            (fold_left (fun word_count word => increment word word_count)
                                       ws acc)).
  { induction ws as [|w ws IH]; intros acc Hacc; simpl; [exact Hacc|].
    apply IH. apply increment_positive. exact Hacc. }
  apply H. constructor.
Qed.

Lemma sum_of_squares_positive (x : Q) (xs : list Q) :
  (forall y, In y (x :: xs) -> 1 <= y)%Q ->
  (0 < sum (map (fun y => y * y) (x :: xs)))%Q.
Proof.
  intros H. rewrite sum_total.
  assert (Hsq : forall y, In y (map (fun y => y * y)%Q (x :: xs)) -> (1 <= y)%Q).
  { intros y Hy. apply in_map_iff in Hy. destruct Hy as (z & <- & Hz).
    specialize (H z Hz). nra. }
  pose proof (@total_lower 1%Q _ Hsq) as Hlow.
  assert (Hlen : (0 < len (map (fun y => y * y)%Q (x :: xs)))%Q) by apply len_pos.
  lra.
Qed.

Lemma ok_inj {A} (a b : A) : Ok a = Ok b -> a = b.
Proof. intros H. injection H as H. exact H. Qed.

Section SimpleEmbedding.
Context {U : Unicode} {math : Math}.

Lemma embed_text_dimension text v : embed_text text = Ok v -> length v = DIMENSION.
Proof.
  unfold embed_text. destruct (count_words (words (lower text))) as [|kv rest].
  - intros H. apply ok_inj in H. subst v. apply repeat_length.
  - destruct (traverse _ _) as [nv|e]; [|discriminate].
    destruct (length nv <? DIMENSION) eqn:Hlt; intros H; apply ok_inj in H; subst v.
    + apply Nat.ltb_lt in Hlt. rewrite length_app, repeat_length. lia.
    + apply Nat.ltb_ge in Hlt. rewrite length_firstn. lia.
Qed.

Lemma embed_text_total (Hsqrt : sqrt_positive_law math) text :
  exists v, embed_text text = Ok v.
Proof.
  unfold embed_text.
  pose proof (count_words_positive (words (lower text))) as Hpos.
  destruct (count_words (words (lower text))) as [|kv rest].
  - eexists. reflexivity.
  - set (vector := map (fun kv => inject_Z (Z.of_nat (snd kv))) (kv :: rest)).
    set (norm := sqrt (sum (map (fun x => (x * x)%Q) vector))).
    assert (Hnorm : (0 < norm)%Q).
    { apply Hsqrt. unfold vector. cbn [map]. apply sum_of_squares_positive.
      intros y Hy.
      change (inject_Z (Z.of_nat (snd kv))
                :: map (fun kv => inject_Z (Z.of_nat (snd kv))) rest)
        with (map (fun kv => inject_Z (Z.of_nat (snd kv))) (kv :: rest)) in Hy.
      apply in_map_iff in Hy. destruct Hy as (z & <- & Hz).
      rewrite Forall_forall in Hpos. specialize (Hpos z Hz).
      change 1%Q with (inject_Z 1). rewrite <- Zle_Qle. lia. }
    assert (Hdiv : forall x, exists y, truediv x norm = Ok y).
    { intros x. unfold truediv. destruct (Qeq_bool norm 0) eqn:E.
      - apply Qeq_bool_iff in E. rewrite E in Hnorm. exfalso. exact (Qlt_irrefl _ Hnorm).
      - eexists. reflexivity. }
    destruct (traverse_total _ vector Hdiv) as (nv & Hnv). rewrite Hnv.
    destruct (length nv <? DIMENSION); eexists; reflexivity.
Qed.

(** X19. With a square root that is positive on positive numbers, the
    word-count embedding cannot divide by zero: it returns one vector
    per text, each of exactly 512 components, padded or cut as needed,
    and the vector of a text without words is all zeros. *)
Theorem X19_simple_embedding_dimension (Hsqrt : sqrt_positive_law math)
    (texts : list pystr) :
  exists vectors,
    _simple_embedding texts = Ok vectors /\
    length vectors = length texts /\
    Forall (fun v => length v = 512) vectors /\
    forall i text,
      nth_error texts i = Some text -> words (lower text) = [] ->
      nth_error vectors i = Some (repeat 0%Q 512).
Proof.
  destruct (traverse_total embed_text texts (embed_text_total Hsqrt)) as (vs & Hvs).
  exists vs. unfold _simple_embedding.
  split; [exact Hvs|]. split; [eapply traverse_length; exact Hvs|].
  split; [eapply traverse_Forall; [exact embed_text_dimension|exact Hvs]|].
  intros i text Hi Hwords.
  destruct (@traverse_nth _ _ embed_text texts vs i text Hvs Hi) as (v & Hv & Hembed).
  rewrite Hv. f_equal. unfold embed_text in Hembed. rewrite Hwords in Hembed.
  cbn [count_words fold_left] in Hembed. apply ok_inj in Hembed. subst v.
  reflexivity.
Qed.

End SimpleEmbedding.

Lemma batch_starts_positive n : 0 < n -> exists rest, batch_starts n = 0 :: rest.
Proof.
  intros Hn. unfold batch_starts.
  change ((n + (batch_size - 1)) / batch_size) with ((n + 99) / 100).
  destruct ((n + 99) / 100) as [|m] eqn:E.
  - exfalso. pose proof (Nat.div_mod_eq (n + 99) 100) as Hd.
    pose proof (Nat.mod_upper_bound (n + 99) 100) as Hm. rewrite E in Hd. lia.
  - eexists. reflexivity.
Qed.

(** X20. The fallback of [_get_embedding_function] cannot be used: when
    the langchain import or constructor fails, the object stored is the
    bound method [_simple_embedding], which has neither [embed_documents]
    nor [embed_query].  [retrieve_context] then always raises the
    attribute error; [train_rag_model] raises it before anything is
    stored as soon as there is one snippet to embed, and succeeds only
    when there is none. *)
Theorem X20_fallback_embedding_has_no_methods (env : Env) (load : outcome unit) e
    (Hload : load = Raise e) :
  let fallback := with_embedding_function (_get_embedding_function load) env in
  (forall rag q n (w : @World fallback),
     @retrieve_context fallback rag q n w
     = (Raise (no_attribute (py "embed_query")), w)) /\
  (forall rag ddl_files doc_files example_files (w : @World fallback) p,
     @collect fallback ddl_files doc_files example_files w = (Ok p, w) ->
     (all_documents p <> [] ->
      @train_rag_model fallback rag ddl_files doc_files example_files w
      = (Raise (no_attribute (py "embed_documents")), w)) /\
     (all_documents p = [] ->
      @train_rag_model fallback rag ddl_files doc_files example_files w
      = (Ok tt, mkWorld (w_collection w) (w_db w)
                  (w_trace w ++ [Printed (py "成功导入 0 条知识条目")])))).
Proof.
  subst load. cbv zeta. cbn [_get_embedding_function].
  split.
  - intros rag q n w. reflexivity.
  - intros rag ddl_files doc_files example_files w p Hcollect.
    unfold train_rag_model. rewrite (bind_ok _ _ _ Hcollect). split.
    + intros Hne.
      destruct (batch_starts_positive (n := length (all_documents p))) as (rest & Hs).
      { destruct (all_documents p); [exfalso; apply Hne; reflexivity|simpl; lia]. }
      rewrite Hs. reflexivity.
    + intros Hnil. rewrite Hnil.
      assert (Hline : py "成功导入 " ++ str_of_nat 0 ++ py " 条知识条目"
                      = py "成功导入 0 条知识条目") by (vm_compute; reflexivity).
      change (batch_starts (length (@nil pystr))) with (@nil nat).
      cbn [add_batches length]. unfold bind, ret, print, emit.
      rewrite Hline. reflexivity.
Qed.

(** ** The prompt *)

Lemma occurs_refl (p : pystr) : occurs p p.
Proof. exists 0, [], []. split; [rewrite app_nil_r; reflexivity|reflexivity]. Qed.

Lemma occurs_app_l (p a b : pystr) : occurs p a -> occurs p (a ++ b).
Proof.
  intros (i & pre & post & -> & _). exists (length pre), pre, (post ++ b).
  split; [rewrite <- !app_assoc; reflexivity|reflexivity].
Qed.

Lemma occurs_app_r (p a b : pystr) : occurs p b -> occurs p (a ++ b).
Proof.
  intros (i & pre & post & -> & _). exists (length (a ++ pre)), (a ++ pre), post.
  split; [rewrite <- !app_assoc; reflexivity|reflexivity].
Qed.

Lemma occurs_join (sep x : pystr) (parts : list pystr) :
  In x parts -> occurs x (join sep parts).
Proof.
  induction parts as [|p rest IH]; intros Hin; [destruct Hin|].
  rewrite join_cons. destruct Hin as [->|Hin].
  - destruct rest; [apply occurs_refl|apply occurs_app_l, occurs_refl].
  - destruct rest as [|r rest']; [destruct Hin|].
    apply occurs_app_r, occurs_app_r, IH. exact Hin.
Qed.

Lemma occurs_trans (a b c : pystr) : occurs a b -> occurs b c -> occurs a c.
Proof.
  intros (i & pre & post & -> & _) (j & pre' & post' & -> & _).
  exists (length (pre' ++ pre)), (pre' ++ pre), (post ++ post').
  split; [rewrite <- !app_assoc; reflexivity|reflexivity].
Qed.

Lemma join_last (sep x : pystr) (parts : list pystr) :
  exists pre, join sep (parts ++ [x]) = pre ++ x.
Proof.
  induction parts as [|p rest IH].
  - exists []. reflexivity.
  - destruct IH as (pre & Hpre). change ((p :: rest) ++ [x]) with (p :: (rest ++ [x])).
    rewrite join_cons. destruct (rest ++ [x]) as [|r rs] eqn:E.
    + destruct rest; discriminate E.
    + exists (p ++ sep ++ pre). rewrite Hpre, <- !app_assoc. reflexivity.
Qed.

(** X21. The prompt carries its inputs unchanged: the question occurs
    in it, every context occurs in it as a list item, and it ends with
    the cue for the SQL. *)
Theorem X21_prompt_carries_question_and_contexts (question : pystr)
    (contexts : list pystr) :
  contains question (_build_prompt question contexts) = true /\
  (forall ctx, In ctx contexts ->
     contains (py "- " ++ ctx) (_build_prompt question contexts) = true) /\
  exists pre, _build_prompt question contexts = pre ++ py "SQL查询：".
Proof.
  split; [|split].
  - apply contains_spec. unfold _build_prompt.
    apply occurs_trans with (b := py "自然语言问题：" ++ question).
    + apply occurs_app_r, occurs_refl.
    + apply occurs_join. simpl. tauto.
  - intros ctx Hin. apply contains_spec. unfold _build_prompt.
    apply occurs_trans
      with (b := join [NL] (map (fun c => py "- " ++ c) contexts)).
    + apply occurs_join. apply in_map_iff. exists ctx. split; [reflexivity|exact Hin].
    + apply occurs_join. simpl. tauto.
  - unfold _build_prompt.
    match goal with
    | |- exists pre, join ?sep [?a1; ?a2; ?a3; ?a4; ?a5; ?a6; ?a7; ?a8; ?a9; ?a10;
                              ?a11; ?a12; ?a13; ?a14; ?a15] = _ =>
        exact (join_last sep a15 [a1; a2; a3; a4; a5; a6; a7; a8; a9; a10;
                                  a11; a12; a13; a14])
    end.
Qed.

(** ** Evaluation without a connection string *)

Lemma zero_average (a : Q) (values : list Q) :
  is_average a values -> Forall (fun v => v = 0%Q) values -> (a == 0)%Q.
Proof.
  intros (Hnil & Hmean) Hall. destruct values as [|v vs].
  - rewrite Hnil; reflexivity.
  - rewrite Hmean by discriminate. unfold mean.
    assert (Ht : (total (v :: vs) == 0)%Q).
    { clear Hnil Hmean. induction Hall as [|x xs Hx _ IH]; [reflexivity|].
      simpl. rewrite Hx, IH. reflexivity. }
    rewrite Ht. unfold Qdiv. apply Qmult_0_l.
Qed.

Section NoConnection.
Context {U : Unicode} {env : Env}.

Lemma evaluate_single_example_unconnected rag q gt db w r w' :
  truthy db = false ->
  evaluate_single_example rag q gt db w = (Ok r, w') ->
  execution_accuracy r = 0%Q /\
  w_db w' = w_db w /\
  sql_run (w_trace w') = sql_run (w_trace w).
Proof.
  intros Hdb. rewrite evaluate_single_example_steps. intros H.
  apply bind_ok_inv in H. destruct H as (sql & w1 & Hgen & H).
  apply bind_ok_inv in H. destruct H as (s & w2 & Hexec & H).
  apply bind_ok_inv in H. destruct H as (sem & w3 & Hsem & H).
  apply bind_ok_inv in H. destruct H as (m & w4 & Hm & H).
  apply ret_inv in H. destruct H as (-> & ->).
  assert (Hs : s = 0%Q /\ w2 = w1).
  { unfold execution_step in Hexec. destruct db as [url|].
    - rewrite Hdb in Hexec. apply ret_inv in Hexec. exact Hexec.
    - apply ret_inv in Hexec. exact Hexec. }
  destruct Hs as (-> & ->).
  pose proof (generate_sql_keeps_db rag q None w) as Hg1.
  pose proof (generate_sql_keeps_sql rag q None w) as Hg2.
  rewrite Hgen in Hg1, Hg2. simpl in Hg1, Hg2.
  pose proof (semantic_keeps (fun v => v) sql gt w1) as Hs1.
  rewrite Hsem in Hs1. simpl in Hs1. subst w3.
  pose proof (retrieval_quality_keeps (fun v => v) rag q sql w1) as Hr1.
  rewrite Hm in Hr1. simpl in Hr1. subst w4.
  simpl. auto.
Qed.

Lemma evaluation_loop_unconnected self dataset db cases :
  truthy db = false ->
  forall i results w results' totals' w',
    evaluation_loop self dataset db i cases results (totals_of results) w
      = (Ok (results', totals'), w') ->
    w_db w' = w_db w /\
    sql_run (w_trace w') = sql_run (w_trace w) /\
    (Forall (fun r => execution_accuracy r = 0%Q) results ->
     Forall (fun r => execution_accuracy r = 0%Q) results').
Proof.
  intros Hdb. induction cases as [|c rest IH]; intros i results w results' totals' w' H.
  - apply ret_inv in H. destruct H as (H & ->). injection H as <- _. auto.
  - rewrite evaluation_loop_cons in H.
    apply bind_ok_inv in H. destruct H as ([] & w1 & Hprint & H).
    apply bind_ok_inv in H. destruct H as (m & w2 & Hm & H).
    pose proof (print_keeps_db
                  (py "处理测试用例 " ++ str_of_nat (i + 1) ++ py "/"
                   ++ str_of_nat (length dataset)) w) as Hp1.
    pose proof (print_keeps_sql
                  (py "处理测试用例 " ++ str_of_nat (i + 1) ++ py "/"
                   ++ str_of_nat (length dataset)) w) as Hp2.
    rewrite Hprint in Hp1, Hp2. simpl in Hp1, Hp2.
    apply (evaluate_single_example_unconnected _ _ _ _ _ Hdb) in Hm.
    destruct Hm as (Hzero & Hm1 & Hm2).
    assert (Ht : mkTotals
                   (t_syntax_accuracy (totals_of results) ++ [syntax_accuracy m])
                   (t_execution_accuracy (totals_of results) ++ [execution_accuracy m])
                   (t_exact_match (totals_of results) ++ [exact_match m])
                   (t_semantic_similarity (totals_of results) ++ [semantic_similarity m])
                   (t_retrieval_quality (totals_of results) ++ [retrieval_quality m])
                 = totals_of (results ++ [m])).
    { unfold totals_of. cbn [t_syntax_accuracy t_execution_accuracy t_exact_match
                               t_semantic_similarity t_retrieval_quality].
      rewrite !map_app. reflexivity. }
    rewrite Ht in H. apply IH in H. destruct H as (H1 & H2 & H3).
    split; [rewrite H1, Hm1; exact Hp1|]. split; [rewrite H2, Hm2; exact Hp2|].
    intros Hall. apply H3. apply Forall_app. split; [exact Hall|].
    constructor; [exact Hzero|constructor].
Qed.

(** X22. Called without a connection string, as the example script
    calls it, [comprehensive_evaluation] never attempts an execution:
    every record has execution accuracy 0, so has the average; no
    statement is sent and the database is as it was. *)
Theorem X22_no_connection_no_execution self dataset db w report self' w'
    (Hdb : truthy db = false)
    (Hrun : comprehensive_evaluation self dataset db w = (Ok (report, self'), w')) :
  Forall (fun r => execution_accuracy r = 0%Q) (results report) /\
  (avg_execution_accuracy (average_metrics report) == 0)%Q /\
  sql_run (w_trace w') = sql_run (w_trace w) /\
  w_db w' = w_db w.
Proof.
  apply comprehensive_evaluation_inv in Hrun.
  destruct Hrun as (rs & a1 & a2 & a3 & a4 & a5 & Hloop & _ & H2 & _ & _ & _
                    & -> & _).
  apply (@evaluation_loop_unconnected self dataset db dataset Hdb) in Hloop.
  destruct Hloop as (H1 & Hsql & H3). specialize (H3 (Forall_nil _)).
  cbn [results average_metrics avg_execution_accuracy].
  split; [exact H3|]. split; [|split; [exact Hsql|exact H1]].
  apply (zero_average (average_is_average _ H2)).
  apply Forall_map. exact H3.
Qed.

End NoConnection.

(** ** The properties at work on the stub services *)

Lemma stub_sqrt_positive : sqrt_positive_law stub_math.
Proof.
  intros x Hx. unfold sqrt, stub_math.
  assert (Hc : (0 < Qceiling x)%Z).
  { pose proof (Qle_ceiling x) as Hle.
    assert (H0 : (inject_Z 0 < inject_Z (Qceiling x))%Q).
    { apply Qlt_le_trans with (y := x); [exact Hx|exact Hle]. }
    rewrite <- Zlt_Qlt in H0. exact H0. }
  change 0%Q with (inject_Z 0). rewrite <- Zlt_Qlt.
  apply Z.sqrt_pos. exact Hc.
Qed.

(** A store that fills up after the first batch keeps that batch: of
    the 150 lines of the file, 100 stay in the collection. *)
Example failed_training_leaves_a_batch :
  exists w',
    @train_rag_model full_env rag [py "schema.sql"] [] [] full_world
    = (Raise (Exception (py "database or disk is full")), w') /\
    map (fun args => length (add_documents args)) (w_collection w') = [100] /\
    @printed full_env (w_trace w') = [].
Proof. eexists. split; [vm_compute; reflexivity|]. split; vm_compute; reflexivity. Qed.

(** The word-count embedding does not see which words a text has, only
    how often each of them occurs. *)
Example simple_embedding_ignores_the_words (math : Math) :
  @embed_text ascii_unicode math (py "SELECT name FROM users")
  = @embed_text ascii_unicode math (py "DROP TABLE orders now").
Proof.
  unfold embed_text.
  replace (count_words (words (@lower ascii_unicode (py "SELECT name FROM users"))))
    with [(py "select", 1); (py "name", 1); (py "from", 1); (py "users", 1)]
    by (vm_compute; reflexivity).
  replace (count_words (words (@lower ascii_unicode (py "DROP TABLE orders now"))))
    with [(py "drop", 1); (py "table", 1); (py "orders", 1); (py "now", 1)]
    by (vm_compute; reflexivity).
  reflexivity.
Qed.

(** With the endpoint down, generation returns the empty string and
    prints the diagnostic. *)
Lemma X1_witness :
  @generate_sql offline_env rag QUESTION (Some []) offline_world
  = (Ok [], @mkWorld offline_env (w_collection offline_world) (w_db offline_world)
              (w_trace offline_world ++
               [Printed (py "SQL生成错误: " ++
                         str_of_exn (Exception (py "connection refused")))])).
Proof.
  exact (proj1 (proj2 (@X1_generate_sql_swallows_endpoint_failure offline_env rag
                         QUESTION [] offline_world eq_refl))
           (Exception (py "connection refused")) eq_refl).
Defined.

(** With every service up, the example is evaluated. *)
Lemma X2_witness :
  exists r w',
    @evaluate_single_example ascii_unicode demo_env rag QUESTION
      (py "SELECT id FROM users") (Some (py "sqlite://")) demo_world = (Ok r, w').
Proof.
  apply (proj1 (@X2_evaluation_returns_iff_imports_and_retrieval_succeed ascii_unicode
                  demo_env rag QUESTION (py "SELECT id FROM users")
                  (Some (py "sqlite://")) demo_world)).
  split; [reflexivity|]. split; [reflexivity|].
  exists tt, near. split; reflexivity.
Defined.

(** With the endpoint down, the example is scored on the empty string. *)
Lemma X3_witness :
  exists r w',
    @evaluate_single_example ascii_unicode offline_env rag QUESTION
      (py "SELECT id FROM users") (Some (py "sqlite://")) offline_world = (Ok r, w') /\
    generated_sql r = [] /\ execution_accuracy r = 0%Q.
Proof.
  destruct (@X3_failed_generation_is_scored_zero ascii_unicode offline_env rag QUESTION
              (py "SELECT id FROM users") (Some (py "sqlite://")) offline_world
              tt near (Exception (py "connection refused"))
              eq_refl eq_refl eq_refl eq_refl eq_refl)
    as (r & Hrun & Hgen & _ & Hexec & _).
  exists r. eexists. split; [exact Hrun|]. split; [exact Hgen|exact Hexec].
Defined.

(** A file that does not exist stops the ingestion of the others. *)
Lemma X4_witness :
  exists e bad,
    @train_rag_model demo_env rag [py "schema.sql"] [py "nowhere.txt"] [] demo_world
    = (Raise e, demo_world) /\
    In bad ([py "schema.sql"] ++ [py "nowhere.txt"] ++ []) /\
    @read_lines demo_env bad = Raise e.
Proof.
  apply (@X4_unreadable_file_aborts_training demo_env rag [py "schema.sql"]
           [py "nowhere.txt"] [] demo_world (py "nowhere.txt")
           (Exception (py "No such file or directory"))).
  - right. left. reflexivity.
  - vm_compute. reflexivity.
Defined.

(** Three snippets go to the store in one batch. *)
Lemma X5_witness :
  exists p (batches : list (AddArgs (@Embedding demo_env))),
    @collect demo_env [py "schema.sql"] [py "notes.txt"] [] demo_world
    = (Ok p, demo_world) /\
    length batches = (length (all_documents p) + 99) / 100.
Proof.
  assert (Hrun : exists w', @train_rag_model demo_env rag [py "schema.sql"]
                              [py "notes.txt"] [] demo_world = (Ok tt, w'))
    by (eexists; vm_compute; reflexivity).
  destruct Hrun as (w' & Hrun).
  destruct (@X5_training_batches demo_env rag _ _ _ _ _ Hrun)
    as (p & batches & Hcollect & _ & _ & Hlen & _).
  exists p, batches. split; [exact Hcollect|exact Hlen].
Defined.

(** The store fills up after one batch: what was added stays. *)
Lemma X6_witness :
  exists w' batches,
    @train_rag_model full_env rag [py "schema.sql"] [] [] full_world
    = (Raise (Exception (py "database or disk is full")), w') /\
    w_trace w' = w_trace full_world ++ map (@Added full_env) batches.
Proof.
  assert (Hrun : exists w', @train_rag_model full_env rag [py "schema.sql"] [] []
                              full_world
                            = (Raise (Exception (py "database or disk is full")), w'))
    by (eexists; vm_compute; reflexivity).
  destruct Hrun as (w' & Hrun).
  destruct (@X6_failed_training_keeps_earlier_batches full_env rag _ _ _ _ _ _ Hrun)
    as (batches & Htrace & _).
  exists w', batches. split; [exact Hrun|exact Htrace].
Defined.

(** The id of the note identifies its text. *)
Lemma X7_witness :
  exists p,
    @collect demo_env [py "schema.sql"] [py "notes.txt"] [] demo_world
    = (Ok p, demo_world) /\
    forall text md,
      In (text, md, py "doc_notes.txt_0") (snippets p) ->
      text = py "orders holds one row per purchase".
Proof.
  assert (Hrun : exists p, @collect demo_env [py "schema.sql"] [py "notes.txt"] []
                             demo_world = (Ok p, demo_world) /\
                           In (py "orders holds one row per purchase",
                               mkMetadata (py "documentation") (py "notes.txt"),
                               py "doc_notes.txt_0") (snippets p)).
  { eexists. split; [vm_compute; reflexivity|].
    right. right. left. vm_compute. reflexivity. }
  destruct Hrun as (p & Hcollect & Hin).
  exists p. split; [exact Hcollect|].
  intros text md Hin'.
  exact (proj1 (proj2 (@X7_snippet_id_is_a_key demo_env) _ _ _ _ _ _ Hcollect
                  _ _ _ _ _ Hin' Hin)).
Defined.

(** Lower case and a line break do not matter to the exact match. *)
Lemma X8_witness :
  @_evaluate_exact_match ascii_unicode
    (py "select a" ++ [NL] ++ py "from t") (py "SELECT a FROM t") = 1%Q.
Proof.
  apply (proj2 (proj2 (proj2 (proj2
           (@X8_exact_match_ignores_case_and_spacing ascii_unicode
              ascii_upper_space ascii_upper_nonspace ascii_upper_idem))))).
  vm_compute. reflexivity.
Defined.

(** A statement and its upper-case form have the same syntax score. *)
Lemma X9_witness :
  @_evaluate_syntax ascii_unicode (@upper ascii_unicode (py "from t select a"))
  = @_evaluate_syntax ascii_unicode (py "from t select a").
Proof.
  exact (@X9_syntax_score_ignores_case ascii_unicode ascii_upper_space
           ascii_upper_nonspace ascii_upper_idem (py "from t select a")).
Defined.

(** A reply without fences is split into words and joined again. *)
Lemma X10_witness :
  _clean_sql_output (py " SELECT  1" ++ [NL])
  = join [SPACE] (words (py " SELECT  1" ++ [NL])).
Proof.
  apply (@X10_clean_without_backtick (py " SELECT  1" ++ [NL])).
  vm_compute. reflexivity.
Defined.

(** A score of one half: both statements have run, the generated one
    first. *)
Lemma X11_witness :
  sql_run (w_trace (snd (@_evaluate_execution_accuracy demo_env
                           (py "SELECT * FROM inventory_logs")
                           (py "SELECT id FROM users") (py "sqlite://") demo_world)))
  = [(py "sqlite://", py "SELECT * FROM inventory_logs");
     (py "sqlite://", py "SELECT id FROM users")].
Proof.
  destruct (@X11_reference_runs_only_after_generated demo_env
              (py "SELECT * FROM inventory_logs") (py "SELECT id FROM users")
              (py "sqlite://") demo_world) as (_ & ran & Hrun & _ & _ & _ & _ & Hscore & _).
  rewrite Hrun. rewrite (Hscore (1 # 2)%Q); [reflexivity| |discriminate].
  vm_compute. reflexivity.
Defined.

(** A data set of one case gives a report of one record. *)
Lemma X12_witness :
  exists report self' w',
    @comprehensive_evaluation ascii_unicode demo_env (mkEvaluator rag [])
      [mkTestCase QUESTION (py "SELECT id FROM users")] None demo_world
    = (Ok (report, self'), w') /\
    total_cases report = length [mkTestCase QUESTION (py "SELECT id FROM users")] /\
    map question (results report)
    = map tc_question [mkTestCase QUESTION (py "SELECT id FROM users")] /\
    metrics_history self' = metrics_history (mkEvaluator rag []) ++ [report].
Proof.
  assert (Hrun : exists report self' w',
             @comprehensive_evaluation ascii_unicode demo_env (mkEvaluator rag [])
               [mkTestCase QUESTION (py "SELECT id FROM users")] None demo_world
             = (Ok (report, self'), w'))
    by (eexists _, _, _; vm_compute; reflexivity).
  destruct Hrun as (report & self' & w' & Hrun).
  destruct (@X12_comprehensive_report ascii_unicode demo_env _ _ _ _ _ _ _ Hrun)
    as (Htotal & _ & Hq & _ & _ & _ & Hhist & _).
  exists report, self', w'. split; [exact Hrun|].
  split; [exact Htotal|]. split; [exact Hq|exact Hhist].
Defined.

(** When the embedding function is missing, the run stops at the first
    case. *)
Lemma X13_witness :
  exists e w' pre case post w1,
    @comprehensive_evaluation ascii_unicode fallback_env (mkEvaluator rag [])
      [mkTestCase QUESTION (py "SELECT id FROM users")] None fallback_world
    = (Raise e, w') /\
    [mkTestCase QUESTION (py "SELECT id FROM users")] = pre ++ case :: post /\
    @evaluate_single_example ascii_unicode fallback_env rag (tc_question case)
      (tc_sql case) None w1 = (Raise e, w').
Proof.
  assert (Hrun : exists e w',
             @comprehensive_evaluation ascii_unicode fallback_env (mkEvaluator rag [])
               [mkTestCase QUESTION (py "SELECT id FROM users")] None fallback_world
             = (Raise e, w'))
    by (eexists _, _; vm_compute; reflexivity).
  destruct Hrun as (e & w' & Hrun).
  destruct (proj1 (@X13_comprehensive_raises_only_from_a_case ascii_unicode
                     fallback_env (mkEvaluator rag []) None) _ _ _ _ Hrun)
    as (pre & case & post & w1 & Hsplit & Hcase).
  exists e, w', pre, case, post, w1.
  split; [exact Hrun|]. split; [exact Hsplit|exact Hcase].
Defined.

(** The judge says that the statements are not equivalent; the
    evaluator reports that they are. *)
Lemma X14_witness :
  @Lightweight.evaluate_equivalence ascii_unicode full_env QUESTION
    (py "SELECT 1") (py "SELECT 2") full_world = (Ok true, full_world).
Proof.
  apply (proj2 (proj2 (@X14_not_equivalent_is_read_as_equivalent ascii_unicode
                         full_env))
           QUESTION (py "SELECT 1") (py "SELECT 2") (py " 不等价") full_world).
  - reflexivity.
  - vm_compute. reflexivity.
  - vm_compute. reflexivity.
  - vm_compute. reflexivity.
Defined.

(** A batch of one case, judged valid. *)
Lemma X15_witness :
  exists accuracy results w',
    @Lightweight.evaluate_batch ascii_unicode demo_env
      [Lightweight.mkBatchCase QUESTION (py "SELECT 1") (py "t(a)") None] demo_world
    = (Ok (accuracy, results), w') /\
    w' = demo_world /\
    map fst results
    = [Lightweight.mkBatchCase QUESTION (py "SELECT 1") (py "t(a)") None] /\
    (0 <= accuracy <= 1)%Q.
Proof.
  assert (Hrun : exists accuracy results w',
             @Lightweight.evaluate_batch ascii_unicode demo_env
               [Lightweight.mkBatchCase QUESTION (py "SELECT 1") (py "t(a)") None]
               demo_world = (Ok (accuracy, results), w'))
    by (eexists _, _, _; vm_compute; reflexivity).
  destruct Hrun as (accuracy & results & w' & Hrun).
  destruct (@X15_evaluate_batch_results ascii_unicode demo_env _ _ _ _ _ Hrun)
    as (Hw & Hfst & _ & _ & Hrange).
  exists accuracy, results, w'. split; [exact Hrun|].
  split; [exact Hw|]. split; [exact Hfst|exact Hrange].
Defined.


(** Without an embedding function the evaluation raises, and the RAGAS
    bridge answers with its constants. *)
Lemma X18_witness :
  @evaluate_single_example ascii_unicode fallback_env rag QUESTION
    (py "SELECT id FROM users") None fallback_world
  = (Raise (no_attribute (py "embed_query")), fallback_world) /\
  fst (@RAGAS.evaluate_with_ragas fallback_env rag
         [mkTestCase QUESTION (py "SELECT id FROM users")] fallback_world)
  = Ok fallback_scores.
Proof.
  destruct (@X18_embedding_failure_propagates ascii_unicode fallback_env
              (mkEvaluator rag []) QUESTION (no_attribute (py "embed_query"))
              fallback_world eq_refl eq_refl) as (_ & _ & Heval & _ & Hragas).
  split; [exact (Heval _ _)|exact (Hragas _ _)].
Defined.

(** Two texts, the second without words. *)
Lemma X19_witness :
  exists vectors,
    @_simple_embedding ascii_unicode stub_math [py "a b a"; [SPACE; NL]] = Ok vectors /\
    length vectors = 2 /\
    nth_error vectors 1 = Some (repeat 0%Q 512).
Proof.
  destruct (@X19_simple_embedding_dimension ascii_unicode stub_math stub_sqrt_positive
              [py "a b a"; [SPACE; NL]]) as (vectors & Hrun & Hlen & _ & Hzero).
  exists vectors. split; [exact Hrun|]. split; [exact Hlen|].
  apply (Hzero 1 [SPACE; NL]); reflexivity.
Defined.

(** langchain is not installed: retrieval raises the attribute error. *)
Lemma X20_witness :
  @retrieve_context fallback_env rag QUESTION 5 fallback_world
  = (Raise (no_attribute (py "embed_query")), fallback_world).
Proof.
  exact (proj1 (@X20_fallback_embedding_has_no_methods demo_env
                  (Raise (Exception (py "No module named 'langchain'")))
                  (Exception (py "No module named 'langchain'")) eq_refl)
           rag QUESTION 5 fallback_world).
Defined.

(** The second context is an item of the prompt. *)
Lemma X21_witness :
  contains (py "- " ++ py "orders holds one row per purchase")
    (_build_prompt QUESTION
       [py "CREATE TABLE users(id INT)"; py "orders holds one row per purchase"])
  = true.
Proof.
  apply (proj1 (proj2 (X21_prompt_carries_question_and_contexts QUESTION
                         [py "CREATE TABLE users(id INT)";
                          py "orders holds one row per purchase"]))).
  right. left. reflexivity.
Defined.

(** The example script passes no connection string. *)
Lemma X22_witness :
  exists report self' w',
    @comprehensive_evaluation ascii_unicode demo_env (mkEvaluator rag [])
      [mkTestCase QUESTION (py "SELECT id FROM users")] None demo_world
    = (Ok (report, self'), w') /\
    (avg_execution_accuracy (average_metrics report) == 0)%Q /\
    sql_run (w_trace w') = sql_run (w_trace demo_world).
Proof.
  assert (Hrun : exists report self' w',
             @comprehensive_evaluation ascii_unicode demo_env (mkEvaluator rag [])
               [mkTestCase QUESTION (py "SELECT id FROM users")] None demo_world
             = (Ok (report, self'), w'))
    by (eexists _, _, _; vm_compute; reflexivity).
  destruct Hrun as (report & self' & w' & Hrun).
  destruct (@X22_no_connection_no_execution ascii_unicode demo_env _ _ None _ _ _ _
              eq_refl Hrun) as (_ & Havg & Hsql & _).
  exists report, self', w'. split; [exact Hrun|].
  split; [exact Havg|exact Hsql].
Defined.
